(** * R6 Siege analytics: extraction, aggregation, ranking and report layout

    A shallow embedding of [r6_analyzer.py].  The pandas tables become lists
    of records, the JSON record sets become typed records over finite maps,
    and the report renderer becomes a function building the list of flowables
    that the document library receives, parametrised by what the document
    and chart libraries raise on a flowable and on the build.

    Numbers.  Every JSON number is an exact rational ([Q]); floating-point
    rounding is not part of this model, so equations between numbers are
    stated up to [==].

    Text.  Names are strings of characters below 128; [strip] and [lower]
    act on them as Python's [str.strip] and [str.lower] do there. *)

From Stdlib Require Import Ascii String QArith Lqa.
From stdpp Require Import base list gmap strings sorting.

Open Scope Q_scope.

(** ** Decidable comparisons on rationals *)

#[global] Instance Qle_dec (x y : Q) : Decision (x <= y).
Proof. unfold Qle. apply _. Defined.

#[global] Instance Qlt_dec (x y : Q) : Decision (x < y).
Proof. unfold Qlt. apply _. Defined.

#[global] Instance Qeq_dec' (x y : Q) : Decision (x == y).
Proof. unfold Qeq. apply _. Defined.

(** ** Text helpers: [str.strip] and [str.lower] *)

Definition is_space (c : ascii) : bool :=
  let n := nat_of_ascii c in
  ((9 <=? n)%nat && (n <=? 13)%nat) || ((28 <=? n)%nat && (n <=? 32)%nat).

Fixpoint lstrip (s : string) : string :=
  match s with
  | EmptyString => EmptyString
  | String c s' => if is_space c then lstrip s' else s
  end.

Definition rstrip (s : string) : string := String.rev (lstrip (String.rev s)).

Definition strip (s : string) : string := rstrip (lstrip s).

Definition lower_char (c : ascii) : ascii :=
  let n := nat_of_ascii c in
  if ((65 <=? n)%nat && (n <=? 90)%nat) then ascii_of_nat (n + 32) else c.

Fixpoint lower (s : string) : string :=
  match s with
  | EmptyString => EmptyString
  | String c s' => String (lower_char c) (lower s')
  end.

(** ** Tables

    [pd.DataFrame()] has neither rows nor columns; a table that went through
    a filter keeps its columns even when no row is left.  Reading a column
    of the former raises [KeyError], so the two are kept apart. *)

Inductive DataFrame (A : Type) : Type :=
  | Bare
  | Rows (l : list A).
Arguments Bare {A}.
Arguments Rows {A} l.

Definition rows {A} (df : DataFrame A) : list A :=
  match df with Bare => [] | Rows l => l end.

(** [df.empty] *)
Definition is_empty {A} (df : DataFrame A) : bool :=
  match rows df with [] => true | _ :: _ => false end.

(** [pd.DataFrame(rows)] for a list of dicts *)
Definition mkDataFrame {A} (l : list A) : DataFrame A :=
  match l with [] => Bare | _ :: _ => Rows l end.

Definition is_bare {A} (df : DataFrame A) : bool :=
  match df with Bare => true | Rows _ => false end.

(** [pd.concat(dfs, ignore_index=True) if dfs else pd.DataFrame()] *)
Definition concat {A} (dfs : list (DataFrame A)) : DataFrame A :=
  if forallb is_bare dfs then Bare else Rows (dfs ≫= rows).

(** [df.sum()] of a numeric column *)
Definition sum (col : list Q) : Q := foldr Qplus 0 col.

(** ** Raw record sets

    The common shape of a record is
    [{metadata: {...}, attributes: {...}, stats: {key: {value, ...}}}].
    A missing [metadata], [attributes] or [stats] reads as the empty
    mapping ([entry.get("stats", {})]).  A statistic may be bound to [null]
    ([None] below), and its [value] may be missing or [null] ([None]). *)

Record stat := { value : option Q }.

Record entry := {
  metadata : gmap string string;
  attributes : gmap string string;
  stats : gmap string (option stat);
}.

Record segment := {
  type : option string;
  seg_stats : gmap string (option stat);
}.

Record overview := { segments : list segment }.

(** The nested [get_stat] of the three extractors. *)
Definition get_stat (stats : gmap string (option stat)) (key : string) : Q :=
  match stats !! key with
  | Some (Some sub) =>
      match value sub with
      | Some v => v
      | None => 0
      end
  | _ => 0
  end.

(** ** Extracted rows *)

Module OverviewRow.
Record t := {
  player : string;
  matchesPlayed : Q;
  matchesWon : Q;
  matchesLost : Q;
  winPct : Q;
  kills : Q;
  deaths : Q;
  kdRatio : Q;
}.
End OverviewRow.

Module MapRow.
Record t := {
  player : string;
  mapName : string;
  matchesPlayed : Q;
  matchesWon : Q;
  winPct : Q;
  kills : Q;
  deaths : Q;
  kdRatio : Q;
}.
End MapRow.

Module OperatorRow.
Record t := {
  player : string;
  operatorName : string;
  side : string;
  matchesPlayed : Q;
  matchesWon : Q;
  winPct : Q;
  kills : Q;
  deaths : Q;
  kdRatio : Q;
}.
End OperatorRow.

(** ** Extractors *)

(** First segment whose type is ["overview"]. *)
Definition find_overview (overview_json : overview) : option segment :=
  list_find (λ seg, type seg = Some "overview"%string) (segments overview_json)
    ≫= λ p, Some p.2.

Definition parse_overview_to_df (overview_json : overview) (player_name : string)
  : DataFrame OverviewRow.t :=
  match find_overview overview_json with
  | None => Bare
  | Some segmento_overview =>
      let stats := seg_stats segmento_overview in
      Rows [ {| OverviewRow.player := player_name;
                OverviewRow.matchesPlayed := get_stat stats "matchesPlayed";
                OverviewRow.matchesWon := get_stat stats "matchesWon";
                OverviewRow.matchesLost := get_stat stats "matchesLost";
                OverviewRow.winPct := get_stat stats "winPercentage";
                OverviewRow.kills := get_stat stats "kills";
                OverviewRow.deaths := get_stat stats "deaths";
                OverviewRow.kdRatio := get_stat stats "kdRatio" |} ]
  end.

Definition parse_map_entry (player_name : string) (e : entry) : MapRow.t :=
  let map_name :=
    default (default "Unknown"%string (attributes e !! "map"%string))
            (metadata e !! "mapName"%string) in
  {| MapRow.player := player_name;
     MapRow.mapName := map_name;
     MapRow.matchesPlayed := get_stat (stats e) "matchesPlayed";
     MapRow.matchesWon := get_stat (stats e) "matchesWon";
     MapRow.winPct := get_stat (stats e) "winPercentage";
     MapRow.kills := get_stat (stats e) "kills";
     MapRow.deaths := get_stat (stats e) "deaths";
     MapRow.kdRatio := get_stat (stats e) "kdRatio" |}.

Definition parse_maps_to_df (maps_json : list entry) (player_name : string)
  : DataFrame MapRow.t :=
  mkDataFrame (parse_map_entry player_name <$> maps_json).

(** The test of the [continue] in [parse_operators_to_df]. *)
Definition discarded (op_name : string) : bool :=
  bool_decide (op_name = ""%string) || bool_decide (lower op_name = "unknown"%string).

Definition parse_operator_entry (player_name : string) (e : entry)
  : option OperatorRow.t :=
  let op_name :=
    strip (default (default ""%string (attributes e !! "operator"%string))
                   (metadata e !! "operatorName"%string)) in
  let side := default "all"%string (attributes e !! "side"%string) in
  if discarded op_name then None
  else Some {| OperatorRow.player := player_name;
               OperatorRow.operatorName := op_name;
               OperatorRow.side := side;
               OperatorRow.matchesPlayed := get_stat (stats e) "matchesPlayed";
               OperatorRow.matchesWon := get_stat (stats e) "matchesWon";
               OperatorRow.winPct := get_stat (stats e) "winPercentage";
               OperatorRow.kills := get_stat (stats e) "kills";
               OperatorRow.deaths := get_stat (stats e) "deaths";
               OperatorRow.kdRatio := get_stat (stats e) "kdRatio" |}.

Definition parse_operators_to_df (ops_json : list entry) (player_name : string)
  : DataFrame OperatorRow.t :=
  mkDataFrame (omap (parse_operator_entry player_name) ops_json).

(** ** Grouping and sorting *)

(** [df.sort_values(col, ascending=...)]: the rows ordered by a numeric
    column.  pandas leaves the order of rows with equal values open; nothing
    below depends on it. *)
Definition by_col {A} (col : A → Q) (ascending : bool) : relation A :=
  λ a b, if ascending then col a <= col b else col b <= col a.

#[global] Instance by_col_dec {A} (col : A → Q) (ascending : bool) :
  RelDecision (by_col col ascending).
Proof. intros a b. unfold by_col. destruct ascending; apply _. Defined.

Definition sort_values {A} (col : A → Q) (ascending : bool) (df : list A) : list A :=
  merge_sort (by_col col ascending) df.

(** Tuples of group keys compare lexicographically. *)
Definition lex_le {A B} (leA : relation A) (leB : relation B) : relation (A * B) :=
  λ x y, (x.1 ≠ y.1 ∧ leA x.1 y.1) ∨ (x.1 = y.1 ∧ leB x.2 y.2).

#[global] Instance lex_le_dec {A B} `{EqDecision A} (leA : relation A) (leB : relation B)
  `{!RelDecision leA, !RelDecision leB} : RelDecision (lex_le leA leB).
Proof. intros x y. unfold lex_le. apply _. Defined.

(** [df.groupby(keys)]: one group per distinct key, the keys in ascending
    order, each group holding the rows of that key in their original order. *)
Definition groupby {A K} `{EqDecision K} (le : relation K) `{!RelDecision le}
    (key : A → K) (df : list A) : list (K * list A) :=
  (λ k, (k, filter (λ r, key r = k) df)) <$> merge_sort le (remove_dups (key <$> df)).

(** The four count columns that every group-by sums. *)
Class Counts (A : Type) := {
  matchesPlayed : A → Q;
  matchesWon : A → Q;
  kills : A → Q;
  deaths : A → Q;
}.

#[global] Instance MapRow_counts : Counts MapRow.t :=
  {| matchesPlayed := MapRow.matchesPlayed; matchesWon := MapRow.matchesWon;
     kills := MapRow.kills; deaths := MapRow.deaths |}.

#[global] Instance OperatorRow_counts : Counts OperatorRow.t :=
  {| matchesPlayed := OperatorRow.matchesPlayed; matchesWon := OperatorRow.matchesWon;
     kills := OperatorRow.kills; deaths := OperatorRow.deaths |}.

(** ** Aggregate rows *)

(** A row of [groupby(...).agg({... "sum"}).reset_index()] once
    [matchesLost], [winPct] and [kdRatio] have been assigned. *)
Module Agg.
Record t (K : Type) := {
  key : K;
  matchesPlayed : Q;
  matchesWon : Q;
  kills : Q;
  deaths : Q;
  matchesLost : Q;
  winPct : Q;
  kdRatio : Q;
}.
Arguments key {K} _.
Arguments matchesPlayed {K} _.
Arguments matchesWon {K} _.
Arguments kills {K} _.
Arguments deaths {K} _.
Arguments matchesLost {K} _.
Arguments winPct {K} _.
Arguments kdRatio {K} _.
End Agg.

#[global] Instance Agg_counts {K} : Counts (Agg.t K) :=
  {| matchesPlayed := Agg.matchesPlayed; matchesWon := Agg.matchesWon;
     kills := Agg.kills; deaths := Agg.deaths |}.

(** The operator aggregates carry one more column, [killsPerMatch], which is
    blank ([pd.NA]) where [matchesPlayed] is 0. *)
Module OpAgg.
Record t (K : Type) := {
  agg : Agg.t K;
  killsPerMatch : option Q;
}.
Arguments agg {K} _.
Arguments killsPerMatch {K} _.
End OpAgg.

#[global] Instance OpAgg_counts {K} : Counts (OpAgg.t K) :=
  {| matchesPlayed := λ r, Agg.matchesPlayed (OpAgg.agg r);
     matchesWon := λ r, Agg.matchesWon (OpAgg.agg r);
     kills := λ r, Agg.kills (OpAgg.agg r);
     deaths := λ r, Agg.deaths (OpAgg.agg r) |}.

Module SideRow.
Record t := {
  side : string;
  matchesPlayed : Q;
  matchesWon : Q;
  matchesLost : Q;
  winPctSide : Q;
}.
End SideRow.

(** [(won / played * 100) if played > 0 else 0] *)
Definition win_pct (won played : Q) : Q :=
  if decide (0 < played) then won / played * 100 else 0.

(** [(kills / deaths) if deaths > 0 else 0] *)
Definition kd_ratio (kills deaths : Q) : Q :=
  if decide (0 < deaths) then kills / deaths else 0.

(** [kills / matchesPlayed.replace(0, pd.NA)] *)
Definition kills_per_match (kills played : Q) : option Q :=
  if decide (played == 0) then None else Some (kills / played).

(** One output row of the group-by of [main], with the derived columns. *)
Definition agg_row {A K} `{Counts A} (g : K * list A) : Agg.t K :=
  let mp := sum (matchesPlayed <$> g.2) in
  let mw := sum (matchesWon <$> g.2) in
  let k := sum (kills <$> g.2) in
  let d := sum (deaths <$> g.2) in
  {| Agg.key := g.1;
     Agg.matchesPlayed := mp; Agg.matchesWon := mw; Agg.kills := k; Agg.deaths := d;
     Agg.matchesLost := mp - mw;
     Agg.winPct := win_pct mw mp;
     Agg.kdRatio := kd_ratio k d |}.

Definition aggregate {A K} `{EqDecision K} `{Counts A} (le : relation K)
    `{!RelDecision le} (key : A → K) (df : list A) : list (Agg.t K) :=
  agg_row <$> groupby le key df.

Definition with_killsPerMatch {K} (r : Agg.t K) : OpAgg.t K :=
  {| OpAgg.agg := r;
     OpAgg.killsPerMatch := kills_per_match (Agg.kills r) (Agg.matchesPlayed r) |}.

(** ** The tables built by [main] (section 7.3 and 7.4) *)

(** What [load_player_data] returned for one player; [None] for a file that
    does not exist. *)
Record player_files := {
  overview_json : option overview;
  maps_json : option (list entry);
  ops_json : option (list entry);
}.

Definition overview_list (loaded : list (string * player_files))
  : list (DataFrame OverviewRow.t) :=
  omap (λ p, (λ j, parse_overview_to_df j p.1) <$> overview_json p.2) loaded.

Definition maps_list (loaded : list (string * player_files))
  : list (DataFrame MapRow.t) :=
  omap (λ p, (λ j, parse_maps_to_df j p.1) <$> maps_json p.2) loaded.

Definition ops_list (loaded : list (string * player_files))
  : list (DataFrame OperatorRow.t) :=
  omap (λ p, (λ j, parse_operators_to_df j p.1) <$> ops_json p.2) loaded.

Definition overview_raw_by_player (loaded : list (string * player_files))
  : list (string * overview) :=
  omap (λ p, (λ j, (p.1, j)) <$> overview_json p.2) loaded.

Definition overview_df loaded := concat (overview_list loaded).
Definition maps_df loaded := concat (maps_list loaded).
Definition ops_df loaded := concat (ops_list loaded).

(** 7.4.1: the one-row team overview. *)
Definition team_overview (overview_df : DataFrame OverviewRow.t)
  : DataFrame OverviewRow.t :=
  if is_empty overview_df then Bare
  else
    let l := rows overview_df in
    let mp := sum (OverviewRow.matchesPlayed <$> l) in
    let mw := sum (OverviewRow.matchesWon <$> l) in
    let k := sum (OverviewRow.kills <$> l) in
    let d := sum (OverviewRow.deaths <$> l) in
    Rows [ {| OverviewRow.player := "Equipe";
              OverviewRow.matchesPlayed := mp;
              OverviewRow.matchesWon := mw;
              OverviewRow.matchesLost := sum (OverviewRow.matchesLost <$> l);
              OverviewRow.winPct := win_pct mw mp;
              OverviewRow.kills := k;
              OverviewRow.deaths := d;
              OverviewRow.kdRatio := kd_ratio k d |} ].

(** 7.4.2: maps grouped by [mapName]. *)
Definition maps_agg (maps_df : DataFrame MapRow.t) : DataFrame (Agg.t string) :=
  if is_empty maps_df then Bare
  else Rows (aggregate String.le MapRow.mapName (rows maps_df)).

Definition team_key (r : OperatorRow.t) : string * string :=
  (OperatorRow.operatorName r, OperatorRow.side r).

Definition player_key (r : OperatorRow.t) : string * string * string :=
  (OperatorRow.player r, OperatorRow.operatorName r, OperatorRow.side r).

(** 7.4.3: operators grouped by [operatorName, side] ... *)
Definition ops_agg_team (ops_df : DataFrame OperatorRow.t)
  : DataFrame (OpAgg.t (string * string)) :=
  if is_empty ops_df then Bare
  else Rows (with_killsPerMatch <$>
               aggregate (lex_le String.le String.le) team_key (rows ops_df)).

(** ... and by [player, operatorName, side]. *)
Definition ops_agg_player (ops_df : DataFrame OperatorRow.t)
  : DataFrame (OpAgg.t (string * string * string)) :=
  if is_empty ops_df then Bare
  else Rows (with_killsPerMatch <$>
               aggregate (lex_le (lex_le String.le String.le) String.le)
                         player_key (rows ops_df)).

Definition df_overview_equipe loaded := team_overview (overview_df loaded).
Definition maps_df_agg loaded := maps_agg (maps_df loaded).
Definition ops_df_agg_team loaded := ops_agg_team (ops_df loaded).
Definition ops_df_agg_player loaded := ops_agg_player (ops_df loaded).

(** Column readers of the aggregate tables. *)
Definition mapName (r : Agg.t string) : string := Agg.key r.
Definition team_operatorName (r : OpAgg.t (string * string)) : string :=
  (Agg.key (OpAgg.agg r)).1.
Definition team_side (r : OpAgg.t (string * string)) : string :=
  (Agg.key (OpAgg.agg r)).2.
Definition player (r : OpAgg.t (string * string * string)) : string :=
  (Agg.key (OpAgg.agg r)).1.1.
Definition operatorName (r : OpAgg.t (string * string * string)) : string :=
  (Agg.key (OpAgg.agg r)).1.2.
Definition side (r : OpAgg.t (string * string * string)) : string :=
  (Agg.key (OpAgg.agg r)).2.
Definition winPct {K} (r : OpAgg.t K) : Q := Agg.winPct (OpAgg.agg r).
Definition kdRatio {K} (r : OpAgg.t K) : Q := Agg.kdRatio (OpAgg.agg r).

(** ** Ranking functions *)

Definition compute_best_worst_maps (maps_df_agg : list (Agg.t string))
    (min_map_matches : Q) : DataFrame (Agg.t string) * DataFrame (Agg.t string) :=
  let df := filter (λ r, min_map_matches <= Agg.matchesPlayed r) maps_df_agg in
  if is_empty (Rows df) then (Bare, Bare)
  else
    let melhores := sort_values Agg.winPct false df in
    let piores := sort_values Agg.winPct true df in
    (Rows melhores, Rows piores).

Definition side_row (g : string * list (OpAgg.t (string * string))) : SideRow.t :=
  let mp := sum (matchesPlayed <$> g.2) in
  let mw := sum (matchesWon <$> g.2) in
  {| SideRow.side := g.1;
     SideRow.matchesPlayed := mp;
     SideRow.matchesWon := mw;
     SideRow.matchesLost := mp - mw;
     SideRow.winPctSide := win_pct mw mp |}.

Definition compute_side_performance (ops_df_agg : list (OpAgg.t (string * string)))
  : list SideRow.t :=
  sort_values SideRow.matchesPlayed false
    (side_row <$> groupby String.le team_side ops_df_agg).

(** [sort_values] on a column with blanks: the blanks go last. *)
Definition sort_values_na {A} (col : A → option Q) (ascending : bool) (df : list A)
  : list A :=
  sort_values (λ r, default 0 (col r)) ascending (filter (λ r, is_Some (col r)) df)
    ++ filter (λ r, ¬ is_Some (col r)) df.

Definition compute_most_played_operators {K} (ops_df_agg_player : list (OpAgg.t K))
    (min_operator_matches : Q) (top_n : nat)
  : DataFrame (OpAgg.t K) * DataFrame (OpAgg.t K) * DataFrame (OpAgg.t K) :=
  let df := filter (λ r, min_operator_matches <= matchesPlayed r) ops_df_agg_player in
  if is_empty (Rows df) then (Bare, Bare, Bare)
  else
    let mais_jogados := take top_n (sort_values matchesPlayed false df) in
    let maior_win := take top_n (sort_values winPct false df) in
    let df' := (λ r, with_killsPerMatch (OpAgg.agg r)) <$> df in
    let maior_kpm := take top_n (sort_values_na OpAgg.killsPerMatch false df') in
    (Rows mais_jogados, Rows maior_win, Rows maior_kpm).

(** ** The report renderer

    [create_pdf_report] filters its tables, makes the flowables of the
    document one after the other and hands their list to the document
    library ([doc.build]).  The formatted texts are kept structured: each
    paragraph records which text it is and the rows whose fields are printed
    in it.

    The document library and the chart library are not part of the
    repository, and their calls can raise.  In particular the names of
    players, operators, maps and sides are put into the text of a paragraph
    as they are, and [Paragraph] raises [ValueError] on a text that is not
    well-formed markup (a name such as ["<Ash"]); a chart is drawn with the
    names as annotations before its [Image] is made; and [doc.build] raises
    when a flowable cannot be laid out.  The renderer is therefore
    parametrised by [flowable_error], which tells of a flowable whether
    making it raises, and what, and by [build_error], which tells the same of
    [doc.build] on the finished list. *)

Inductive exn :=
  | KeyError (column : string)
  | IndexError
  | ValueError
  | LayoutError.

Inductive result (A : Type) : Type :=
  | Raised (e : exn)
  | Ok (a : A).
Arguments Raised {A} e.
Arguments Ok {A} a.

Definition ok {A} (a : A) : result A := Ok a.
Definition raise {A} (e : exn) : result A := Raised e.

#[global] Instance result_ret : MRet result := λ A a, Ok a.
#[global] Instance result_bind : MBind result := λ A B f m,
  match m with
  | Raised e => Raised e
  | Ok a => f a
  end.

(** [df[df[column] ...]] needs the column; a table without columns raises. *)
Definition select {A} (column : string) (P : A → Prop) `{∀ r, Decision (P r)}
    (df : DataFrame A) : result (DataFrame A) :=
  match df with
  | Bare => raise (KeyError column)
  | Rows l => ok (Rows (filter P l))
  end.

(** [if column in df.columns: df = df[...]] *)
Definition select_if_present {A} (P : A → Prop) `{∀ r, Decision (P r)}
    (df : DataFrame A) : DataFrame A :=
  match df with
  | Bare => Bare
  | Rows l => Rows (filter P l)
  end.

(** [df.iloc[0]] and [df.iloc[-1]] *)
Definition iloc_first {A} (l : list A) : result A :=
  match head l with Some r => ok r | None => raise IndexError end.
Definition iloc_last {A} (l : list A) : result A :=
  match last l with Some r => ok r | None => raise IndexError end.

Inductive style := titulo | subtitulo | normal.

Inductive text :=
  | TituloGeral
  | MapasCabecalho
  | TextoMapas (melhor_mapa pior_mapa : Agg.t string)
  | LadosCabecalho
  | TextoLados (melhor_lado pior_lado : SideRow.t)
  | OperadoresCabecalho (player : string)
  | SemDadosOperadores
  | TextoOps (top_op bot_op : OpAgg.t (string * string * string))
  | MapasGraficoCabecalho
  | LadosTabelaCabecalho
  | GeraisCabecalho
  | SemDadosGerais (player : string)
  | TextoGerais (player : string) (row : OverviewRow.t).

(** [int(x)]: truncation towards zero. *)
Definition int (x : Q) : Z := (Qnum x ÷ Zpos (Qden x))%Z.

(** One body line of the side table; the side aggregate has no [kills],
    [deaths] or [kdRatio] column, so [row.get(..., 0)] yields 0 there. *)
Record side_line := {
  lado : string;
  partidas : Z;
  win : Q;
  line_kills : Z;
  line_deaths : Z;
  kd : Q;
}.

Definition side_table_line (row : SideRow.t) : side_line :=
  {| lado := SideRow.side row;
     partidas := int (SideRow.matchesPlayed row);
     win := SideRow.winPctSide row;
     line_kills := int 0;
     line_deaths := int 0;
     kd := 0 |}.

Inductive figure :=
  | OperatorScatter (player : string) (points : list (OpAgg.t (string * string * string)))
  | MapScatter (points : list (Agg.t string)).

(** A flowable; an [Image] stands for the chart drawn and the image made of
    it, a [Table] for the table made and styled. *)
Inductive element :=
  | Paragraph (t : text) (s : style)
  | Spacer (width height : Z)
  | Image (fig : figure) (width height : Z)
  | Table (data : list side_line).

Definition not_unknown (name : string) : Prop := lower name ≠ "unknown"%string.

#[global] Instance not_unknown_dec name : Decision (not_unknown name).
Proof. unfold not_unknown. apply _. Defined.

(** The tables as the renderer uses them after its section 2. *)
Definition report_ops (ops_df_agg_player : DataFrame (OpAgg.t (string * string * string)))
    (min_operator_matches : Q) : result (DataFrame (OpAgg.t (string * string * string))) :=
  select "matchesPlayed" (λ r, min_operator_matches <= matchesPlayed r)
    (select_if_present (λ r, not_unknown (operatorName r)) ops_df_agg_player).

Definition report_maps (maps_df_agg : DataFrame (Agg.t string)) (min_map_matches : Q)
  : result (DataFrame (Agg.t string)) :=
  select "matchesPlayed" (λ r, min_map_matches <= matchesPlayed r)
    (select_if_present (λ r, not_unknown (mapName r)) maps_df_agg).

Definition report_sides (sides_df_agg : DataFrame SideRow.t) : DataFrame SideRow.t :=
  select_if_present (λ r, not_unknown (SideRow.side r)) sides_df_agg.

(** Libraries that raise nothing. *)
Definition no_error {A} (_ : A) : option exn := None.

Section renderer.

Variable flowable_error : element → option exn.
Variable build_error : list element → option exn.

(** A flowable is made, to be appended to [elements]. *)
Definition flowable (el : element) : result element :=
  match flowable_error el with
  | Some e => raise e
  | None => ok el
  end.

(** Flowables made one after the other. *)
Fixpoint flowables (els : list element) : result (list element) :=
  match els with
  | [] => ok []
  | el :: rest =>
      made ← flowable el;
      more ← flowables rest;
      ok (made :: more)
  end.

(** Section 4.1: best and worst map of the team. *)
Definition map_summary (maps : DataFrame (Agg.t string)) : result (list element) :=
  if is_empty maps then ok []
  else
    let maps_sorted := sort_values Agg.winPct false (rows maps) in
    melhor_mapa ← iloc_first maps_sorted;
    pior_mapa ← iloc_last maps_sorted;
    flowables [Paragraph MapasCabecalho subtitulo;
               Paragraph (TextoMapas melhor_mapa pior_mapa) normal; Spacer 1 6].

(** Section 4.2: best and worst side of the team. *)
Definition side_summary (sides : DataFrame SideRow.t) : result (list element) :=
  if is_empty sides then ok []
  else
    let sides_sorted := sort_values SideRow.winPctSide false (rows sides) in
    melhor_lado ← iloc_first sides_sorted;
    pior_lado ← iloc_last sides_sorted;
    flowables [Paragraph LadosCabecalho subtitulo;
               Paragraph (TextoLados melhor_lado pior_lado) normal; Spacer 1 12].

(** Section 5 of the renderer, for one player: the heading is made before
    the player's rows are looked at. *)
Definition player_section (ops : list (OpAgg.t (string * string * string)))
    (p : string) : result (list element) :=
  cabecalho ← flowable (Paragraph (OperadoresCabecalho p) subtitulo);
  let df_ops_jog := filter (λ r, player r = p) ops in
  if is_empty (Rows df_ops_jog) then
    sem_dados ← flowables [Paragraph SemDadosOperadores normal; Spacer 1 8];
    ok (cabecalho :: sem_dados)
  else
    let df_ops_sorted := sort_values winPct false df_ops_jog in
    top_op ← iloc_first df_ops_sorted;
    bot_op ← iloc_last df_ops_sorted;
    insights ← flowables [Paragraph (TextoOps top_op bot_op) normal; Spacer 1 12;
                          Image (OperatorScatter p df_ops_jog) 400 240; Spacer 1 12];
    ok (cabecalho :: insights).

Fixpoint player_sections (ops : list (OpAgg.t (string * string * string)))
    (jogadores : list string) : result (list element) :=
  match jogadores with
  | [] => ok []
  | p :: rest =>
      here ← player_section ops p;
      more ← player_sections ops rest;
      ok (here ++ more)
  end.

(** Section 6: the map chart. *)
Definition map_chart (maps : DataFrame (Agg.t string)) : result (list element) :=
  if is_empty maps then ok []
  else flowables [Paragraph MapasGraficoCabecalho subtitulo;
                  Image (MapScatter (rows maps)) 500 280; Spacer 1 12].

(** Section 7: the side table. *)
Definition side_table (sides : DataFrame SideRow.t) : result (list element) :=
  if is_empty sides then ok []
  else flowables [Paragraph LadosTabelaCabecalho subtitulo;
                  Table (side_table_line <$> rows sides); Spacer 1 12].

(** Section 8 of the renderer, for one player. *)
Definition overview_section (p : string * overview) : result (list element) :=
  match rows (parse_overview_to_df p.2 p.1) with
  | [] => flowables [Paragraph (SemDadosGerais p.1) normal]
  | row :: _ => flowables [Paragraph (TextoGerais p.1 row) normal; Spacer 1 6]
  end.

Fixpoint overview_sections (overview_raw_by_player : list (string * overview))
  : result (list element) :=
  match overview_raw_by_player with
  | [] => ok []
  | p :: rest =>
      here ← overview_section p;
      more ← overview_sections rest;
      ok (here ++ more)
  end.

(** Section 9: [doc.build(elements)]. *)
Definition build (elements : list element) : result (list element) :=
  match build_error elements with
  | Some e => raise e
  | None => ok elements
  end.

Definition create_pdf_report
    (jogadores : list string)
    (overview_raw_by_player : list (string * overview))
    (maps_df_agg : DataFrame (Agg.t string))
    (ops_df_agg_player : DataFrame (OpAgg.t (string * string * string)))
    (ops_df_agg_team : DataFrame (OpAgg.t (string * string)))
    (sides_df_agg : DataFrame SideRow.t)
    (min_operator_matches min_map_matches : Q) : result (list element) :=
  (* 2) filters *)
  ops ← report_ops ops_df_agg_player min_operator_matches;
  maps ← report_maps maps_df_agg min_map_matches;
  let sides := report_sides sides_df_agg in
  (* 3) title *)
  titulo_geral ← flowables [Paragraph TituloGeral titulo; Spacer 1 12];
  (* 4) best and worst map and side *)
  mapas ← map_summary maps;
  lados ← side_summary sides;
  (* 5) operators of each player *)
  operadores ← player_sections (rows ops) jogadores;
  (* 6) map chart, 7) side table *)
  grafico ← map_chart maps;
  tabela ← side_table sides;
  (* 8) overview of each player *)
  cabecalho ← flowable (Paragraph GeraisCabecalho subtitulo);
  gerais ← overview_sections overview_raw_by_player;
  (* 9) the document *)
  build (titulo_geral ++ mapas ++ lados ++ operadores ++ grafico ++ tabela
           ++ cabecalho :: gerais).

End renderer.

(** ** Playstyles

    [extract_playstyles] walks the statistics of the overview segment in the
    order of the JSON object and reads, of each statistic whose key starts
    with ["playstyle"], its [displayName] and its [metadata.usage.value];
    [None] below stands for a missing key. *)

Record playstyle_stat := {
  displayName : option string;
  usage_value : option Q;
}.

Record playstyle_segment := {
  ps_type : option string;
  ps_stats : list (string * playstyle_stat);
}.

Definition playstyle_of (item : string * playstyle_stat) : option (string * Q) :=
  if String.prefix "playstyle" item.1
  then Some (default ""%string (displayName item.2), default 0 (usage_value item.2))
  else None.

(** [list.sort(key=lambda x: x[1], reverse=True)]: descending and stable,
    rows of equal usage keep their order. *)
Fixpoint insert_desc (x : string * Q) (l : list (string * Q)) : list (string * Q) :=
  match l with
  | [] => [x]
  | y :: l' => if decide (y.2 <= x.2) then x :: l else y :: insert_desc x l'
  end.

Definition sort_desc (l : list (string * Q)) : list (string * Q) :=
  foldr insert_desc [] l.

Definition extract_playstyles (segments : list playstyle_segment) : list (string * Q) :=
  match list_find (λ seg, ps_type seg = Some "overview"%string) segments with
  | None => []
  | Some (_, segmento_overview) =>
      sort_desc (omap playstyle_of (ps_stats segmento_overview))
  end.

(** ** The tabs of [main]

    What the dashboard shows is kept structured, as for the report: which
    message or which rows. *)

(** [df[[columns]]]: on [pd.DataFrame()] no column is found and pandas
    raises [KeyError]; the model names the first column asked for. *)
Definition columns_of {A} (first_column : string) (df : DataFrame A) : result (list A) :=
  match df with
  | Bare => raise (KeyError first_column)
  | Rows l => ok l
  end.

(** Tab 2, the maps (the tables and the rows of the bar chart). *)
Record maps_view := {
  top5_melhores : list (Agg.t string);
  top5_piores : list (Agg.t string);
  df_top10_mapa : list (Agg.t string);
  todos_melhores : list (Agg.t string);
}.

Inductive maps_tab_result :=
  | SemDadosDeMapas
  | Mapas (v : maps_view).

Definition maps_tab (maps_df_agg : DataFrame (Agg.t string)) (min_map_matches : Q)
  : result maps_tab_result :=
  if is_empty maps_df_agg then ok SemDadosDeMapas
  else
    let melhores5 := (compute_best_worst_maps (rows maps_df_agg) min_map_matches).1 in
    let piores5 := (compute_best_worst_maps (rows maps_df_agg) min_map_matches).2 in
    melhores ← columns_of "mapName" melhores5;
    piores ← columns_of "mapName" piores5;
    ok (Mapas {| top5_melhores := take 5 melhores;
                 top5_piores := take 5 piores;
                 df_top10_mapa :=
                   take 10 (sort_values Agg.matchesPlayed false (rows maps_df_agg));
                 todos_melhores := melhores |}).

(** Tab 4, the operators of one player. *)
Inductive operators_view (K : Type) :=
  | NenhumOperador
  | NenhumOperadorComMinimo
  | TopOperadores (mais_jogados maior_win maior_kpm : list (OpAgg.t K)).
Arguments NenhumOperador {K}.
Arguments NenhumOperadorComMinimo {K}.
Arguments TopOperadores {K} _ _ _.

Definition operators_tab_player (ops_df_agg_player : list (OpAgg.t (string * string * string)))
    (min_operator_matches : Q) (p : string)
  : result (operators_view (string * string * string)) :=
  let df_jogador := filter (λ r, player r = p) ops_df_agg_player in
  if is_empty (Rows df_jogador) then ok NenhumOperador
  else
    let df_filtrado := filter (λ r, min_operator_matches <= matchesPlayed r) df_jogador in
    if is_empty (Rows df_filtrado) then ok NenhumOperadorComMinimo
    else
      let tops := compute_most_played_operators df_jogador min_operator_matches 10 in
      mais_jogados ← columns_of "operatorName" tops.1.1;
      maior_win ← columns_of "operatorName" tops.1.2;
      maior_kpm ← columns_of "operatorName" tops.2;
      ok (TopOperadores mais_jogados maior_win maior_kpm).

(** Tab 5, section 5.5.1: the best map of the team. *)
Inductive map_insight :=
  | NenhumDadoDeMapa
  | NenhumMapaComMinimo
  | MelhorMapa (melhor_mapa : Agg.t string) (top5 : list (Agg.t string))
               (scatter : list (Agg.t string)).

Definition best_map_insight (maps_df_agg : DataFrame (Agg.t string)) (min_map_matches : Q)
  : result map_insight :=
  if is_empty maps_df_agg then ok NenhumDadoDeMapa
  else
    df_maps_filtrado ←
      select "matchesPlayed" (λ r, min_map_matches <= matchesPlayed r) maps_df_agg;
    if is_empty df_maps_filtrado then ok NenhumMapaComMinimo
    else
      let ordenado := sort_values Agg.winPct false (rows df_maps_filtrado) in
      melhor_mapa ← iloc_first ordenado;
      ok (MelhorMapa melhor_mapa (take 5 ordenado) (rows df_maps_filtrado)).

(** Tab 5, section 5.5.2: the best side of the team. *)
Inductive side_insight :=
  | NenhumDadoDeOperador
  | NenhumDadoDeLado
  | MelhorLado (best_side_row : SideRow.t) (side_perf_team : list SideRow.t).

Definition best_side_insight (ops_df_agg_team : DataFrame (OpAgg.t (string * string)))
  : result side_insight :=
  if is_empty ops_df_agg_team then ok NenhumDadoDeOperador
  else
    let side_perf_team := compute_side_performance (rows ops_df_agg_team) in
    if is_empty (Rows side_perf_team) then ok NenhumDadoDeLado
    else
      best_side_row ←
        iloc_first (sort_values SideRow.winPctSide false
                      (filter (λ r, 0 < SideRow.matchesPlayed r) side_perf_team));
      ok (MelhorLado best_side_row side_perf_team).

(** Tab 5, section 5.5.3: the best operator of one player on each side.
    Of each pick the rows keep the side looked for and the operator row;
    the rounding of the figures is left to the display. *)
Definition best_operator_on (df_jogador_filtrado : list (OpAgg.t (string * string * string)))
    (lado : string) : result (list (string * OpAgg.t (string * string * string))) :=
  let df_lado := filter (λ r, side r = lado) df_jogador_filtrado in
  if is_empty (Rows df_lado) then ok []
  else
    melhor_op ← iloc_first (sort_values winPct false df_lado);
    ok [(lado, melhor_op)].

Inductive operator_insight :=
  | NenhumOperadorDoJogador
  | NenhumOperadorNosLados
  | MelhoresOps (melhores_ops : list (string * OpAgg.t (string * string * string))).

Definition best_operators_insight
    (ops_df_agg_player : list (OpAgg.t (string * string * string)))
    (min_operator_matches : Q) (p : string) : result operator_insight :=
  let df_jogador := filter (λ r, player r = p) ops_df_agg_player in
  let df_jogador_filtrado :=
    filter (λ r, min_operator_matches <= matchesPlayed r) df_jogador in
  if is_empty (Rows df_jogador_filtrado) then ok NenhumOperadorDoJogador
  else
    atacante ← best_operator_on df_jogador_filtrado "attacker";
    defensor ← best_operator_on df_jogador_filtrado "defender";
    let melhores_ops := atacante ++ defensor in
    if bool_decide (melhores_ops = []) then ok NenhumOperadorNosLados
    else ok (MelhoresOps melhores_ops).

(** ** Predicates, readers and sample inputs of the statements *)

(** A statistic is missing when its key is not in [stats], when the key is
    bound to [null], or when the entry has no [value] or a [null] one. *)
Definition absent_or_null (stats : gmap string (option stat)) (key : string) : Prop :=
  stats !! key = None ∨ stats !! key = Some None ∨
  ∃ sub, stats !! key = Some (Some sub) ∧ value sub = None.

(** Which statistic key feeds which column of each extracted row (the dict
    literals of the three extractors). *)
Definition overview_columns : list (string * (OverviewRow.t → Q)) :=
  [("matchesPlayed", OverviewRow.matchesPlayed); ("matchesWon", OverviewRow.matchesWon);
   ("matchesLost", OverviewRow.matchesLost); ("winPercentage", OverviewRow.winPct);
   ("kills", OverviewRow.kills); ("deaths", OverviewRow.deaths);
   ("kdRatio", OverviewRow.kdRatio)]%string.

Definition map_columns : list (string * (MapRow.t → Q)) :=
  [("matchesPlayed", MapRow.matchesPlayed); ("matchesWon", MapRow.matchesWon);
   ("winPercentage", MapRow.winPct); ("kills", MapRow.kills);
   ("deaths", MapRow.deaths); ("kdRatio", MapRow.kdRatio)]%string.

Definition operator_columns : list (string * (OperatorRow.t → Q)) :=
  [("matchesPlayed", OperatorRow.matchesPlayed); ("matchesWon", OperatorRow.matchesWon);
   ("winPercentage", OperatorRow.winPct); ("kills", OperatorRow.kills);
   ("deaths", OperatorRow.deaths); ("kdRatio", OperatorRow.kdRatio)]%string.

(** A row reads its columns from [stats], and a missing one is 0. *)
Definition reads_stats {R} (columns : list (string * (R → Q)))
    (stats : gmap string (option stat)) (row : R) : Prop :=
  Forall (λ c, c.2 row = get_stat stats c.1 ∧
               (absent_or_null stats c.1 → c.2 row = 0)) columns.

(** A name is unknown when it is empty or reads ["unknown"] in any case. *)
Definition unknown_name (name : string) : Prop :=
  name = ""%string ∨ lower name = "unknown"%string.

(** The operator rows and the map rows that a flowable shows. *)
Definition element_operators (el : element) : list (OpAgg.t (string * string * string)) :=
  match el with
  | Paragraph (TextoOps top_op bot_op) _ => [top_op; bot_op]
  | Image (OperatorScatter _ points) _ _ => points
  | _ => []
  end.

Definition element_maps (el : element) : list (Agg.t string) :=
  match el with
  | Paragraph (TextoMapas melhor_mapa pior_mapa) _ => [melhor_mapa; pior_mapa]
  | Image (MapScatter points) _ _ => points
  | _ => []
  end.

Definition shows (ops : list (OpAgg.t (string * string * string)))
    (maps : list (Agg.t string)) (el : element) : Prop :=
  Forall (λ r, r ∈ ops) (element_operators el) ∧
  Forall (λ r, r ∈ maps) (element_maps el).

#[global] Instance OverviewRow_counts : Counts OverviewRow.t :=
  {| matchesPlayed := OverviewRow.matchesPlayed; matchesWon := OverviewRow.matchesWon;
     kills := OverviewRow.kills; deaths := OverviewRow.deaths |}.

(** A statistic with a value. *)
Definition stored (q : Q) : option stat := Some {| value := Some q |}.

(** An overview whose stored [matchesLost] is not the difference of the
    other two counts (say, abandoned matches are counted apart). *)
Definition overview_10_6_3 : overview :=
  {| segments :=
       [ {| type := Some "overview"%string;
            seg_stats := {[ "matchesPlayed"%string := stored 10;
                            "matchesWon"%string := stored 6;
                            "matchesLost"%string := stored 3 ]} |} ] |}.

(** The win percentage of a row with [played] matches of which [won] were
    won: 0 when nothing was played, and within 0..100 when something was
    played and the wins lie between 0 and the matches played. *)
Definition win_pct_in_range (played won pct : Q) : Prop :=
  (played == 0 → pct = 0) ∧
  (0 < played → 0 <= won → won <= played → 0 <= pct ∧ pct <= 100).

(** A map record with more wins than matches. *)
Definition map_entry_1_2 : entry :=
  {| metadata := {[ "mapName"%string := "Bank"%string ]};
     attributes := ∅;
     stats := {[ "matchesPlayed"%string := stored 1;
                 "matchesWon"%string := stored 2 ]} |}.

Definition loaded_1_2 : list (string * player_files) :=
  [("A"%string, {| overview_json := None;
                  maps_json := Some [map_entry_1_2];
                  ops_json := None |})].

(** [x] is [formula] when the denominator is positive and 0 otherwise, in
    particular when the denominator is 0. *)
Definition zero_guarded (den formula x : Q) : Prop :=
  (0 < den → x = formula) ∧ (¬ 0 < den → x = 0) ∧ (den == 0 → x = 0).

(** [pct] and [kd] are the win percentage and the kill/death ratio of the
    summed counts of the rows [g]. *)
Definition recomputed {A} `{Counts A} (g : list A) (pct kd : Q) : Prop :=
  zero_guarded (sum (matchesPlayed <$> g))
               (sum (matchesWon <$> g) / sum (matchesPlayed <$> g) * 100) pct ∧
  zero_guarded (sum (deaths <$> g)) (sum (kills <$> g) / sum (deaths <$> g)) kd.

(** The stored ratios of an extracted row, overwritten. *)
Definition map_row_with_ratios (pct kd : Q) (r : MapRow.t) : MapRow.t :=
  {| MapRow.player := MapRow.player r; MapRow.mapName := MapRow.mapName r;
     MapRow.matchesPlayed := MapRow.matchesPlayed r;
     MapRow.matchesWon := MapRow.matchesWon r;
     MapRow.winPct := pct;
     MapRow.kills := MapRow.kills r; MapRow.deaths := MapRow.deaths r;
     MapRow.kdRatio := kd |}.

Definition operator_row_with_ratios (pct kd : Q) (r : OperatorRow.t) : OperatorRow.t :=
  {| OperatorRow.player := OperatorRow.player r;
     OperatorRow.operatorName := OperatorRow.operatorName r;
     OperatorRow.side := OperatorRow.side r;
     OperatorRow.matchesPlayed := OperatorRow.matchesPlayed r;
     OperatorRow.matchesWon := OperatorRow.matchesWon r;
     OperatorRow.winPct := pct;
     OperatorRow.kills := OperatorRow.kills r; OperatorRow.deaths := OperatorRow.deaths r;
     OperatorRow.kdRatio := kd |}.

Definition overview_row_with_ratios (pct kd : Q) (r : OverviewRow.t) : OverviewRow.t :=
  {| OverviewRow.player := OverviewRow.player r;
     OverviewRow.matchesPlayed := OverviewRow.matchesPlayed r;
     OverviewRow.matchesWon := OverviewRow.matchesWon r;
     OverviewRow.matchesLost := OverviewRow.matchesLost r;
     OverviewRow.winPct := pct;
     OverviewRow.kills := OverviewRow.kills r; OverviewRow.deaths := OverviewRow.deaths r;
     OverviewRow.kdRatio := kd |}.

Definition killsPerMatch {K} (r : OpAgg.t K) : option Q := OpAgg.killsPerMatch r.

(** [kpm] is [kills / played], and blank (not 0) when [played] is 0. *)
Definition blank_when_unplayed (played kills : Q) (kpm : option Q) : Prop :=
  (played == 0 → kpm = None) ∧ (¬ played == 0 → kpm = Some (kills / played)).

Definition same_totals {A B} `{Counts A} `{Counts B} (l : list A) (l' : list B) : Prop :=
  sum (matchesPlayed <$> l) == sum (matchesPlayed <$> l') ∧
  sum (matchesWon <$> l) == sum (matchesWon <$> l') ∧
  sum (kills <$> l) == sum (kills <$> l') ∧
  sum (deaths <$> l) == sum (deaths <$> l').

(** The two "no data" lines of the report. *)
Definition is_no_data_line (el : element) : bool :=
  match el with
  | Paragraph SemDadosOperadores _ => true
  | Paragraph (SemDadosGerais _) _ => true
  | _ => false
  end.

(** The flowables of the map sections (4.1 and 6) ... *)
Definition is_map_element (el : element) : bool :=
  match el with
  | Paragraph MapasCabecalho _ => true
  | Paragraph (TextoMapas _ _) _ => true
  | Paragraph MapasGraficoCabecalho _ => true
  | Image (MapScatter _) _ _ => true
  | _ => false
  end.

(** ... and of the side sections (4.2 and 7). *)
Definition is_side_element (el : element) : bool :=
  match el with
  | Paragraph LadosCabecalho _ => true
  | Paragraph (TextoLados _ _) _ => true
  | Paragraph LadosTabelaCabecalho _ => true
  | Table _ => true
  | _ => false
  end.

(** What a player without eligible operators gets. *)
Definition no_operators_section (p : string) : list element :=
  [Paragraph (OperadoresCabecalho p) subtitulo;
   Paragraph SemDadosOperadores normal; Spacer 1 8].

(** One operator row of player A, above a threshold of 50. *)
Definition ash_60 : OpAgg.t (string * string * string) :=
  with_killsPerMatch
    {| Agg.key := ("A", "Ash", "attacker")%string;
       Agg.matchesPlayed := 60; Agg.matchesWon := 45; Agg.kills := 90;
       Agg.deaths := 60; Agg.matchesLost := 15; Agg.winPct := 75;
       Agg.kdRatio := 3 # 2 |}.

(** An operator row whose name is not well-formed paragraph markup, and a
    document library that raises [ValueError] on the paragraph naming an
    operator so called and accepts everything else. *)
Definition open_tag_60 : OpAgg.t (string * string * string) :=
  with_killsPerMatch
    {| Agg.key := ("A", "<Ash", "attacker")%string;
       Agg.matchesPlayed := 60; Agg.matchesWon := 45; Agg.kills := 90;
       Agg.deaths := 60; Agg.matchesLost := 15; Agg.winPct := 75;
       Agg.kdRatio := 3 # 2 |}.

Definition rejects_operator (name : string) (el : element) : option exn :=
  match el with
  | Paragraph (TextoOps top_op bot_op) _ =>
      if decide (operatorName top_op = name ∨ operatorName bot_op = name)
      then Some ValueError else None
  | _ => None
  end.

(** An operator record without any statistic. *)
Definition ash_without_stats : entry :=
  {| metadata := {[ "operatorName"%string := "Ash"%string ]};
     attributes := ∅; stats := ∅ |}.

(** An overview whose stored [matchesLost] is the difference of the other
    two counts. *)
Definition overview_10_6_4 : overview :=
  {| segments :=
       [ {| type := Some "overview"%string;
            seg_stats := {[ "matchesPlayed"%string := stored 10;
                            "matchesWon"%string := stored 6;
                            "matchesLost"%string := stored 4 ]} |} ] |}.

(** The scenario of the specification: two participants report the same
    map (respectively the same operator and side) with 40 and 60 matches
    played and 20 and 45 won. *)
Definition map_entry (name : string) (played won : Q) : entry :=
  {| metadata := {[ "mapName"%string := name ]};
     attributes := ∅;
     stats := {[ "matchesPlayed"%string := stored played;
                 "matchesWon"%string := stored won ]} |}.

Definition operator_entry (name side : string) (played won : Q) : entry :=
  {| metadata := {[ "operatorName"%string := name ]};
     attributes := {[ "side"%string := side ]};
     stats := {[ "matchesPlayed"%string := stored played;
                 "matchesWon"%string := stored won ]} |}.

Definition loaded_40_60 : list (string * player_files) :=
  [("A"%string, {| overview_json := Some overview_10_6_4;
                  maps_json := Some [map_entry "Bank" 40 20];
                  ops_json := Some [operator_entry "Ash" "attacker" 40 20;
                                    operator_entry " UNKNOWN " "attacker" 9 9] |});
   ("B"%string, {| overview_json := None;
                  maps_json := Some [map_entry "Bank" 60 45];
                  ops_json := Some [operator_entry "Ash" "attacker" 60 45] |})].

(** The player named by a heading of section 5, and by a line of section 8. *)
Definition heading_player (el : element) : option string :=
  match el with
  | Paragraph (OperadoresCabecalho p) _ => Some p
  | _ => None
  end.

Definition overview_player (el : element) : option string :=
  match el with
  | Paragraph (SemDadosGerais p) _ => Some p
  | Paragraph (TextoGerais p _) _ => Some p
  | _ => None
  end.

(** The rows of the report after its filters (section 2). *)
Definition eligible_maps (maps_rows : list (Agg.t string)) (min_map_matches : Q)
  : list (Agg.t string) :=
  filter (λ r, min_map_matches <= matchesPlayed r)
         (filter (λ r, not_unknown (mapName r)) maps_rows).

Definition eligible_ops (ops_rows : list (OpAgg.t (string * string * string)))
    (min_operator_matches : Q) : list (OpAgg.t (string * string * string)) :=
  filter (λ r, min_operator_matches <= matchesPlayed r)
         (filter (λ r, not_unknown (operatorName r)) ops_rows).

(** The name that [parse_operators_to_df] reads from a record, before the
    test that may discard it. *)
Definition op_name_of (e : entry) : string :=
  strip (default (default ""%string (attributes e !! "operator"%string))
                 (metadata e !! "operatorName"%string)).

(** [lstrip] on the list of characters of a string. *)
Fixpoint lstrip_chars (l : list ascii) : list ascii :=
  match l with
  | [] => []
  | c :: l' => if is_space c then lstrip_chars l' else l
  end.

(** No white space in front. *)
Definition clean_front (l : list ascii) : Prop :=
  match l with
  | [] => True
  | c :: _ => is_space c = false
  end.

(** The rows that a player's file contributes to a table. *)
Definition rows_of_file {J A} (parse : J → string → DataFrame A)
    (file : player_files → option J) (p : string * player_files) : list A :=
  match file p.2 with
  | Some j => rows (parse j p.1)
  | None => []
  end.

(** One player with two maps, and one with a map record that has no name. *)
Definition loaded_two_maps : list (string * player_files) :=
  [("A"%string, {| overview_json := None;
                  maps_json := Some [map_entry "Bank" 40 20; map_entry "Oregon" 20 15];
                  ops_json := None |})].

Definition loaded_nameless : list (string * player_files) :=
  [("A"%string, {| overview_json := None;
                  maps_json := Some [{| metadata := ∅; attributes := ∅;
                                        stats := {[ "matchesPlayed"%string := stored 12 ]} |}];
                  ops_json := None |})].

(** Playstyle statistics as they may stand in an overview segment. *)
Definition sample_playstyles : list playstyle_segment :=
  [ {| ps_type := Some "season"%string; ps_stats := [] |};
    {| ps_type := Some "overview"%string;
       ps_stats :=
         [("matchesPlayed", {| displayName := Some "Matches"; usage_value := None |});
          ("playstyleAttackerBreacher",
           {| displayName := Some "Breacher"; usage_value := Some 12 |});
          ("playstyleAttackerEntryFragger",
           {| displayName := Some "Entry Fragger"; usage_value := Some 30 |});
          ("playstyleDefenderAnchor",
           {| displayName := Some "Anchor"; usage_value := Some 12 |});
          ("playstyleDefenderRoamer",
           {| displayName := None; usage_value := None |})]%string |} ].

(** * Properties *)

(** ** Basic facts about tables, sums and groups *)

Lemma rows_mkDataFrame {A} (l : list A) : rows (mkDataFrame l) = l.
Proof. by destruct l. Qed.

Lemma is_empty_rows {A} (df : DataFrame A) : is_empty df = true ↔ rows df = [].
Proof. unfold is_empty. destruct (rows df); naive_solver. Qed.

Lemma rows_concat {A} (dfs : list (DataFrame A)) : rows (concat dfs) = dfs ≫= rows.
Proof.
  unfold concat. destruct (forallb is_bare dfs) eqn:Hb; [|done].
  simpl. induction dfs as [|[|l] dfs IH]; simpl in *; try done.
  by apply IH.
Qed.

Lemma elem_of_groupby {A K} `{EqDecision K} (le : relation K) `{!RelDecision le}
    (key : A → K) (df : list A) (g : K * list A) :
  g ∈ groupby le key df ↔
  g.1 ∈ key <$> df ∧ g.2 = filter (λ r, key r = g.1) df.
Proof.
  unfold groupby. rewrite list_elem_of_fmap. split.
  - intros (k & -> & Hk). simpl. split; [|done].
    rewrite merge_sort_Permutation in Hk. by apply elem_of_remove_dups.
  - destruct g as [k l]. simpl. intros [Hk ->]. exists k. split; [done|].
    rewrite merge_sort_Permutation. by apply elem_of_remove_dups.
Qed.

Lemma groupby_member {A K} `{EqDecision K} (le : relation K) `{!RelDecision le}
    (key : A → K) (df : list A) (g : K * list A) :
  g ∈ groupby le key df → ∃ r, r ∈ df ∧ key r = g.1 ∧ r ∈ g.2.
Proof.
  intros [Hk Hg]%elem_of_groupby.
  apply list_elem_of_fmap in Hk as (r & Hr & Hin). exists r. split; [done|].
  split; [done|]. rewrite Hg. by apply list_elem_of_filter.
Qed.

Lemma sum_cons (x : Q) (l : list Q) : sum (x :: l) = x + sum l.
Proof. done. Qed.

Lemma sum_app (l1 l2 : list Q) : sum (l1 ++ l2) == sum l1 + sum l2.
Proof. induction l1 as [|x l1 IH]; simpl; [ring|]. rewrite IH. ring. Qed.

Lemma sum_Permutation (l1 l2 : list Q) : l1 ≡ₚ l2 → sum l1 == sum l2.
Proof.
  induction 1 as [|x l1 l2 _ IH|x y l|l1 l2 l3 _ IH1 _ IH2]; simpl.
  - reflexivity.
  - by rewrite IH.
  - ring.
  - by rewrite IH1.
Qed.

(** Splitting a column by a test on the rows keeps its total. *)
Lemma sum_filter_split {A} (P : A → Prop) `{∀ r, Decision (P r)} (f : A → Q) (l : list A) :
  sum (f <$> l) == sum (f <$> filter P l) + sum (f <$> filter (λ r, ¬ P r) l).
Proof.
  induction l as [|x l IH]; [rewrite !filter_nil; simpl; ring|].
  rewrite !filter_cons, fmap_cons. destruct (decide (P x)) as [HP|HP].
  - rewrite decide_False by tauto. rewrite fmap_cons, !sum_cons, IH. ring.
  - rewrite decide_True by done. rewrite fmap_cons, !sum_cons, IH. ring.
Qed.

Lemma sum_nonneg (l : list Q) : Forall (λ x, 0 <= x) l → 0 <= sum l.
Proof.
  induction 1 as [|x l Hx _ IH]; [apply Qle_refl|]. rewrite sum_cons. lra.
Qed.

Lemma sum_le {A} (f g : A → Q) (l : list A) :
  Forall (λ r, f r <= g r) l → sum (f <$> l) <= sum (g <$> l).
Proof.
  induction 1 as [|x l Hx _ IH]; [apply Qle_refl|].
  rewrite !fmap_cons, !sum_cons. lra.
Qed.

(** The totals of the groups add up to the total of the table. *)
Lemma sum_groups {A K} `{EqDecision K} (key : A → K) (f : A → Q) (ks : list K) :
  NoDup ks → ∀ l : list A, Forall (λ r, key r ∈ ks) l →
  sum ((λ k, sum (f <$> filter (λ r, key r = k) l)) <$> ks) == sum (f <$> l).
Proof.
  induction 1 as [|k ks Hk Hnd IH]; intros l Hl.
  - destruct l as [|x l]; [done|]. apply Forall_cons in Hl as [Hx _].
    by apply elem_of_nil in Hx.
  - simpl. rewrite (sum_filter_split (λ r, key r = k) f l).
    apply Qplus_comp; [reflexivity|].
    rewrite <-(IH (filter (λ r, ¬ key r = k) l)).
    + assert (Hext : Forall (λ k', sum (f <$> filter (λ r, key r = k') l) =
               sum (f <$> filter (λ r, key r = k')
                                 (filter (λ r, ¬ key r = k) l))) ks).
      { apply Forall_forall. intros k' Hk'. f_equal. f_equal.
        symmetry. apply list_filter_filter_l. intros r -> ->. done. }
      clear -Hext. induction Hext as [|k' ks Heq _ IH']; simpl; [reflexivity|].
      by rewrite Heq, IH'.
    + apply Forall_forall. intros r [Hr Hin]%list_elem_of_filter.
      eapply Forall_forall in Hl; [|done].
      apply elem_of_cons in Hl as [?|?]; [done|done].
Qed.

Lemma sum_groupby {A K} `{EqDecision K} (le : relation K) `{!RelDecision le}
    (key : A → K) (f : A → Q) (df : list A) :
  sum ((λ g, sum (f <$> g.2)) <$> groupby le key df) == sum (f <$> df).
Proof.
  unfold groupby. rewrite <-list_fmap_compose.
  rewrite (sum_Permutation _ ((λ k, sum (f <$> filter (λ r, key r = k) df))
                                <$> remove_dups (key <$> df))).
  - apply sum_groups; [apply NoDup_remove_dups|].
    apply Forall_forall. intros r Hr. apply elem_of_remove_dups.
    by apply list_elem_of_fmap_2.
  - apply fmap_Permutation, merge_sort_Permutation.
Qed.

(** ** Extraction *)

Lemma get_stat_missing stats key : absent_or_null stats key → get_stat stats key = 0.
Proof.
  unfold get_stat. intros [-> | [-> | (sub & -> & ->)]]; reflexivity.
Qed.

Lemma get_stat_present stats key sub v :
  stats !! key = Some (Some sub) → value sub = Some v → get_stat stats key = v.
Proof. unfold get_stat. by intros -> ->. Qed.

Lemma find_overview_Some overview_json seg :
  find_overview overview_json = Some seg →
  seg ∈ segments overview_json ∧ type seg = Some "overview"%string.
Proof.
  unfold find_overview. intros H.
  destruct (list_find _ _) as [[i s]|] eqn:Hf; simplify_eq/=.
  apply list_find_Some in Hf as (Hi & Ht & _).
  split; [by eapply list_elem_of_lookup_2|done].
Qed.

Lemma parse_overview_rows overview_json player_name :
  rows (parse_overview_to_df overview_json player_name) =
  match find_overview overview_json with
  | None => []
  | Some seg =>
      [ {| OverviewRow.player := player_name;
           OverviewRow.matchesPlayed := get_stat (seg_stats seg) "matchesPlayed";
           OverviewRow.matchesWon := get_stat (seg_stats seg) "matchesWon";
           OverviewRow.matchesLost := get_stat (seg_stats seg) "matchesLost";
           OverviewRow.winPct := get_stat (seg_stats seg) "winPercentage";
           OverviewRow.kills := get_stat (seg_stats seg) "kills";
           OverviewRow.deaths := get_stat (seg_stats seg) "deaths";
           OverviewRow.kdRatio := get_stat (seg_stats seg) "kdRatio" |} ]
  end.
Proof. unfold parse_overview_to_df. by destruct (find_overview _). Qed.

Lemma parse_operator_entry_Some player_name e row :
  parse_operator_entry player_name e = Some row →
  discarded (OperatorRow.operatorName row) = false ∧
  OperatorRow.player row = player_name ∧
  reads_stats operator_columns (stats e) row.
Proof.
  unfold parse_operator_entry. destruct (discarded _) eqn:Hd; [done|].
  intros [= <-]. simpl. split; [done|]. split; [done|].
  unfold reads_stats, operator_columns.
  repeat (apply Forall_cons; split; [split; [done|apply get_stat_missing]|]).
  constructor.
Qed.

(** C8. In each of the three extractors (overview, map, operator), a column
    of an extracted row holds 0 whenever its statistic key is absent from
    the record's [stats] mapping or carries no value (a [null] entry, or a
    missing or [null] [value]). *)
Theorem missing_statistic_reads_zero :
  (∀ overview_json player_name,
     Forall (λ row, ∃ seg, find_overview overview_json = Some seg ∧
                           reads_stats overview_columns (seg_stats seg) row)
            (rows (parse_overview_to_df overview_json player_name))) ∧
  (∀ maps_json player_name,
     Forall2 (λ e row, reads_stats map_columns (stats e) row)
             maps_json (rows (parse_maps_to_df maps_json player_name))) ∧
  (∀ ops_json player_name,
     Forall (λ row, ∃ e, e ∈ ops_json ∧
                         parse_operator_entry player_name e = Some row ∧
                         reads_stats operator_columns (stats e) row)
            (rows (parse_operators_to_df ops_json player_name))).
Proof.
  split; [|split].
  - intros overview_json player_name. rewrite parse_overview_rows.
    destruct (find_overview overview_json) as [seg|]; [|constructor].
    apply Forall_singleton. exists seg. split; [done|].
    unfold reads_stats, overview_columns.
    repeat (apply Forall_cons; split; [split; [done|apply get_stat_missing]|]).
    constructor.
  - intros maps_json player_name. unfold parse_maps_to_df.
    rewrite rows_mkDataFrame. apply Forall2_fmap_r, Forall_Forall2_diag.
    apply Forall_forall. intros e _. unfold reads_stats, map_columns.
    repeat (apply Forall_cons; split; [split; [done|apply get_stat_missing]|]).
    constructor.
  - intros ops_json player_name. unfold parse_operators_to_df.
    rewrite rows_mkDataFrame. apply Forall_forall. intros row Hrow.
    apply list_elem_of_omap in Hrow as (e & He & Hparse).
    exists e. split; [done|]. split; [done|].
    by apply parse_operator_entry_Some in Hparse as (_ & _ & ?).
Qed.

(** ** Unknown operator names *)

Lemma discarded_false name : discarded name = false ↔ ¬ unknown_name name.
Proof.
  unfold discarded, unknown_name.
  rewrite orb_false_iff, !bool_decide_eq_false. tauto.
Qed.

Lemma parse_operators_known ops_json player_name :
  Forall (λ r, ¬ unknown_name (OperatorRow.operatorName r))
         (rows (parse_operators_to_df ops_json player_name)).
Proof.
  unfold parse_operators_to_df. rewrite rows_mkDataFrame.
  apply Forall_forall. intros row (e & _ & Hparse)%list_elem_of_omap.
  apply parse_operator_entry_Some in Hparse as (Hd & _). by apply discarded_false.
Qed.

Lemma ops_df_known loaded :
  Forall (λ r, ¬ unknown_name (OperatorRow.operatorName r)) (rows (ops_df loaded)).
Proof.
  unfold ops_df. rewrite rows_concat. apply Forall_bind, Forall_forall.
  intros df ([p files] & _ & Hdf)%list_elem_of_omap. simpl in Hdf.
  destruct (ops_json files) as [j|]; simplify_eq/=.
  apply parse_operators_known.
Qed.

Lemma aggregate_key {A K} `{EqDecision K} `{Counts A} (le : relation K)
    `{!RelDecision le} (key : A → K) (df : list A) (r : Agg.t K) :
  r ∈ aggregate le key df →
  r = agg_row (Agg.key r, filter (λ x, key x = Agg.key r) df) ∧
  ∃ x, x ∈ df ∧ key x = Agg.key r.
Proof.
  unfold aggregate. intros ([k g] & -> & Hg)%list_elem_of_fmap.
  pose proof (groupby_member _ _ _ _ Hg) as (x & Hx & Hk & _).
  apply elem_of_groupby in Hg as [_ Hg]. simpl in *. subst g.
  split; [done|]. by exists x.
Qed.

Lemma rows_ops_agg_team ops_df :
  rows (ops_agg_team ops_df) =
  with_killsPerMatch <$> aggregate (lex_le String.le String.le) team_key (rows ops_df).
Proof.
  unfold ops_agg_team. destruct (is_empty ops_df) eqn:He; [|done].
  apply is_empty_rows in He. by rewrite He.
Qed.

Lemma rows_ops_agg_player ops_df :
  rows (ops_agg_player ops_df) =
  with_killsPerMatch <$>
    aggregate (lex_le (lex_le String.le String.le) String.le) player_key (rows ops_df).
Proof.
  unfold ops_agg_player. destruct (is_empty ops_df) eqn:He; [|done].
  apply is_empty_rows in He. by rewrite He.
Qed.

Lemma rows_maps_agg maps_df :
  rows (maps_agg maps_df) = aggregate String.le MapRow.mapName (rows maps_df).
Proof.
  unfold maps_agg. destruct (is_empty maps_df) eqn:He; [|done].
  apply is_empty_rows in He. by rewrite He.
Qed.

Lemma ops_agg_team_names ops_df (r : OpAgg.t (string * string)) :
  r ∈ rows (ops_agg_team ops_df) →
  ∃ x, x ∈ rows ops_df ∧ OperatorRow.operatorName x = team_operatorName r
       ∧ OperatorRow.side x = team_side r.
Proof.
  rewrite rows_ops_agg_team. intros (a & -> & Ha)%list_elem_of_fmap.
  apply aggregate_key in Ha as (_ & x & Hx & Hk). exists x. split; [done|].
  unfold team_operatorName, team_side. simpl. rewrite <-Hk. done.
Qed.

Lemma ops_agg_player_names ops_df (r : OpAgg.t (string * string * string)) :
  r ∈ rows (ops_agg_player ops_df) →
  ∃ x, x ∈ rows ops_df ∧ OperatorRow.operatorName x = operatorName r
       ∧ OperatorRow.player x = player r ∧ OperatorRow.side x = side r.
Proof.
  rewrite rows_ops_agg_player. intros (a & -> & Ha)%list_elem_of_fmap.
  apply aggregate_key in Ha as (_ & x & Hx & Hk). exists x. split; [done|].
  unfold operatorName, player, side. simpl. rewrite <-Hk. done.
Qed.

(** *** What the renderer prints *)

Lemma bind_Ok {A B} (m : result A) (f : A → result B) (b : B) :
  m ≫= f = Ok b → ∃ a, m = Ok a ∧ f a = Ok b.
Proof. destruct m as [e|a]; [done|]. intros H. by exists a. Qed.

Lemma sort_values_Permutation {A} (col : A → Q) (ascending : bool) (df : list A) :
  sort_values col ascending df ≡ₚ df.
Proof. apply merge_sort_Permutation. Qed.

Lemma iloc_first_elem {A} (l : list A) (r : A) : iloc_first l = Ok r → r ∈ l.
Proof.
  unfold iloc_first. destruct (head l) eqn:Hh; [|done].
  intros [= <-]. by apply head_Some_elem_of.
Qed.

Lemma iloc_last_elem {A} (l : list A) (r : A) : iloc_last l = Ok r → r ∈ l.
Proof.
  unfold iloc_last. destruct (last l) eqn:Hh; [|done].
  intros [= <-]. by apply last_Some_elem_of.
Qed.

Lemma iloc_first_nonempty {A} (l : list A) : l ≠ [] → ∃ r, iloc_first l = Ok r.
Proof. destruct l as [|r l]; [done|]. intros _. by exists r. Qed.

Lemma iloc_last_nonempty {A} (l : list A) : l ≠ [] → ∃ r, iloc_last l = Ok r.
Proof.
  intros [r Hr]%last_is_Some. exists r. unfold iloc_last. by rewrite Hr.
Qed.

Lemma sort_values_nonempty {A} (col : A → Q) (ascending : bool) (df : list A) :
  df ≠ [] → sort_values col ascending df ≠ [].
Proof.
  intros Hne Hs. apply Hne. apply Permutation_nil_r.
  by rewrite <-(sort_values_Permutation col ascending df), Hs.
Qed.

(** **** Flowables and the libraries *)

Lemma bind_Ok_l {A B} (a : A) (f : A → result B) : Ok a ≫= f = f a.
Proof. done. Qed.

Lemma flowable_no_error el : flowable no_error el = Ok el.
Proof. done. Qed.

Lemma flowables_no_error els : flowables no_error els = Ok els.
Proof. induction els as [|el rest IH]; [done|]. simpl. by rewrite IH. Qed.

Lemma flowables_cases fe els :
  (flowables fe els = Ok els ∧ Forall (λ el, fe el = None) els) ∨
  ∃ e el, flowables fe els = Raised e ∧ el ∈ els ∧ fe el = Some e.
Proof.
  induction els as [|el rest IH]; [left; split; [done|constructor]|].
  simpl. unfold flowable. destruct (fe el) as [e|] eqn:He.
  - right. exists e, el. split; [done|]. split; [apply list_elem_of_here|done].
  - destruct IH as [[-> Hall]|(e & el' & -> & Hin & He')].
    + left. split; [done|]. by constructor.
    + right. exists e, el'. split; [done|]. split; [by apply list_elem_of_further|done].
Qed.

Lemma flowables_Ok fe els made :
  flowables fe els = Ok made ↔ made = els ∧ Forall (λ el, fe el = None) els.
Proof.
  destruct (flowables_cases fe els) as [[H Hall]|(e & el & H & Hin & He)]; rewrite H.
  - split; [by intros [= <-]|by intros [-> _]].
  - split; [done|]. intros [_ Hall].
    apply (proj1 (Forall_forall _ _) Hall) in Hin. congruence.
Qed.

Lemma flowables_app fe els1 els2 :
  flowables fe (els1 ++ els2) =
  (made1 ← flowables fe els1; made2 ← flowables fe els2; ok (made1 ++ made2)).
Proof.
  induction els1 as [|el rest IH]; simpl.
  - by destruct (flowables fe els2).
  - destruct (flowable fe el); simpl; [done|]. rewrite IH.
    destruct (flowables fe rest); simpl; [done|]. by destruct (flowables fe els2).
Qed.

(** **** The sections when the libraries raise nothing *)

Lemma map_summary_shape maps els :
  map_summary no_error maps = Ok els →
  (rows maps = [] ∧ els = []) ∨
  ∃ melhor pior,
    iloc_first (sort_values Agg.winPct false (rows maps)) = Ok melhor ∧
    iloc_last (sort_values Agg.winPct false (rows maps)) = Ok pior ∧
    els = [Paragraph MapasCabecalho subtitulo;
           Paragraph (TextoMapas melhor pior) normal; Spacer 1 6].
Proof.
  unfold map_summary. destruct (is_empty maps) eqn:He.
  - intros [= <-]. left. by apply is_empty_rows in He.
  - intros (a & Ha & (b & Hb & [= <-])%bind_Ok)%bind_Ok. right. by exists a, b.
Qed.

Lemma side_summary_shape sides els :
  side_summary no_error sides = Ok els →
  (rows sides = [] ∧ els = []) ∨
  ∃ melhor pior,
    iloc_first (sort_values SideRow.winPctSide false (rows sides)) = Ok melhor ∧
    iloc_last (sort_values SideRow.winPctSide false (rows sides)) = Ok pior ∧
    els = [Paragraph LadosCabecalho subtitulo;
           Paragraph (TextoLados melhor pior) normal; Spacer 1 12].
Proof.
  unfold side_summary. destruct (is_empty sides) eqn:He.
  - intros [= <-]. left. by apply is_empty_rows in He.
  - intros (a & Ha & (b & Hb & [= <-])%bind_Ok)%bind_Ok. right. by exists a, b.
Qed.

Lemma player_section_shape ops p els :
  player_section no_error ops p = Ok els →
  (filter (λ r, player r = p) ops = [] ∧ els = no_operators_section p) ∨
  ∃ top_op bot_op,
    iloc_first (sort_values winPct false (filter (λ r, player r = p) ops)) = Ok top_op ∧
    iloc_last (sort_values winPct false (filter (λ r, player r = p) ops)) = Ok bot_op ∧
    els = [Paragraph (OperadoresCabecalho p) subtitulo;
           Paragraph (TextoOps top_op bot_op) normal; Spacer 1 12;
           Image (OperatorScatter p (filter (λ r, player r = p) ops)) 400 240;
           Spacer 1 12].
Proof.
  unfold player_section. rewrite flowable_no_error, bind_Ok_l.
  destruct (is_empty _) eqn:He.
  - intros [= <-]. left. apply is_empty_rows in He. by split.
  - intros (a & Ha & (b & Hb & [= <-])%bind_Ok)%bind_Ok. right. by exists a, b.
Qed.

Lemma map_chart_shape maps els :
  map_chart no_error maps = Ok els →
  (rows maps = [] ∧ els = []) ∨
  els = [Paragraph MapasGraficoCabecalho subtitulo;
         Image (MapScatter (rows maps)) 500 280; Spacer 1 12].
Proof.
  unfold map_chart. destruct (is_empty maps) eqn:He.
  - intros [= <-]. left. by apply is_empty_rows in He.
  - intros [= <-]. by right.
Qed.

Lemma side_table_shape sides els :
  side_table no_error sides = Ok els →
  (rows sides = [] ∧ els = []) ∨
  els = [Paragraph LadosTabelaCabecalho subtitulo;
         Table (side_table_line <$> rows sides); Spacer 1 12].
Proof.
  unfold side_table. destruct (is_empty sides) eqn:He.
  - intros [= <-]. left. by apply is_empty_rows in He.
  - intros [= <-]. by right.
Qed.

Lemma overview_section_shape p els :
  overview_section no_error p = Ok els →
  (rows (parse_overview_to_df p.2 p.1) = [] ∧
   els = [Paragraph (SemDadosGerais p.1) normal]) ∨
  ∃ row, head (rows (parse_overview_to_df p.2 p.1)) = Some row ∧
         els = [Paragraph (TextoGerais p.1 row) normal; Spacer 1 6].
Proof.
  unfold overview_section. destruct (rows _) as [|row rest].
  - intros [= <-]. by left.
  - intros [= <-]. right. by exists row.
Qed.

Lemma map_summary_Ok maps :
  ∃ els, map_summary no_error maps = Ok els ∧
         (is_empty maps = true → els = []) ∧
         Forall (λ el, is_no_data_line el = false ∧ is_side_element el = false) els.
Proof.
  unfold map_summary. destruct (is_empty maps) eqn:He.
  - exists []. by repeat split.
  - assert (Hne : sort_values Agg.winPct false (rows maps) ≠ []).
    { apply sort_values_nonempty. intros Hr. apply is_empty_rows in Hr. congruence. }
    destruct (iloc_first_nonempty _ Hne) as [a ->].
    destruct (iloc_last_nonempty _ Hne) as [b ->].
    eexists. split; [reflexivity|]. split; [done|]. by repeat constructor.
Qed.

Lemma side_summary_Ok sides :
  ∃ els, side_summary no_error sides = Ok els ∧
         (is_empty sides = true → els = []) ∧
         Forall (λ el, is_no_data_line el = false ∧ is_map_element el = false) els.
Proof.
  unfold side_summary. destruct (is_empty sides) eqn:He.
  - exists []. by repeat split.
  - assert (Hne : sort_values SideRow.winPctSide false (rows sides) ≠ []).
    { apply sort_values_nonempty. intros Hr. apply is_empty_rows in Hr. congruence. }
    destruct (iloc_first_nonempty _ Hne) as [a ->].
    destruct (iloc_last_nonempty _ Hne) as [b ->].
    eexists. split; [reflexivity|]. split; [done|]. by repeat constructor.
Qed.

Lemma player_section_nonempty ops p :
  is_empty (Rows (filter (λ r, player r = p) ops)) = false →
  ∃ top_op bot_op,
    iloc_first (sort_values winPct false (filter (λ r, player r = p) ops)) = Ok top_op ∧
    iloc_last (sort_values winPct false (filter (λ r, player r = p) ops)) = Ok bot_op.
Proof.
  intros He.
  assert (Hne : filter (λ r, player r = p) ops ≠ []).
  { intros Hr. rewrite Hr in He. done. }
  assert (Hs : sort_values winPct false (filter (λ r, player r = p) ops) ≠ [])
    by by apply sort_values_nonempty.
  destruct (iloc_first_nonempty _ Hs) as [a Ha].
  destruct (iloc_last_nonempty _ Hs) as [b Hb]. by exists a, b.
Qed.

Lemma player_section_Ok ops p :
  ∃ els, player_section no_error ops p = Ok els ∧
         (filter (λ r, player r = p) ops = [] → els = no_operators_section p) ∧
         Forall (λ el, is_map_element el = false ∧ is_side_element el = false) els.
Proof.
  unfold player_section. rewrite flowable_no_error, bind_Ok_l.
  destruct (is_empty _) eqn:He.
  - eexists. split; [reflexivity|]. split; [done|]. by repeat constructor.
  - destruct (player_section_nonempty ops p He) as (a & b & -> & ->).
    assert (Hne : filter (λ r, player r = p) ops ≠ []).
    { intros Hr. rewrite Hr in He. done. }
    eexists. split; [reflexivity|]. split; [done|]. by repeat constructor.
Qed.

Lemma player_sections_Ok ops jogadores :
  ∃ els, player_sections no_error ops jogadores = Ok els ∧
         (∀ p, p ∈ jogadores → filter (λ r, player r = p) ops = [] →
               ∃ before after, els = before ++ no_operators_section p ++ after) ∧
         Forall (λ el, is_map_element el = false ∧ is_side_element el = false) els.
Proof.
  induction jogadores as [|q rest (more & Hmore & Hnone & Hrest)]; simpl.
  - exists []. split; [done|]. split; [|constructor]. by intros p ?%elem_of_nil.
  - destruct (player_section_Ok ops q) as (here & -> & Hq & Hhere).
    rewrite Hmore. exists (here ++ more). split; [done|]. split.
    + intros p [->|Hp]%elem_of_cons Hp0.
      * exists [], more. by rewrite (Hq Hp0).
      * destruct (Hnone p Hp Hp0) as (before & after & ->).
        exists (here ++ before), after. by rewrite <-app_assoc.
    + by apply Forall_app.
Qed.

Lemma map_chart_Ok maps :
  ∃ els, map_chart no_error maps = Ok els ∧
         (is_empty maps = true → els = []) ∧
         Forall (λ el, is_no_data_line el = false ∧ is_side_element el = false) els.
Proof.
  unfold map_chart. destruct (is_empty maps).
  - exists []. by repeat split.
  - eexists. split; [reflexivity|]. split; [done|]. by repeat constructor.
Qed.

Lemma side_table_Ok sides :
  ∃ els, side_table no_error sides = Ok els ∧
         (is_empty sides = true → els = []) ∧
         Forall (λ el, is_no_data_line el = false ∧ is_map_element el = false) els.
Proof.
  unfold side_table. destruct (is_empty sides).
  - exists []. by repeat split.
  - eexists. split; [reflexivity|]. split; [done|]. by repeat constructor.
Qed.

Lemma overview_section_Ok p :
  ∃ els, overview_section no_error p = Ok els ∧
         (rows (parse_overview_to_df p.2 p.1) = [] →
          els = [Paragraph (SemDadosGerais p.1) normal]) ∧
         Forall (λ el, is_map_element el = false ∧ is_side_element el = false) els.
Proof.
  unfold overview_section. destruct (rows _).
  - eexists. split; [reflexivity|]. split; [done|]. by repeat constructor.
  - eexists. split; [reflexivity|]. split; [done|]. by repeat constructor.
Qed.

Lemma overview_sections_Ok overview_raw :
  ∃ els, overview_sections no_error overview_raw = Ok els ∧
         (∀ p, p ∈ overview_raw → rows (parse_overview_to_df p.2 p.1) = [] →
               Paragraph (SemDadosGerais p.1) normal ∈ els) ∧
         Forall (λ el, is_map_element el = false ∧ is_side_element el = false) els.
Proof.
  induction overview_raw as [|q rest (more & Hmore & Hnone & Hrest)]; simpl.
  - exists []. split; [done|]. split; [|constructor]. by intros p ?%elem_of_nil.
  - destruct (overview_section_Ok q) as (here & -> & Hq & Hhere).
    rewrite Hmore. exists (here ++ more). split; [done|]. split.
    + intros p [->|Hp]%elem_of_cons Hp0; apply elem_of_app.
      * left. rewrite (Hq Hp0). apply list_elem_of_here.
      * right. by apply Hnone.
    + by apply Forall_app.
Qed.

(** **** The sections with libraries that may raise *)

Lemma map_summary_flowables fe maps :
  map_summary fe maps = map_summary no_error maps ≫= flowables fe.
Proof.
  unfold map_summary. destruct (is_empty maps); [done|]. simpl.
  destruct (iloc_first _); [done|]. destruct (iloc_last _); done.
Qed.

Lemma side_summary_flowables fe sides :
  side_summary fe sides = side_summary no_error sides ≫= flowables fe.
Proof.
  unfold side_summary. destruct (is_empty sides); [done|]. simpl.
  destruct (iloc_first _); [done|]. destruct (iloc_last _); done.
Qed.

Lemma player_section_flowables fe ops p :
  player_section fe ops p = player_section no_error ops p ≫= flowables fe.
Proof.
  unfold player_section. rewrite flowable_no_error, bind_Ok_l.
  destruct (is_empty _) eqn:He; [done|].
  by destruct (player_section_nonempty ops p He) as (a & b & -> & ->).
Qed.

Lemma player_sections_flowables fe ops jogadores :
  player_sections fe ops jogadores = player_sections no_error ops jogadores ≫= flowables fe.
Proof.
  induction jogadores as [|q rest IH]; [done|]. simpl.
  rewrite IH, player_section_flowables.
  destruct (player_section_Ok ops q) as (here & -> & _).
  destruct (player_sections_Ok ops rest) as (more & -> & _).
  rewrite !bind_Ok_l. by rewrite flowables_app.
Qed.

Lemma map_chart_flowables fe maps :
  map_chart fe maps = map_chart no_error maps ≫= flowables fe.
Proof. unfold map_chart. by destruct (is_empty maps). Qed.

Lemma side_table_flowables fe sides :
  side_table fe sides = side_table no_error sides ≫= flowables fe.
Proof. unfold side_table. by destruct (is_empty sides). Qed.

Lemma overview_section_flowables fe p :
  overview_section fe p = overview_section no_error p ≫= flowables fe.
Proof. unfold overview_section. by destruct (rows _). Qed.

Lemma overview_sections_flowables fe overview_raw :
  overview_sections fe overview_raw =
  overview_sections no_error overview_raw ≫= flowables fe.
Proof.
  induction overview_raw as [|q rest IH]; [done|]. simpl.
  rewrite IH, overview_section_flowables.
  destruct (overview_section_Ok q) as (here & -> & _).
  destruct (overview_sections_Ok rest) as (more & -> & _).
  rewrite !bind_Ok_l. by rewrite flowables_app.
Qed.

(** **** The whole report *)

Lemma report_ops_Rows l min_operator_matches :
  report_ops (Rows l) min_operator_matches =
  Ok (Rows (filter (λ r, min_operator_matches <= matchesPlayed r)
                   (filter (λ r, not_unknown (operatorName r)) l))).
Proof. done. Qed.

Lemma report_maps_Rows l min_map_matches :
  report_maps (Rows l) min_map_matches =
  Ok (Rows (filter (λ r, min_map_matches <= matchesPlayed r)
                   (filter (λ r, not_unknown (mapName r)) l))).
Proof. done. Qed.

(** A table without columns stops the renderer at its threshold filters,
    before any flowable is made. *)
Lemma create_pdf_report_Bare fe be jogadores overview_raw maps_df_agg ops_df_agg_player
    ops_df_agg_team sides_df_agg min_operator_matches min_map_matches :
  maps_df_agg = Bare ∨ ops_df_agg_player = Bare →
  create_pdf_report fe be jogadores overview_raw maps_df_agg ops_df_agg_player
    ops_df_agg_team sides_df_agg min_operator_matches min_map_matches =
  Raised (KeyError "matchesPlayed").
Proof.
  intros H. destruct ops_df_agg_player as [|ops_rows]; [done|].
  destruct maps_df_agg as [|maps_rows]; [done|]. by destruct H.
Qed.

(** The report on tables that carry their columns, section by section, when
    the libraries raise nothing. *)
Lemma create_pdf_report_Rows jogadores overview_raw maps_rows ops_rows ops_df_agg_team
    sides_df_agg min_operator_matches min_map_matches :
  let ops := eligible_ops ops_rows min_operator_matches in
  let maps := eligible_maps maps_rows min_map_matches in
  let sides := report_sides sides_df_agg in
  ∃ mapas lados operadores grafico tabela gerais,
    map_summary no_error (Rows maps) = Ok mapas ∧
    side_summary no_error sides = Ok lados ∧
    player_sections no_error ops jogadores = Ok operadores ∧
    map_chart no_error (Rows maps) = Ok grafico ∧
    side_table no_error sides = Ok tabela ∧
    overview_sections no_error overview_raw = Ok gerais ∧
    create_pdf_report no_error no_error jogadores overview_raw (Rows maps_rows)
      (Rows ops_rows) ops_df_agg_team sides_df_agg min_operator_matches min_map_matches =
    Ok ([Paragraph TituloGeral titulo; Spacer 1 12] ++ mapas ++ lados ++ operadores
          ++ grafico ++ tabela ++ Paragraph GeraisCabecalho subtitulo :: gerais).
Proof.
  intros ops maps sides. unfold create_pdf_report.
  rewrite report_ops_Rows, bind_Ok_l, report_maps_Rows, bind_Ok_l.
  fold (eligible_ops ops_rows min_operator_matches).
  fold (eligible_maps maps_rows min_map_matches). fold ops. fold maps. cbv zeta.
  destruct (map_summary_Ok (Rows maps)) as (mapas & Hm & _).
  destruct (side_summary_Ok (report_sides sides_df_agg)) as (lados & Hl & _).
  destruct (player_sections_Ok ops jogadores) as (operadores & Ho & _).
  destruct (map_chart_Ok (Rows maps)) as (grafico & Hg & _).
  destruct (side_table_Ok (report_sides sides_df_agg)) as (tabela & Ht & _).
  destruct (overview_sections_Ok overview_raw) as (gerais & Hv & _).
  exists mapas, lados, operadores, grafico, tabela, gerais. fold sides in Hl, Ht |- *.
  change (rows (Rows ops)) with ops.
  rewrite flowables_no_error, bind_Ok_l, Hm, bind_Ok_l, Hl, bind_Ok_l, Ho, bind_Ok_l,
    Hg, bind_Ok_l, Ht, bind_Ok_l.
  rewrite flowable_no_error, bind_Ok_l, Hv, bind_Ok_l. done.
Qed.

(** With libraries that may raise, the renderer makes the same flowables in
    the same order, stops at the first that raises, and builds the document
    at the end. *)
Lemma create_pdf_report_flowables fe be jogadores overview_raw maps_df_agg
    ops_df_agg_player ops_df_agg_team sides_df_agg min_operator_matches min_map_matches :
  create_pdf_report fe be jogadores overview_raw maps_df_agg ops_df_agg_player
    ops_df_agg_team sides_df_agg min_operator_matches min_map_matches =
  (els ← create_pdf_report no_error no_error jogadores overview_raw maps_df_agg
           ops_df_agg_player ops_df_agg_team sides_df_agg min_operator_matches
           min_map_matches;
   made ← flowables fe els;
   build be made).
Proof.
  destruct ops_df_agg_player as [|ops_rows]; [done|].
  destruct maps_df_agg as [|maps_rows]; [done|].
  destruct (create_pdf_report_Rows jogadores overview_raw maps_rows ops_rows
              ops_df_agg_team sides_df_agg min_operator_matches min_map_matches)
    as (mapas & lados & operadores & grafico & tabela & gerais
        & Hm & Hl & Ho & Hg & Ht & Hv & ->).
  rewrite bind_Ok_l. unfold create_pdf_report.
  rewrite report_ops_Rows, bind_Ok_l, report_maps_Rows, bind_Ok_l.
  fold (eligible_ops ops_rows min_operator_matches).
  fold (eligible_maps maps_rows min_map_matches). cbv zeta.
  change (rows (Rows (eligible_ops ops_rows min_operator_matches)))
    with (eligible_ops ops_rows min_operator_matches).
  rewrite map_summary_flowables, side_summary_flowables, player_sections_flowables,
    map_chart_flowables, side_table_flowables, overview_sections_flowables.
  rewrite Hm, Hl, Ho, Hg, Ht, Hv, !bind_Ok_l.
  rewrite !flowables_app.
  change (flowables fe (Paragraph GeraisCabecalho subtitulo :: gerais))
    with (made ← flowable fe (Paragraph GeraisCabecalho subtitulo);
          more ← flowables fe gerais; ok (made :: more)).
  destruct (flowables fe [Paragraph TituloGeral titulo; Spacer 1 12]); [done|].
  rewrite !bind_Ok_l.
  destruct (flowables fe mapas); [done|]. rewrite !bind_Ok_l.
  destruct (flowables fe lados); [done|]. rewrite !bind_Ok_l.
  destruct (flowables fe operadores); [done|]. rewrite !bind_Ok_l.
  destruct (flowables fe grafico); [done|]. rewrite !bind_Ok_l.
  destruct (flowables fe tabela); [done|]. rewrite !bind_Ok_l.
  destruct (flowable fe (Paragraph GeraisCabecalho subtitulo)); [done|].
  rewrite !bind_Ok_l.
  destruct (flowables fe gerais); [done|]. by rewrite !bind_Ok_l.
Qed.

Lemma build_cases be els :
  (build be els = Ok els ∧ be els = None) ∨ ∃ e, build be els = Raised e ∧ be els = Some e.
Proof. unfold build. destruct (be els) as [e|]; [right; by exists e|by left]. Qed.

(** The report is returned exactly when it is returned with libraries that
    raise nothing and the libraries at hand accept each of its flowables and
    the build. *)
Lemma create_pdf_report_Ok fe be jogadores overview_raw maps_df_agg ops_df_agg_player
    ops_df_agg_team sides_df_agg min_operator_matches min_map_matches els :
  create_pdf_report fe be jogadores overview_raw maps_df_agg ops_df_agg_player
    ops_df_agg_team sides_df_agg min_operator_matches min_map_matches = Ok els ↔
  create_pdf_report no_error no_error jogadores overview_raw maps_df_agg
    ops_df_agg_player ops_df_agg_team sides_df_agg min_operator_matches
    min_map_matches = Ok els ∧
  Forall (λ el, fe el = None) els ∧ be els = None.
Proof.
  rewrite create_pdf_report_flowables.
  destruct (create_pdf_report no_error no_error _ _ _ _ _ _ _ _) as [e|made];
    [by split; [|intros [? _]]|].
  rewrite bind_Ok_l.
  destruct (flowables_cases fe made) as [[-> Hall]|(e & el & -> & Hin & He)].
  - rewrite bind_Ok_l.
    destruct (build_cases be made) as [[-> Hb]|(e & -> & Hb)].
    + split; [by intros [= <-]|by intros [[= <-] _]].
    + split; [done|]. intros ([= <-] & _ & ?). congruence.
  - split; [done|]. intros ([= <-] & Hall & _).
    apply (proj1 (Forall_forall _ _) Hall) in Hin. congruence.
Qed.

(** An exception of the renderer is its own [KeyError], or one that a
    library raised on a flowable of the report or on the build. *)
Lemma create_pdf_report_Raised fe be jogadores overview_raw maps_df_agg ops_df_agg_player
    ops_df_agg_team sides_df_agg min_operator_matches min_map_matches e :
  create_pdf_report fe be jogadores overview_raw maps_df_agg ops_df_agg_player
    ops_df_agg_team sides_df_agg min_operator_matches min_map_matches = Raised e →
  create_pdf_report no_error no_error jogadores overview_raw maps_df_agg
    ops_df_agg_player ops_df_agg_team sides_df_agg min_operator_matches
    min_map_matches = Raised e ∨
  ∃ els,
    create_pdf_report no_error no_error jogadores overview_raw maps_df_agg
      ops_df_agg_player ops_df_agg_team sides_df_agg min_operator_matches
      min_map_matches = Ok els ∧
    ((∃ el, el ∈ els ∧ fe el = Some e) ∨ be els = Some e).
Proof.
  rewrite create_pdf_report_flowables.
  destruct (create_pdf_report no_error no_error _ _ _ _ _ _ _ _) as [e'|made];
    [intros [= ->]; by left|].
  rewrite bind_Ok_l. intros H. right. exists made. split; [done|].
  destruct (flowables_cases fe made) as [[Hf _]|(e' & el & Hf & Hin & He)];
    rewrite Hf in H.
  - rewrite bind_Ok_l in H.
    destruct (build_cases be made) as [[Hb _]|(e' & Hb & Hbe)]; rewrite Hb in H; [done|].
    injection H as <-. by right.
  - injection H as <-. left. by exists el.
Qed.

(** **** What the flowables show *)

Lemma shows_nothing ops maps el :
  element_operators el = [] → element_maps el = [] → shows ops maps el.
Proof. unfold shows. intros -> ->. by split. Qed.

Lemma player_section_shows ops maps p els :
  player_section no_error ops p = Ok els → Forall (shows ops maps) els.
Proof.
  intros [[_ ->]|(top_op & bot_op & Htop & Hbot & ->)]%player_section_shape.
  - repeat (apply Forall_cons; split; [by apply shows_nothing|]). constructor.
  - apply iloc_first_elem in Htop. apply iloc_last_elem in Hbot.
    rewrite sort_values_Permutation in Htop, Hbot.
    apply list_elem_of_filter in Htop as [_ Htop].
    apply list_elem_of_filter in Hbot as [_ Hbot].
    repeat (apply Forall_cons; split; [try by apply shows_nothing|]);
      [| |constructor].
    + split; [|constructor]. simpl. by repeat constructor.
    + split; [|constructor]. simpl. apply Forall_forall.
      by intros r [_ ?]%list_elem_of_filter.
Qed.

Lemma player_sections_shows ops maps jogadores els :
  player_sections no_error ops jogadores = Ok els → Forall (shows ops maps) els.
Proof.
  revert els. induction jogadores as [|p rest IH]; intros els; simpl.
  - intros [= <-]. constructor.
  - intros (here & Hhere & (more & Hmore & [= <-])%bind_Ok)%bind_Ok.
    apply Forall_app. split; [by eapply player_section_shows|by apply IH].
Qed.

Lemma overview_sections_shows ops maps overview_raw els :
  overview_sections no_error overview_raw = Ok els → Forall (shows ops maps) els.
Proof.
  revert els. induction overview_raw as [|p rest IH]; intros els; simpl.
  - intros [= <-]. constructor.
  - intros (here & Hhere & (more & Hmore & [= <-])%bind_Ok)%bind_Ok.
    apply Forall_app. split; [|by apply IH].
    apply overview_section_shape in Hhere as [[_ ->]|(row & _ & ->)];
      repeat (apply Forall_cons; split; [by apply shows_nothing|]); constructor.
Qed.

Lemma report_ops_Ok ops_df_agg_player min_operator_matches df :
  report_ops ops_df_agg_player min_operator_matches = Ok df →
  ∃ l, ops_df_agg_player = Rows l ∧
       df = Rows (filter (λ r, min_operator_matches <= matchesPlayed r)
                         (filter (λ r, not_unknown (operatorName r)) l)).
Proof.
  unfold report_ops. destruct ops_df_agg_player as [|l]; [done|].
  intros [= <-]. by exists l.
Qed.

Lemma report_maps_Ok maps_df_agg min_map_matches df :
  report_maps maps_df_agg min_map_matches = Ok df →
  ∃ l, maps_df_agg = Rows l ∧
       df = Rows (filter (λ r, min_map_matches <= matchesPlayed r)
                         (filter (λ r, not_unknown (mapName r)) l)).
Proof.
  unfold report_maps. destruct maps_df_agg as [|l]; [done|].
  intros [= <-]. by exists l.
Qed.

Lemma create_pdf_report_shows fe be jogadores overview_raw maps_df_agg ops_df_agg_player
    ops_df_agg_team sides_df_agg min_operator_matches min_map_matches els :
  create_pdf_report fe be jogadores overview_raw maps_df_agg ops_df_agg_player
    ops_df_agg_team sides_df_agg min_operator_matches min_map_matches = Ok els →
  ∃ ops maps,
    report_ops ops_df_agg_player min_operator_matches = Ok ops ∧
    report_maps maps_df_agg min_map_matches = Ok maps ∧
    Forall (shows (rows ops) (rows maps)) els.
Proof.
  intros [Hels _]%create_pdf_report_Ok.
  destruct ops_df_agg_player as [|ops_rows]; [done|].
  destruct maps_df_agg as [|maps_rows]; [done|].
  destruct (create_pdf_report_Rows jogadores overview_raw maps_rows ops_rows
              ops_df_agg_team sides_df_agg min_operator_matches min_map_matches)
    as (mapas & lados & operadores & grafico & tabela & gerais
        & Hm & Hl & Ho & Hg & Ht & Hv & Hr).
  rewrite Hr in Hels. injection Hels as <-.
  eexists _, _. split; [apply report_ops_Rows|]. split; [apply report_maps_Rows|].
  change (rows (Rows ?l)) with l.
  fold (eligible_ops ops_rows min_operator_matches).
  fold (eligible_maps maps_rows min_map_matches).
  repeat (apply Forall_cons; split; [by apply shows_nothing|]).
  apply Forall_app_2; [|apply Forall_app_2; [|apply Forall_app_2;
    [|apply Forall_app_2; [|apply Forall_app_2]]]].
  - apply map_summary_shape in Hm as [[_ ->]|(melhor & pior & Hb & Hp & ->)];
      [constructor|].
    apply iloc_first_elem in Hb. apply iloc_last_elem in Hp.
    rewrite sort_values_Permutation in Hb, Hp.
    repeat (apply Forall_cons; split; [try by apply shows_nothing|]);
      [|constructor].
    split; [constructor|]. simpl. by repeat constructor.
  - apply side_summary_shape in Hl as [[_ ->]|(melhor & pior & _ & _ & ->)];
      repeat (apply Forall_cons; split; [by apply shows_nothing|]); constructor.
  - by eapply player_sections_shows.
  - apply map_chart_shape in Hg as [[_ ->]| ->]; [constructor|].
    repeat (apply Forall_cons; split; [try by apply shows_nothing|]);
      [|constructor].
    split; [constructor|]. simpl. by apply Forall_forall.
  - apply side_table_shape in Ht as [[_ ->]| ->];
      repeat (apply Forall_cons; split; [by apply shows_nothing|]); constructor.
  - apply Forall_cons; split; [by apply shows_nothing|].
    by eapply overview_sections_shows.
Qed.

(** C2. Operator extraction keeps no row whose name is empty or reads
    ["unknown"] in any case; the same holds for the concatenated operator
    table, for the per-player and the team aggregate, for the rows that the
    side aggregate sums, and for every operator row shown in the report.
    Whatever tables the renderer is given, its own filter removes the
    operator rows and the map rows named ["unknown"] (any case) before
    anything is shown. *)
Theorem unknown_operators_never_leak :
  (∀ ops_json player_name,
     Forall (λ r, ¬ unknown_name (OperatorRow.operatorName r))
            (rows (parse_operators_to_df ops_json player_name))) ∧
  (∀ loaded,
     Forall (λ r, ¬ unknown_name (OperatorRow.operatorName r)) (rows (ops_df loaded)) ∧
     Forall (λ r, ¬ unknown_name (operatorName r)) (rows (ops_df_agg_player loaded)) ∧
     Forall (λ r, ¬ unknown_name (team_operatorName r)) (rows (ops_df_agg_team loaded)) ∧
     Forall (λ s, ∃ g, s = side_row (SideRow.side s, g) ∧
                       Forall (λ r, r ∈ rows (ops_df_agg_team loaded) ∧
                                    ¬ unknown_name (team_operatorName r)) g)
            (compute_side_performance (rows (ops_df_agg_team loaded))) ∧
     ∀ flowable_error build_error jogadores overview_raw maps_df_agg sides_df_agg
       min_operator_matches min_map_matches els,
       create_pdf_report flowable_error build_error jogadores overview_raw maps_df_agg
         (ops_df_agg_player loaded) (ops_df_agg_team loaded) sides_df_agg
         min_operator_matches min_map_matches = Ok els →
       Forall (λ el, Forall (λ r, ¬ unknown_name (operatorName r))
                            (element_operators el)) els) ∧
  (∀ flowable_error build_error jogadores overview_raw maps_df_agg ops_df_agg_player
     ops_df_agg_team sides_df_agg min_operator_matches min_map_matches els,
     create_pdf_report flowable_error build_error jogadores overview_raw maps_df_agg
       ops_df_agg_player ops_df_agg_team sides_df_agg min_operator_matches
       min_map_matches = Ok els →
     ∃ ops maps,
       report_ops ops_df_agg_player min_operator_matches = Ok ops ∧
       report_maps maps_df_agg min_map_matches = Ok maps ∧
       Forall (λ r, lower (operatorName r) ≠ "unknown"%string) (rows ops) ∧
       Forall (λ r, lower (mapName r) ≠ "unknown"%string) (rows maps) ∧
       Forall (λ el,
           Forall (λ r, lower (operatorName r) ≠ "unknown"%string)
                  (element_operators el) ∧
           Forall (λ r, lower (mapName r) ≠ "unknown"%string) (element_maps el))
         els).
Proof.
  assert (Hplayer : ∀ loaded,
    Forall (λ r, ¬ unknown_name (operatorName r)) (rows (ops_df_agg_player loaded))).
  { intros loaded. apply Forall_forall. intros r Hr.
    apply ops_agg_player_names in Hr as (x & Hx & <- & _).
    revert x Hx. apply Forall_forall, ops_df_known. }
  assert (Hteam : ∀ loaded,
    Forall (λ r, ¬ unknown_name (team_operatorName r)) (rows (ops_df_agg_team loaded))).
  { intros loaded. apply Forall_forall. intros r Hr.
    apply ops_agg_team_names in Hr as (x & Hx & <- & _).
    revert x Hx. apply Forall_forall, ops_df_known. }
  split; [apply parse_operators_known|]. split.
  - intros loaded. split; [apply ops_df_known|]. split; [apply Hplayer|].
    split; [apply Hteam|]. split.
    + apply Forall_forall. intros s Hs. unfold compute_side_performance in Hs.
      rewrite sort_values_Permutation in Hs.
      apply list_elem_of_fmap in Hs as ([k g] & -> & Hg).
      exists g. split; [done|].
      apply elem_of_groupby in Hg as [_ Hg]. simpl in Hg. subst g.
      apply Forall_forall. intros r [_ Hr]%list_elem_of_filter.
      split; [done|]. revert r Hr. apply Forall_forall, Hteam.
    + intros fe be jogadores overview_raw maps_df_agg sides_df_agg mo mm els Hels.
      apply create_pdf_report_shows in Hels as (ops & maps & Hops & _ & Hshows).
      apply report_ops_Ok in Hops as (l & Hl & ->).
      eapply Forall_impl; [exact Hshows|]. intros el [Hel _]. simpl in Hel.
      eapply Forall_impl; [exact Hel|]. intros r Hr. simpl in Hr.
      apply list_elem_of_filter in Hr as [_ Hr].
      apply list_elem_of_filter in Hr as [_ Hr].
      pose proof (Hplayer loaded) as Hp. rewrite Hl in Hp. simpl in Hp.
      revert r Hr. by apply Forall_forall.
  - intros fe be jogadores overview_raw maps_df_agg ops_df_agg_player ops_df_agg_team
      sides_df_agg mo mm els Hels.
    apply create_pdf_report_shows in Hels as (ops & maps & Hops & Hmaps & Hshows).
    exists ops, maps. split; [done|]. split; [done|].
    apply report_ops_Ok in Hops as (lo & _ & ->).
    apply report_maps_Ok in Hmaps as (lm & _ & ->). simpl in *.
    assert (Ho : Forall (λ r, lower (operatorName r) ≠ "unknown"%string)
                   (filter (λ r, mo <= matchesPlayed r)
                           (filter (λ r, not_unknown (operatorName r)) lo))).
    { apply Forall_forall. intros r [_ Hr]%list_elem_of_filter.
      by apply list_elem_of_filter in Hr as [? _]. }
    assert (Hm : Forall (λ r, lower (mapName r) ≠ "unknown"%string)
                   (filter (λ r, mm <= matchesPlayed r)
                           (filter (λ r, not_unknown (mapName r)) lm))).
    { apply Forall_forall. intros r [_ Hr]%list_elem_of_filter.
      by apply list_elem_of_filter in Hr as [? _]. }
    split; [done|]. split; [done|].
    eapply Forall_impl; [exact Hshows|]. intros el [Hel1 Hel2]. split.
    + eapply Forall_impl; [exact Hel1|]. intros r Hr. simpl in Hr.
      revert r Hr. by apply Forall_forall.
    + eapply Forall_impl; [exact Hel2|]. intros r Hr. simpl in Hr.
      revert r Hr. by apply Forall_forall.
Qed.

(** ** Derived columns of the aggregates *)

Lemma win_pct_pos won played : 0 < played → win_pct won played = won / played * 100.
Proof. intros H. unfold win_pct. by rewrite decide_True. Qed.

Lemma win_pct_zero won played : ¬ 0 < played → win_pct won played = 0.
Proof. intros H. unfold win_pct. by rewrite decide_False. Qed.

Lemma kd_ratio_pos k d : 0 < d → kd_ratio k d = k / d.
Proof. intros H. unfold kd_ratio. by rewrite decide_True. Qed.

Lemma kd_ratio_zero k d : ¬ 0 < d → kd_ratio k d = 0.
Proof. intros H. unfold kd_ratio. by rewrite decide_False. Qed.

Lemma win_pct_bounds won played :
  0 < played → 0 <= won → won <= played →
  0 <= win_pct won played ∧ win_pct won played <= 100.
Proof.
  intros Hp H0 H1. rewrite win_pct_pos by done.
  assert (0 <= won / played) by (apply Qle_shift_div_l; [done|lra]).
  assert (won / played <= 1) by (apply Qle_shift_div_r; [done|lra]).
  split; lra.
Qed.

(** A row of [aggregate] in terms of the rows it was grouped from. *)
Lemma aggregate_row {A K} `{EqDecision K} `{Counts A} (le : relation K)
    `{!RelDecision le} (key : A → K) (df : list A) (r : Agg.t K) :
  r ∈ aggregate le key df →
  let g := filter (λ x, key x = Agg.key r) df in
  Agg.matchesPlayed r = sum (matchesPlayed <$> g) ∧
  Agg.matchesWon r = sum (matchesWon <$> g) ∧
  Agg.kills r = sum (kills <$> g) ∧
  Agg.deaths r = sum (deaths <$> g) ∧
  Agg.matchesLost r = Agg.matchesPlayed r - Agg.matchesWon r ∧
  Agg.winPct r = win_pct (Agg.matchesWon r) (Agg.matchesPlayed r) ∧
  Agg.kdRatio r = kd_ratio (Agg.kills r) (Agg.deaths r).
Proof.
  intros [Hr _]%aggregate_key. simpl.
  set (g := filter (λ x, key x = Agg.key r) df) in *.
  clearbody g. destruct r. simpl in *. by injection Hr as -> -> -> -> -> -> ->.
Qed.

Lemma side_performance_row ops_df_agg (s : SideRow.t) :
  s ∈ compute_side_performance ops_df_agg →
  let g := filter (λ r, team_side r = SideRow.side s) ops_df_agg in
  SideRow.matchesPlayed s = sum (matchesPlayed <$> g) ∧
  SideRow.matchesWon s = sum (matchesWon <$> g) ∧
  SideRow.matchesLost s = SideRow.matchesPlayed s - SideRow.matchesWon s ∧
  SideRow.winPctSide s = win_pct (SideRow.matchesWon s) (SideRow.matchesPlayed s).
Proof.
  unfold compute_side_performance. rewrite sort_values_Permutation.
  intros ([k g] & -> & Hg)%list_elem_of_fmap.
  apply elem_of_groupby in Hg as [_ Hg]. simpl in *. by subst g.
Qed.

Lemma rows_team_overview overview_df (team : OverviewRow.t) :
  team ∈ rows (team_overview overview_df) →
  let l := rows overview_df in
  OverviewRow.player team = "Equipe"%string ∧
  OverviewRow.matchesPlayed team = sum (OverviewRow.matchesPlayed <$> l) ∧
  OverviewRow.matchesWon team = sum (OverviewRow.matchesWon <$> l) ∧
  OverviewRow.matchesLost team = sum (OverviewRow.matchesLost <$> l) ∧
  OverviewRow.kills team = sum (OverviewRow.kills <$> l) ∧
  OverviewRow.deaths team = sum (OverviewRow.deaths <$> l) ∧
  OverviewRow.winPct team =
    win_pct (OverviewRow.matchesWon team) (OverviewRow.matchesPlayed team) ∧
  OverviewRow.kdRatio team =
    kd_ratio (OverviewRow.kills team) (OverviewRow.deaths team).
Proof.
  unfold team_overview. destruct (is_empty overview_df); simpl.
  - by intros ?%elem_of_nil.
  - by intros ->%list_elem_of_singleton.
Qed.

(** *** C1: [matchesLost] of the overview *)

(** C1, refuted as stated: the overview row takes [matchesLost] from the
    stored statistic and the team overview sums these stored values; with 10
    played, 6 won and a stored 3 lost, both show 3 and not 10 - 6. *)
Lemma overview_matchesLost_is_stored :
  ∃ row team,
    rows (parse_overview_to_df overview_10_6_3 "A") = [row] ∧
    rows (team_overview (parse_overview_to_df overview_10_6_3 "A")) = [team] ∧
    OverviewRow.matchesPlayed row = 10 ∧ OverviewRow.matchesWon row = 6 ∧
    OverviewRow.matchesLost row = 3 ∧
    ¬ OverviewRow.matchesLost row ==
        OverviewRow.matchesPlayed row - OverviewRow.matchesWon row ∧
    OverviewRow.matchesLost team == 3 ∧
    ¬ OverviewRow.matchesLost team ==
        OverviewRow.matchesPlayed team - OverviewRow.matchesWon team.
Proof.
  eexists _, _. split; [vm_compute; reflexivity|].
  split; [vm_compute; reflexivity|]. simpl.
  repeat split; try reflexivity; vm_compute; congruence.
Qed.

(** C1, amended.  The [matchesLost] of a participant's overview row is the
    stored [matchesLost] statistic (0 when missing), and the [matchesLost]
    of the team overview is the sum of these stored values over the
    participants; it equals [matchesPlayed - matchesWon] of the team when
    every participant's stored value equals that participant's
    [matchesPlayed - matchesWon]. *)
Theorem overview_matchesLost :
  (∀ overview_json player_name,
     Forall (λ row, ∃ seg, find_overview overview_json = Some seg ∧
                           OverviewRow.matchesLost row =
                             get_stat (seg_stats seg) "matchesLost")
            (rows (parse_overview_to_df overview_json player_name))) ∧
  (∀ overview_df,
     Forall (λ team,
         OverviewRow.matchesLost team =
           sum (OverviewRow.matchesLost <$> rows overview_df) ∧
         (Forall (λ r, OverviewRow.matchesLost r ==
                         OverviewRow.matchesPlayed r - OverviewRow.matchesWon r)
                 (rows overview_df) →
          OverviewRow.matchesLost team ==
            OverviewRow.matchesPlayed team - OverviewRow.matchesWon team))
       (rows (team_overview overview_df))).
Proof.
  split.
  - intros overview_json player_name. rewrite parse_overview_rows.
    destruct (find_overview overview_json) as [seg|]; [|constructor].
    apply Forall_singleton. by exists seg.
  - intros overview_df. apply Forall_forall. intros team Hteam.
    apply rows_team_overview in Hteam as (_ & Hp & Hw & Hl & _).
    split; [done|]. rewrite Hp, Hw, Hl. clear.
    induction 1 as [|r l Hr _ IH]; [reflexivity|].
    rewrite !fmap_cons, !sum_cons, Hr, IH. ring.
Qed.

(** *** C4: range of [winPct] *)

Lemma win_pct_in_range_intro played won :
  win_pct_in_range played won (win_pct won played).
Proof.
  split.
  - intros H0. apply win_pct_zero. lra.
  - apply win_pct_bounds.
Qed.

(** C4, refuted as stated: nothing bounds the wins by the matches played;
    a map with 1 match played and 2 won gets a [winPct] of 200. *)
Lemma winPct_above_100 :
  ∃ row, rows (maps_df_agg loaded_1_2) = [row] ∧
         0 < Agg.matchesPlayed row ∧ Agg.winPct row == 200 ∧
         ¬ Agg.winPct row <= 100.
Proof.
  eexists. split; [vm_compute; reflexivity|]. simpl.
  split; [done|]. split; [done|]. vm_compute. naive_solver.
Qed.

(** C4, amended.  In every aggregate table (maps, operators by team,
    operators by player, sides, team overview) [winPct] is 0 whenever
    [matchesPlayed] is 0, and lies within 0..100 whenever [matchesPlayed] is
    positive and the summed [matchesWon] lies between 0 and the summed
    [matchesPlayed]. *)
Theorem winPct_range :
  (∀ maps_df,
     Forall (λ r, win_pct_in_range (Agg.matchesPlayed r) (Agg.matchesWon r) (Agg.winPct r))
            (rows (maps_agg maps_df))) ∧
  (∀ ops_df,
     Forall (λ r, win_pct_in_range (matchesPlayed r) (matchesWon r) (winPct r))
            (rows (ops_agg_team ops_df)) ∧
     Forall (λ r, win_pct_in_range (matchesPlayed r) (matchesWon r) (winPct r))
            (rows (ops_agg_player ops_df))) ∧
  (∀ ops_df_agg,
     Forall (λ s, win_pct_in_range (SideRow.matchesPlayed s) (SideRow.matchesWon s)
                                   (SideRow.winPctSide s))
            (compute_side_performance ops_df_agg)) ∧
  (∀ overview_df,
     Forall (λ r, win_pct_in_range (OverviewRow.matchesPlayed r)
                                   (OverviewRow.matchesWon r) (OverviewRow.winPct r))
            (rows (team_overview overview_df))).
Proof.
  split; [|split; [|split]].
  - intros maps_df. rewrite rows_maps_agg. apply Forall_forall. intros r Hr.
    apply aggregate_row in Hr as (_ & _ & _ & _ & _ & -> & _).
    apply win_pct_in_range_intro.
  - intros ops_df. rewrite rows_ops_agg_team, rows_ops_agg_player.
    split; apply Forall_fmap, Forall_forall; intros r Hr;
      apply aggregate_row in Hr as (_ & _ & _ & _ & _ & Hw & _);
      unfold winPct; simpl; rewrite Hw; apply win_pct_in_range_intro.
  - intros ops_df_agg. apply Forall_forall. intros s Hs.
    apply side_performance_row in Hs as (_ & _ & _ & ->).
    apply win_pct_in_range_intro.
  - intros overview_df. apply Forall_forall. intros r Hr.
    apply rows_team_overview in Hr as (_ & _ & _ & _ & _ & _ & -> & _).
    apply win_pct_in_range_intro.
Qed.

(** The precondition of the range holds for the aggregates as soon as it
    holds for every row that is summed. *)
Lemma summed_wins_bounded {A} `{Counts A} (g : list A) :
  Forall (λ r, 0 <= matchesWon r ∧ matchesWon r <= matchesPlayed r) g →
  0 <= sum (matchesWon <$> g) ∧ sum (matchesWon <$> g) <= sum (matchesPlayed <$> g).
Proof.
  intros Hg. split.
  - apply sum_nonneg, Forall_fmap. eapply Forall_impl; [exact Hg|]. by intros r [? _].
  - apply sum_le. eapply Forall_impl; [exact Hg|]. by intros r [_ ?].
Qed.

(** *** C5: ratios are recomputed from the summed counts *)

Lemma zero_guarded_win_pct won played :
  zero_guarded played (won / played * 100) (win_pct won played).
Proof.
  split; [apply win_pct_pos|]. split; [apply win_pct_zero|].
  intros H0. apply win_pct_zero. lra.
Qed.

Lemma zero_guarded_kd_ratio k d : zero_guarded d (k / d) (kd_ratio k d).
Proof.
  split; [apply kd_ratio_pos|]. split; [apply kd_ratio_zero|].
  intros H0. apply kd_ratio_zero. lra.
Qed.

Lemma aggregate_recomputed {A K} `{EqDecision K} `{Counts A} (le : relation K)
    `{!RelDecision le} (key : A → K) (df : list A) (r : Agg.t K) :
  r ∈ aggregate le key df →
  recomputed (filter (λ x, key x = Agg.key r) df) (Agg.winPct r) (Agg.kdRatio r).
Proof.
  intros (Hp & Hw & Hk & Hd & _ & -> & ->)%aggregate_row.
  rewrite Hp, Hw, Hk, Hd.
  split; [apply zero_guarded_win_pct|apply zero_guarded_kd_ratio].
Qed.

Lemma filter_fmap {A B} (f : A → B) (P : B → Prop) `{∀ y, Decision (P y)} (l : list A) :
  filter P (f <$> l) = f <$> filter (λ x, P (f x)) l.
Proof.
  induction l as [|x l IH]; [done|].
  rewrite fmap_cons, !filter_cons. destruct (decide (P (f x))); by rewrite IH.
Qed.

(** Rewriting the rows without touching the key or the four counts leaves
    the aggregate as it was. *)
Lemma aggregate_fmap {A K} `{EqDecision K} `{Counts A} (le : relation K)
    `{!RelDecision le} (key : A → K) (f : A → A) (df : list A) :
  (∀ x, key (f x) = key x) →
  (∀ x, matchesPlayed (f x) = matchesPlayed x ∧ matchesWon (f x) = matchesWon x ∧
        kills (f x) = kills x ∧ deaths (f x) = deaths x) →
  aggregate le key (f <$> df) = aggregate le key df.
Proof.
  intros Hkey Hcounts. unfold aggregate, groupby.
  rewrite <-(list_fmap_compose f key).
  rewrite (list_fmap_ext (key ∘ f) key df) by (intros; apply Hkey).
  rewrite <-!list_fmap_compose. apply list_fmap_ext. intros _ k _. simpl.
  assert (Hcol : ∀ col : A → Q, (∀ x, col (f x) = col x) →
            col <$> filter (λ r, key r = k) (f <$> df) =
            col <$> filter (λ r, key r = k) df).
  { intros col Hcol. rewrite filter_fmap, <-list_fmap_compose.
    rewrite (list_filter_iff _ (λ r, key r = k)) by (intros x; by rewrite Hkey).
    apply list_fmap_ext. intros; apply Hcol. }
  unfold agg_row. simpl.
  rewrite !(Hcol matchesPlayed), !(Hcol matchesWon), !(Hcol kills), !(Hcol deaths);
    try done; intros x; by destruct (Hcounts x) as (? & ? & ? & ?).
Qed.

(** C5. In the map aggregate, the operator aggregates by team and by player
    and the team overview, [winPct] is the summed [matchesWon] over the
    summed [matchesPlayed] times 100 when the latter is positive and 0
    otherwise (so 0 when it is 0), and [kdRatio] is the summed [kills] over
    the summed [deaths] when the latter is positive and 0 otherwise; the
    stored per-participant [winPct] and [kdRatio] have no influence on any
    of these tables. *)
Theorem ratios_recomputed_from_sums :
  (∀ maps_df,
     Forall (λ r, recomputed (filter (λ x, MapRow.mapName x = mapName r) (rows maps_df))
                             (Agg.winPct r) (Agg.kdRatio r))
            (rows (maps_agg maps_df))) ∧
  (∀ ops_df,
     Forall (λ r, recomputed (filter (λ x, team_key x = Agg.key (OpAgg.agg r)) (rows ops_df))
                             (winPct r) (kdRatio r))
            (rows (ops_agg_team ops_df)) ∧
     Forall (λ r, recomputed (filter (λ x, player_key x = Agg.key (OpAgg.agg r)) (rows ops_df))
                             (winPct r) (kdRatio r))
            (rows (ops_agg_player ops_df))) ∧
  (∀ overview_df,
     Forall (λ r, recomputed (rows overview_df) (OverviewRow.winPct r) (OverviewRow.kdRatio r))
            (rows (team_overview overview_df))) ∧
  (∀ (pct kd : MapRow.t → Q) l,
     maps_agg (Rows ((λ r, map_row_with_ratios (pct r) (kd r) r) <$> l)) =
     maps_agg (Rows l)) ∧
  (∀ (pct kd : OperatorRow.t → Q) l,
     let l' := (λ r, operator_row_with_ratios (pct r) (kd r) r) <$> l in
     ops_agg_team (Rows l') = ops_agg_team (Rows l) ∧
     ops_agg_player (Rows l') = ops_agg_player (Rows l)) ∧
  (∀ (pct kd : OverviewRow.t → Q) l,
     team_overview (Rows ((λ r, overview_row_with_ratios (pct r) (kd r) r) <$> l)) =
     team_overview (Rows l)).
Proof.
  split; [|split; [|split; [|split; [|split]]]].
  - intros maps_df. rewrite rows_maps_agg. apply Forall_forall. intros r Hr.
    by apply aggregate_recomputed in Hr.
  - intros ops_df. rewrite rows_ops_agg_team, rows_ops_agg_player.
    split; apply Forall_fmap, Forall_forall; intros r Hr;
      by apply aggregate_recomputed in Hr.
  - intros overview_df. apply Forall_forall. intros r Hr.
    apply rows_team_overview in Hr as (_ & Hp & Hw & _ & Hk & Hd & -> & ->).
    rewrite Hp, Hw, Hk, Hd.
    split; [apply zero_guarded_win_pct|apply zero_guarded_kd_ratio].
  - intros pct kd l. unfold maps_agg.
    destruct l as [|r l]; [done|]. simpl is_empty. cbv iota. f_equal.
    by apply (aggregate_fmap String.le MapRow.mapName
                (λ r, map_row_with_ratios (pct r) (kd r) r)).
  - intros pct kd l l'. unfold ops_agg_team, ops_agg_player, l'.
    destruct l as [|r l]; [done|]. simpl is_empty. cbv iota.
    split; f_equal; f_equal.
    + by apply (aggregate_fmap _ team_key
                  (λ r, operator_row_with_ratios (pct r) (kd r) r)).
    + by apply (aggregate_fmap _ player_key
                  (λ r, operator_row_with_ratios (pct r) (kd r) r)).
  - intros pct kd l. unfold team_overview.
    set (f := λ r, overview_row_with_ratios (pct r) (kd r) r).
    assert (Hcol : ∀ col : OverviewRow.t → Q, (∀ x, col (f x) = col x) →
              col <$> (f <$> l) = col <$> l).
    { intros col Hcol. rewrite <-list_fmap_compose. apply list_fmap_ext.
      intros; apply Hcol. }
    replace (is_empty (Rows (f <$> l))) with (is_empty (Rows l)) by by destruct l.
    destruct (is_empty (Rows l)); [done|]. simpl rows.
    by rewrite !Hcol.
Qed.

(** *** C7: [killsPerMatch] is blank where nothing was played *)

Lemma kills_per_match_blank kills played :
  blank_when_unplayed played kills (kills_per_match kills played).
Proof.
  unfold blank_when_unplayed, kills_per_match.
  destruct (decide (played == 0)); split; done.
Qed.

Lemma with_killsPerMatch_blank {K} (a : Agg.t K) :
  blank_when_unplayed (matchesPlayed (with_killsPerMatch a))
    (kills (with_killsPerMatch a)) (killsPerMatch (with_killsPerMatch a)).
Proof. apply kills_per_match_blank. Qed.

Lemma sort_values_na_elem {A} (col : A → option Q) (ascending : bool) (df : list A) r :
  r ∈ sort_values_na col ascending df → r ∈ df.
Proof.
  unfold sort_values_na. rewrite elem_of_app, sort_values_Permutation.
  intros [H|H]; by apply list_elem_of_filter in H as [_ ?].
Qed.

Lemma elem_of_take_elem {A} (n : nat) (l : list A) (x : A) : x ∈ take n l → x ∈ l.
Proof. intros (i & Hi & _)%elem_of_take. by eapply list_elem_of_lookup_2. Qed.

(** C7. In the operator aggregates by team and by player, and in the
    kills-per-match ranking, [killsPerMatch] is [kills / matchesPlayed] and
    is blank, not 0, on every row with [matchesPlayed = 0]; [kdRatio], by
    contrast, is the number 0 on every aggregate row with [deaths = 0]. *)
Theorem killsPerMatch_blank_kdRatio_zero :
  (∀ ops_df,
     Forall (λ r, blank_when_unplayed (matchesPlayed r) (kills r) (killsPerMatch r) ∧
                  (deaths r == 0 → kdRatio r = 0))
            (rows (ops_agg_team ops_df)) ∧
     Forall (λ r, blank_when_unplayed (matchesPlayed r) (kills r) (killsPerMatch r) ∧
                  (deaths r == 0 → kdRatio r = 0))
            (rows (ops_agg_player ops_df))) ∧
  (∀ K (ops_df_agg_player : list (OpAgg.t K)) min_operator_matches top_n,
     Forall (λ r, blank_when_unplayed (matchesPlayed r) (kills r) (killsPerMatch r))
            (rows (compute_most_played_operators ops_df_agg_player
                     min_operator_matches top_n).2)).
Proof.
  split.
  - intros ops_df. rewrite rows_ops_agg_team, rows_ops_agg_player.
    split; apply Forall_fmap, Forall_forall; intros a Ha;
      (split; [apply with_killsPerMatch_blank|]);
      apply aggregate_row in Ha as (_ & _ & _ & _ & _ & _ & Hkd);
      intros Hd; unfold kdRatio; simpl in *; rewrite Hkd;
      apply kd_ratio_zero; lra.
  - intros K ops min_operator_matches top_n. unfold compute_most_played_operators.
    destruct (is_empty _); [constructor|]. simpl.
    apply Forall_forall. intros r Hr%elem_of_take_elem%sort_values_na_elem.
    apply list_elem_of_fmap in Hr as (r' & -> & _).
    apply with_killsPerMatch_blank.
Qed.

(** An operator record without statistics: blank [killsPerMatch], zero
    [kdRatio]. *)
Example unplayed_operator :
  let e := {| metadata := {[ "operatorName"%string := "Ash"%string ]};
              attributes := ∅; stats := ∅ |} in
  (λ r, (team_operatorName r, killsPerMatch r, kdRatio r))
    <$> rows (ops_agg_team (parse_operators_to_df [e] "A"))
  = [("Ash"%string, None, 0)].
Proof. vm_compute. reflexivity. Qed.

(** *** C9: grouping preserves the totals *)

Lemma aggregate_totals {A K} `{EqDecision K} `{Counts A} (le : relation K)
    `{!RelDecision le} (key : A → K) (df : list A) :
  same_totals (aggregate le key df) df.
Proof.
  unfold same_totals, aggregate. rewrite <-!list_fmap_compose.
  repeat split.
  - apply (sum_groupby le key matchesPlayed).
  - apply (sum_groupby le key matchesWon).
  - apply (sum_groupby le key kills).
  - apply (sum_groupby le key deaths).
Qed.

Lemma with_killsPerMatch_totals {K} (l : list (Agg.t K)) :
  same_totals (with_killsPerMatch <$> l) l.
Proof. unfold same_totals. rewrite <-!list_fmap_compose. by repeat split. Qed.

Lemma same_totals_trans {A B C} `{Counts A} `{Counts B} `{Counts C}
    (l1 : list A) (l2 : list B) (l3 : list C) :
  same_totals l1 l2 → same_totals l2 l3 → same_totals l1 l3.
Proof.
  intros (? & ? & ? & ?) (? & ? & ? & ?). repeat split; by etrans.
Qed.

(** C9. Each of [matchesPlayed], [matchesWon], [kills] and [deaths] has the
    same total over the rows of the map aggregate as over the concatenated
    map rows of the participants, and likewise for the operator aggregate
    by team (and by player) over the concatenated operator rows. *)
Theorem grouping_preserves_totals :
  (∀ maps_df, same_totals (rows (maps_agg maps_df)) (rows maps_df)) ∧
  (∀ ops_df, same_totals (rows (ops_agg_team ops_df)) (rows ops_df) ∧
             same_totals (rows (ops_agg_player ops_df)) (rows ops_df)) ∧
  (∀ loaded,
     same_totals (rows (maps_df_agg loaded)) (maps_list loaded ≫= rows) ∧
     same_totals (rows (ops_df_agg_team loaded)) (ops_list loaded ≫= rows)).
Proof.
  assert (Hmaps : ∀ maps_df, same_totals (rows (maps_agg maps_df)) (rows maps_df)).
  { intros maps_df. rewrite rows_maps_agg. apply aggregate_totals. }
  assert (Hteam : ∀ ops_df, same_totals (rows (ops_agg_team ops_df)) (rows ops_df)).
  { intros ops_df. rewrite rows_ops_agg_team.
    eapply (same_totals_trans _ (aggregate _ team_key (rows ops_df)));
      [apply with_killsPerMatch_totals|apply aggregate_totals]. }
  split; [done|]. split.
  - intros ops_df. split; [done|]. rewrite rows_ops_agg_player.
    eapply (same_totals_trans _ (aggregate _ player_key (rows ops_df)));
      [apply with_killsPerMatch_totals|apply aggregate_totals].
  - intros loaded. unfold maps_df_agg, ops_df_agg_team.
    rewrite <-!rows_concat. split; [apply Hmaps|apply Hteam].
Qed.

(** ** Ranking *)

#[global] Instance by_col_total {A} (col : A → Q) (ascending : bool) :
  Total (by_col col ascending).
Proof.
  intros a b. unfold by_col. destruct ascending;
    destruct (Qlt_le_dec (col a) (col b)) as [?%Qlt_le_weak|?]; auto.
Qed.

#[global] Instance by_col_trans {A} (col : A → Q) (ascending : bool) :
  Transitive (by_col col ascending).
Proof.
  intros a b c. unfold by_col. destruct ascending; intros; eapply Qle_trans; eauto.
Qed.

Lemma sort_values_sorted {A} (col : A → Q) (ascending : bool) (df : list A) :
  StronglySorted (by_col col ascending) (sort_values col ascending df).
Proof. apply StronglySorted_merge_sort; apply _. Qed.

Lemma rows_best_worst maps_df_agg min_map_matches :
  let df := filter (λ r, min_map_matches <= matchesPlayed r) maps_df_agg in
  rows (compute_best_worst_maps maps_df_agg min_map_matches).1
    = sort_values Agg.winPct false df ∧
  rows (compute_best_worst_maps maps_df_agg min_map_matches).2
    = sort_values Agg.winPct true df.
Proof.
  simpl. unfold compute_best_worst_maps.
  destruct (is_empty _) eqn:He; [|done].
  apply is_empty_rows in He. simpl in He. by rewrite He.
Qed.

(** C6. For every aggregated map table and threshold,
    [compute_best_worst_maps] returns two tables that each hold exactly the
    rows with [matchesPlayed >= threshold]; the first has [winPct]
    non-increasing and the second non-decreasing (for adjacent rows and for
    any two rows in order); when no row meets the threshold both tables are
    the empty table. *)
Theorem best_worst_maps_ranking :
  ∀ (maps_df_agg : list (Agg.t string)) (min_map_matches : Q),
    let eligible := filter (λ r, min_map_matches <= matchesPlayed r) maps_df_agg in
    let melhores := (compute_best_worst_maps maps_df_agg min_map_matches).1 in
    let piores := (compute_best_worst_maps maps_df_agg min_map_matches).2 in
    rows melhores ≡ₚ eligible ∧ rows piores ≡ₚ eligible ∧
    Sorted (λ a b, Agg.winPct b <= Agg.winPct a) (rows melhores) ∧
    Sorted (λ a b, Agg.winPct a <= Agg.winPct b) (rows piores) ∧
    StronglySorted (λ a b, Agg.winPct b <= Agg.winPct a) (rows melhores) ∧
    StronglySorted (λ a b, Agg.winPct a <= Agg.winPct b) (rows piores) ∧
    (eligible = [] → melhores = Bare ∧ piores = Bare ∧
                     is_empty melhores = true ∧ is_empty piores = true).
Proof.
  intros maps_df_agg min_map_matches eligible melhores piores.
  destruct (rows_best_worst maps_df_agg min_map_matches) as [Hb Hw].
  fold eligible in Hb, Hw. fold melhores in Hb. fold piores in Hw.
  rewrite Hb, Hw.
  pose proof (sort_values_sorted Agg.winPct false eligible) as Sb.
  pose proof (sort_values_sorted Agg.winPct true eligible) as Sw.
  split; [apply sort_values_Permutation|]. split; [apply sort_values_Permutation|].
  split; [by apply StronglySorted_Sorted|]. split; [by apply StronglySorted_Sorted|].
  split; [done|]. split; [done|].
  intros Hnone. unfold melhores, piores, compute_best_worst_maps.
  change (filter _ maps_df_agg) with eligible. by rewrite Hnone.
Qed.

(** C10. The two tables returned by [compute_best_worst_maps] hold the same
    rows with the same multiplicities: each is a reordering of the other
    (and both are the empty table together). *)
Theorem best_and_worst_same_rows :
  ∀ (maps_df_agg : list (Agg.t string)) (min_map_matches : Q),
    rows (compute_best_worst_maps maps_df_agg min_map_matches).1 ≡ₚ
    rows (compute_best_worst_maps maps_df_agg min_map_matches).2 ∧
    is_bare (compute_best_worst_maps maps_df_agg min_map_matches).1 =
    is_bare (compute_best_worst_maps maps_df_agg min_map_matches).2.
Proof.
  intros maps_df_agg min_map_matches.
  destruct (rows_best_worst maps_df_agg min_map_matches) as [-> ->].
  split; [by rewrite !sort_values_Permutation|].
  unfold compute_best_worst_maps. by destruct (is_empty _).
Qed.

(** The scenario of the specification: a map with 5 matches is left out of
    both rankings at threshold 10. *)
Example best_worst_scenario :
  let maps := aggregate String.le MapRow.mapName
    [ {| MapRow.player := "A"; MapRow.mapName := "Bank"; MapRow.matchesPlayed := 5;
         MapRow.matchesWon := 5; MapRow.winPct := 100; MapRow.kills := 0;
         MapRow.deaths := 0; MapRow.kdRatio := 0 |};
      {| MapRow.player := "A"; MapRow.mapName := "Oregon"; MapRow.matchesPlayed := 20;
         MapRow.matchesWon := 5; MapRow.winPct := 25; MapRow.kills := 0;
         MapRow.deaths := 0; MapRow.kdRatio := 0 |};
      {| MapRow.player := "B"; MapRow.mapName := "Clubhouse"; MapRow.matchesPlayed := 10;
         MapRow.matchesWon := 6; MapRow.winPct := 60; MapRow.kills := 0;
         MapRow.deaths := 0; MapRow.kdRatio := 0 |} ]%string in
  mapName <$> maps = ["Bank"; "Clubhouse"; "Oregon"]%string ∧
  mapName <$> rows (compute_best_worst_maps maps 10).1 = ["Clubhouse"; "Oregon"]%string ∧
  mapName <$> rows (compute_best_worst_maps maps 10).2 = ["Oregon"; "Clubhouse"]%string ∧
  compute_best_worst_maps maps 100 = (Bare, Bare).
Proof. vm_compute. repeat split. Qed.

(** ** The renderer on empty tables *)

(** C3, refuted as stated.  With an empty map table and an empty side table
    (the operator table is not empty) and libraries that raise nothing, the
    report is built, yet it contains no "no data" line at all: the map and
    side sections are left out silently; and whatever the libraries do, no
    other report is built of these tables.  With the table [pd.DataFrame()],
    which is what [main] passes when no map data was loaded, the threshold
    filter raises [KeyError], whatever the libraries do. *)
Lemma empty_map_table_counterexample :
  (∃ els,
     create_pdf_report no_error no_error ["A"%string] [("A"%string, overview_10_6_3)]
       (Rows []) (Rows [ash_60]) Bare (Rows []) 50 10 = Ok els ∧
     existsb is_no_data_line els = false ∧
     existsb is_map_element els = false ∧
     existsb is_side_element els = false ∧
     ∀ flowable_error build_error els',
       create_pdf_report flowable_error build_error ["A"%string]
         [("A"%string, overview_10_6_3)] (Rows []) (Rows [ash_60]) Bare (Rows []) 50 10
       = Ok els' →
       els' = els) ∧
  ∀ flowable_error build_error,
    create_pdf_report flowable_error build_error ["A"%string]
      [("A"%string, overview_10_6_3)] Bare (Rows [ash_60]) Bare Bare 50 10
    = Raised (KeyError "matchesPlayed").
Proof.
  split; [|done].
  destruct (create_pdf_report no_error no_error ["A"%string]
              [("A"%string, overview_10_6_3)] (Rows []) (Rows [ash_60]) Bare (Rows [])
              50 10) as [e|els] eqn:Hr; [by vm_compute in Hr|].
  exists els. split; [done|].
  split; [vm_compute in Hr; by injection Hr as <-|].
  split; [vm_compute in Hr; by injection Hr as <-|].
  split; [vm_compute in Hr; by injection Hr as <-|].
  intros fe be els' [Hels' _]%create_pdf_report_Ok. congruence.
Qed.

(** The name ["<Ash"] passes the filters of the renderer and reaches the
    text of the operator paragraph as it is; a document library that raises
    on that paragraph stops the report, after the title and the heading of
    the player were made. *)
Example markup_name_stops_the_report :
  create_pdf_report (rejects_operator "<Ash") no_error ["A"%string]
    [("A"%string, overview_10_6_4)] (Rows []) (Rows [open_tag_60]) Bare Bare 50 10
  = Raised ValueError ∧
  ∃ els,
    create_pdf_report no_error no_error ["A"%string]
      [("A"%string, overview_10_6_4)] (Rows []) (Rows [open_tag_60]) Bare Bare 50 10
    = Ok els ∧
    Paragraph (TextoOps open_tag_60 open_tag_60) normal ∈ els.
Proof.
  split; [vm_compute; reflexivity|].
  eexists. split; [vm_compute; reflexivity|].
  do 3 apply list_elem_of_further. apply list_elem_of_here.
Qed.

Lemma existsb_false {A} (f : A → bool) (l : list A) :
  existsb f l = false ↔ Forall (λ x, f x = false) l.
Proof.
  induction l as [|x l IH]; simpl; [by split; [constructor|]|].
  rewrite orb_false_iff, Forall_cons, IH. done.
Qed.

(** C3, amended.  When the map aggregate and the per-player operator
    aggregate carry their columns (with or without rows) and whatever the
    side aggregate is, no step of the renderer's own faults: the call
    returns the report, unless the document or chart library raises on one
    of the report's flowables or on the build, and that exception is then
    the outcome; when the libraries accept them all, the report is returned.
    In the report every selected player without an eligible operator row
    gets the line "Sem dados suficientes de operadores para este jogador."
    under their heading, and every player whose overview has no overview
    segment gets the line "Sem dados gerais disponíveis.".  When no map row
    is eligible the map sections are left out, and when no side row is left
    the side sections are left out, without any line in their place. *)
Theorem report_degrades_on_empty_tables :
  ∀ (flowable_error : element → option exn) (build_error : list element → option exn)
    (jogadores : list string) (overview_raw : list (string * overview))
    (maps_rows : list (Agg.t string))
    (ops_rows : list (OpAgg.t (string * string * string)))
    (ops_df_agg_team : DataFrame (OpAgg.t (string * string)))
    (sides_df_agg : DataFrame SideRow.t)
    (min_operator_matches min_map_matches : Q),
    let ops := filter (λ r, min_operator_matches <= matchesPlayed r)
                      (filter (λ r, not_unknown (operatorName r)) ops_rows) in
    let maps := filter (λ r, min_map_matches <= matchesPlayed r)
                       (filter (λ r, not_unknown (mapName r)) maps_rows) in
    let sides := rows (report_sides sides_df_agg) in
    let report :=
      create_pdf_report flowable_error build_error jogadores overview_raw
        (Rows maps_rows) (Rows ops_rows) ops_df_agg_team sides_df_agg
        min_operator_matches min_map_matches in
    ∃ els,
      (report = Ok els ∨
       ∃ e, report = Raised e ∧
            ((∃ el, el ∈ els ∧ flowable_error el = Some e) ∨ build_error els = Some e)) ∧
      (Forall (λ el, flowable_error el = None) els → build_error els = None →
       report = Ok els) ∧
      (∀ p, p ∈ jogadores → filter (λ r, player r = p) ops = [] →
            ∃ before after, els = before ++ no_operators_section p ++ after) ∧
      (∀ p, p ∈ overview_raw → rows (parse_overview_to_df p.2 p.1) = [] →
            Paragraph (SemDadosGerais p.1) normal ∈ els) ∧
      (maps = [] → existsb is_map_element els = false) ∧
      (sides = [] → existsb is_side_element els = false).
Proof.
  intros fe be jogadores overview_raw maps_rows ops_rows ops_df_agg_team sides_df_agg
    mo mm ops maps sides report.
  destruct (create_pdf_report_Rows jogadores overview_raw maps_rows ops_rows
              ops_df_agg_team sides_df_agg mo mm)
    as (mapas & lados & operadores & grafico & tabela & gerais
        & Hm & Hl & Ho & Hg & Ht & Hv & Hr).
  change (eligible_maps maps_rows mm) with maps in Hm, Hg.
  change (eligible_ops ops_rows mo) with ops in Ho.
  destruct (map_summary_Ok (Rows maps)) as (? & Hm' & Hmapas0 & Hmapas).
  rewrite Hm in Hm'. injection Hm' as <-.
  destruct (side_summary_Ok (report_sides sides_df_agg)) as (? & Hl' & Hlados0 & Hlados).
  rewrite Hl in Hl'. injection Hl' as <-.
  destruct (player_sections_Ok ops jogadores) as (? & Ho' & Hnone & Hoper).
  rewrite Ho in Ho'. injection Ho' as <-.
  destruct (map_chart_Ok (Rows maps)) as (? & Hg' & Hchart0 & Hchart).
  rewrite Hg in Hg'. injection Hg' as <-.
  destruct (side_table_Ok (report_sides sides_df_agg)) as (? & Ht' & Htable0 & Htable).
  rewrite Ht in Ht'. injection Ht' as <-.
  destruct (overview_sections_Ok overview_raw) as (? & Hv' & Hsem & Hgerais).
  rewrite Hv in Hv'. injection Hv' as <-.
  exists ([Paragraph TituloGeral titulo; Spacer 1 12] ++ mapas ++ lados ++ operadores
            ++ grafico ++ tabela ++ Paragraph GeraisCabecalho subtitulo :: gerais).
  split; [|split; [|split; [|split; [|split]]]].
  - destruct report as [e|els'] eqn:Hrep.
    + right. exists e. split; [done|].
      apply create_pdf_report_Raised in Hrep as [Hrep|(els' & Hrep & Hlib)].
      * rewrite Hr in Hrep. discriminate Hrep.
      * rewrite Hr in Hrep. injection Hrep as <-. exact Hlib.
    + left. apply create_pdf_report_Ok in Hrep as [Hrep _].
      rewrite Hr in Hrep. by injection Hrep as <-.
  - intros Hall Hbuild. by apply create_pdf_report_Ok.
  - intros p Hp Hp0. destruct (Hnone p Hp Hp0) as (before & after & ->).
    exists (Paragraph TituloGeral titulo :: Spacer 1 12 :: mapas ++ lados ++ before).
    eexists. simpl. by rewrite <-!app_assoc.
  - intros p Hp Hp0. rewrite !elem_of_app. do 6 right. apply elem_of_cons; right.
    by apply Hsem.
  - intros Hmp. apply existsb_false.
    assert (He : is_empty (Rows maps) = true) by by rewrite is_empty_rows.
    rewrite (Hmapas0 He), (Hchart0 He).
    repeat (apply Forall_cons; split; [done|]). simpl.
    repeat apply Forall_app_2; try constructor; try done.
    + eapply Forall_impl; [exact Hlados|]. by intros el [_ ?].
    + eapply Forall_impl; [exact Hoper|]. by intros el [? _].
    + eapply Forall_impl; [exact Htable|]. by intros el [_ ?].
    + eapply Forall_impl; [exact Hgerais|]. by intros el [? _].
  - intros Hs. apply existsb_false.
    assert (He : is_empty (report_sides sides_df_agg) = true) by by rewrite is_empty_rows.
    rewrite (Hlados0 He), (Htable0 He).
    repeat (apply Forall_cons; split; [done|]). simpl.
    repeat apply Forall_app_2; try constructor; try done.
    + eapply Forall_impl; [exact Hmapas|]. by intros el [_ ?].
    + eapply Forall_impl; [exact Hoper|]. by intros el [_ ?].
    + eapply Forall_impl; [exact Hchart|]. by intros el [_ ?].
    + eapply Forall_impl; [exact Hgerais|]. by intros el [_ ?].
Qed.

(** ** The statements at concrete inputs *)

(** An operator record without statistics yields a row of zeros. *)
Lemma missing_statistic_witness :
  length (rows (parse_operators_to_df [ash_without_stats] "A")) = 1%nat ∧
  Forall (λ row, OperatorRow.matchesPlayed row = 0 ∧ OperatorRow.kills row = 0)
         (rows (parse_operators_to_df [ash_without_stats] "A")).
Proof.
  split; [vm_compute; reflexivity|].
  destruct missing_statistic_reads_zero as (_ & _ & H).
  eapply Forall_impl; [apply H|]. intros row (e & He & _ & Hr).
  apply list_elem_of_singleton in He as ->.
  apply Forall_cons in Hr as [[_ Hplayed] Hr].
  do 2 apply Forall_cons in Hr as [_ Hr].
  apply Forall_cons in Hr as [[_ Hkills] _].
  split; [apply Hplayed|apply Hkills]; left; reflexivity.
Defined.

(** With a stored [matchesLost] of 4 for 10 played and 6 won, the team
    overview agrees with the difference. *)
Lemma overview_matchesLost_witness :
  length (rows (df_overview_equipe loaded_40_60)) = 1%nat ∧
  Forall (λ team, OverviewRow.matchesLost team ==
                    OverviewRow.matchesPlayed team - OverviewRow.matchesWon team)
         (rows (df_overview_equipe loaded_40_60)).
Proof.
  split; [vm_compute; reflexivity|].
  destruct overview_matchesLost as [_ H].
  eapply Forall_impl; [apply (H (overview_df loaded_40_60))|].
  intros team [_ Hteam]. apply Hteam. compute_done.
Defined.

(** The scenario of the specification: 40 + 60 matches, 20 + 45 won. *)
Lemma winPct_range_witness :
  length (rows (maps_df_agg loaded_40_60)) = 1%nat ∧
  Forall (λ r, 0 <= Agg.winPct r ∧ Agg.winPct r <= 100)
         (rows (maps_df_agg loaded_40_60)).
Proof.
  split; [vm_compute; reflexivity|].
  destruct winPct_range as [H _].
  assert (Hpre : Forall (λ r, 0 < Agg.matchesPlayed r ∧ 0 <= Agg.matchesWon r ∧
                              Agg.matchesWon r <= Agg.matchesPlayed r)
                        (rows (maps_df_agg loaded_40_60))) by compute_done.
  apply Forall_forall. intros r Hr.
  destruct (proj1 (Forall_forall _ _) Hpre r Hr) as (Hp & Hw0 & Hw).
  destruct (proj1 (Forall_forall _ _) (H (maps_df loaded_40_60)) r Hr) as [_ Hrange].
  by apply Hrange.
Defined.

Lemma ratios_recomputed_witness :
  length (rows (ops_df_agg_team loaded_40_60)) = 1%nat ∧
  Forall (λ r, matchesPlayed r == 100 ∧ matchesWon r == 65 ∧ winPct r == 65)
         (rows (ops_df_agg_team loaded_40_60)).
Proof.
  split; [vm_compute; reflexivity|].
  destruct ratios_recomputed_from_sums as (_ & H & _).
  set (g := λ r : OpAgg.t (string * string),
         filter (λ x, team_key x = Agg.key (OpAgg.agg r)) (rows (ops_df loaded_40_60))).
  assert (Hpre : Forall (λ r,
      matchesPlayed r == 100 ∧ matchesWon r == 65 ∧
      0 < sum (matchesPlayed <$> g r) ∧
      sum (matchesWon <$> g r) / sum (matchesPlayed <$> g r) * 100 == 65)
    (rows (ops_df_agg_team loaded_40_60))) by compute_done.
  apply Forall_forall. intros r Hr.
  destruct (proj1 (Forall_forall _ _) Hpre r Hr) as (Hp & Hw & Hpos & Hpct).
  destruct (proj1 (Forall_forall _ _) (proj1 (H (ops_df loaded_40_60))) r Hr)
    as [[Hformula _] _].
  split; [done|]. split; [done|]. by rewrite (Hformula Hpos).
Defined.

Lemma killsPerMatch_witness :
  length (rows (ops_agg_team (parse_operators_to_df [ash_without_stats] "A"))) = 1%nat ∧
  Forall (λ r, killsPerMatch r = None ∧ kdRatio r = 0)
         (rows (ops_agg_team (parse_operators_to_df [ash_without_stats] "A"))).
Proof.
  split; [vm_compute; reflexivity|].
  destruct killsPerMatch_blank_kdRatio_zero as [H _].
  assert (Hpre : Forall (λ r, matchesPlayed r == 0 ∧ deaths r == 0)
            (rows (ops_agg_team (parse_operators_to_df [ash_without_stats] "A"))))
    by compute_done.
  apply Forall_forall. intros r Hr.
  destruct (proj1 (Forall_forall _ _) Hpre r Hr) as [Hp Hd].
  destruct (proj1 (Forall_forall _ _) (proj1 (H _)) r Hr) as [[Hblank _] Hkd].
  split; [by apply Hblank|by apply Hkd].
Defined.

(** The record named [" UNKNOWN "] of player A is gone from every table and
    from the report. *)
Lemma unknown_operators_witness :
  length (rows (ops_df loaded_40_60)) = 2%nat ∧
  ∃ els,
    create_pdf_report no_error no_error ["A"; "B"]%string
      (overview_raw_by_player loaded_40_60)
      (maps_df_agg loaded_40_60) (ops_df_agg_player loaded_40_60)
      (ops_df_agg_team loaded_40_60)
      (Rows (compute_side_performance (rows (ops_df_agg_team loaded_40_60))))
      50 10 = Ok els ∧
    Forall (λ el, Forall (λ r, ¬ unknown_name (operatorName r)) (element_operators el))
           els.
Proof.
  split; [vm_compute; reflexivity|].
  destruct unknown_operators_never_leak as (_ & H & _).
  destruct (H loaded_40_60) as (_ & _ & _ & _ & Hreport).
  assert (Hex : ∃ els,
    create_pdf_report no_error no_error ["A"; "B"]%string
      (overview_raw_by_player loaded_40_60)
      (maps_df_agg loaded_40_60) (ops_df_agg_player loaded_40_60)
      (ops_df_agg_team loaded_40_60)
      (Rows (compute_side_performance (rows (ops_df_agg_team loaded_40_60))))
      50 10 = Ok els) by (eexists; vm_compute; reflexivity).
  destruct Hex as [els Hels]. exists els. split; [exact Hels|].
  exact (Hreport _ _ _ _ _ _ _ _ _ Hels).
Defined.

(** Player B has no operator row, and the map and side tables are empty;
    the libraries raise nothing. *)
Lemma report_degrades_witness :
  ∃ els,
    create_pdf_report no_error no_error ["A"; "B"]%string
      [("A"%string, overview_10_6_4)] (Rows []) (Rows [ash_60]) Bare Bare 50 10
    = Ok els ∧
    (∃ before after, els = before ++ no_operators_section "B" ++ after) ∧
    existsb is_map_element els = false ∧
    existsb is_side_element els = false.
Proof.
  destruct (report_degrades_on_empty_tables no_error no_error ["A"; "B"]%string
              [("A"%string, overview_10_6_4)] [] [ash_60] Bare Bare 50 10)
    as (els & _ & Hok & Hnone & _ & Hmaps & Hsides).
  exists els. split; [apply Hok; [by apply Forall_forall|done]|]. split; [|split].
  - apply Hnone; [compute_done|vm_compute; reflexivity].
  - apply Hmaps. vm_compute. reflexivity.
  - apply Hsides. vm_compute. reflexivity.
Defined.

(** No map of the sample reaches 1000 matches. *)
Lemma best_worst_maps_witness :
  length (rows (maps_df_agg loaded_40_60)) = 1%nat ∧
  (compute_best_worst_maps (rows (maps_df_agg loaded_40_60)) 1000).1 = Bare ∧
  (compute_best_worst_maps (rows (maps_df_agg loaded_40_60)) 1000).2 = Bare.
Proof.
  split; [vm_compute; reflexivity|].
  destruct (best_worst_maps_ranking (rows (maps_df_agg loaded_40_60)) 1000)
    as (_ & _ & _ & _ & _ & _ & Hnone).
  destruct Hnone as (Hb & Hw & _); [vm_compute; reflexivity|]. by split.
Defined.

(** * Further properties of the pipeline *)

(** ** Group keys *)

#[global] Instance lex_le_total {A B} `{EqDecision A} (leA : relation A) (leB : relation B)
  `{!Total leA, !Total leB} : Total (lex_le leA leB).
Proof.
  intros x y. unfold lex_le. destruct (decide (x.1 = y.1)) as [Heq|Hne].
  - destruct (total leB x.2 y.2); [left; right|right; right]; by split.
  - destruct (total leA x.1 y.1); [left; left|right; left]; split; congruence.
Qed.

Lemma groupby_keys {A K} `{EqDecision K} (le : relation K) `{!RelDecision le}
    (key : A → K) (df : list A) :
  (groupby le key df).*1 = merge_sort le (remove_dups (key <$> df)).
Proof.
  unfold groupby. rewrite <-list_fmap_compose. apply list_fmap_id.
Qed.

Lemma aggregate_keys {A K} `{EqDecision K} `{Counts A} (le : relation K)
    `{!RelDecision le} (key : A → K) (df : list A) :
  Agg.key <$> aggregate le key df = merge_sort le (remove_dups (key <$> df)).
Proof.
  unfold aggregate. rewrite <-list_fmap_compose, <-groupby_keys. done.
Qed.

Lemma sorted_keys_spec {K} `{EqDecision K} (le : relation K) `{!RelDecision le}
    `{!Total le} (ks : list K) :
  let sorted := merge_sort le (remove_dups ks) in
  NoDup sorted ∧ Sorted le sorted ∧ ∀ k, k ∈ sorted ↔ k ∈ ks.
Proof.
  simpl. split; [|split].
  - rewrite merge_sort_Permutation. apply NoDup_remove_dups.
  - by apply Sorted_merge_sort.
  - intros k. rewrite merge_sort_Permutation. apply elem_of_remove_dups.
Qed.

(** X1. Every aggregate of [main] has one row per group key: the map names
    of the map aggregate are pairwise distinct, in ascending order, and are
    exactly the map names of the extracted rows; likewise the
    (operator, side) pairs of the team aggregate and the
    (player, operator, side) triples of the per-player aggregate. *)
Theorem aggregate_one_row_per_key :
  (∀ maps_df,
     let names := mapName <$> rows (maps_agg maps_df) in
     NoDup names ∧ Sorted String.le names ∧
     ∀ n, n ∈ names ↔ n ∈ MapRow.mapName <$> rows maps_df) ∧
  (∀ ops_df,
     let keys := (λ r, (team_operatorName r, team_side r)) <$> rows (ops_agg_team ops_df) in
     NoDup keys ∧ Sorted (lex_le String.le String.le) keys ∧
     ∀ k, k ∈ keys ↔ k ∈ team_key <$> rows ops_df) ∧
  (∀ ops_df,
     let keys := (λ r, (player r, operatorName r, side r))
                   <$> rows (ops_agg_player ops_df) in
     NoDup keys ∧ Sorted (lex_le (lex_le String.le String.le) String.le) keys ∧
     ∀ k, k ∈ keys ↔ k ∈ player_key <$> rows ops_df).
Proof.
  split; [|split].
  - intros maps_df. rewrite rows_maps_agg.
    change mapName with (@Agg.key string). rewrite aggregate_keys.
    apply sorted_keys_spec; apply _.
  - intros ops_df. rewrite rows_ops_agg_team.
    assert (Hk : (λ r, (team_operatorName r, team_side r)) <$>
                   (with_killsPerMatch <$>
                      aggregate (lex_le String.le String.le) team_key (rows ops_df))
                 = merge_sort (lex_le String.le String.le)
                     (remove_dups (team_key <$> rows ops_df))).
    { rewrite <-aggregate_keys, <-list_fmap_compose. apply list_fmap_ext.
      intros _ r _. unfold team_operatorName, team_side. simpl. by destruct (Agg.key r). }
    simpl. rewrite Hk. apply sorted_keys_spec; apply _.
  - intros ops_df. rewrite rows_ops_agg_player.
    assert (Hk : (λ r, (player r, operatorName r, side r)) <$>
                   (with_killsPerMatch <$>
                      aggregate (lex_le (lex_le String.le String.le) String.le)
                                player_key (rows ops_df))
                 = merge_sort (lex_le (lex_le String.le String.le) String.le)
                     (remove_dups (player_key <$> rows ops_df))).
    { rewrite <-aggregate_keys, <-list_fmap_compose. apply list_fmap_ext.
      intros _ r _. unfold player, operatorName, side. simpl.
      by destruct (Agg.key r) as [[??]?]. }
    simpl. rewrite Hk. apply sorted_keys_spec; apply _.
Qed.

(** ** Derived losses *)

Lemma sum_minus {A} (f g : A → Q) (l : list A) :
  sum ((λ r, f r - g r) <$> l) == sum (f <$> l) - sum (g <$> l).
Proof.
  induction l as [|x l IH]; [reflexivity|].
  rewrite !fmap_cons, !sum_cons, IH. ring.
Qed.

(** X2. In the map aggregate and in both operator aggregates every row has
    [matchesLost = matchesPlayed - matchesWon], and the losses of a whole
    table add up to the matches played minus the matches won of the
    extracted rows it was built from. *)
Theorem grouped_matchesLost_is_derived :
  (∀ maps_df,
     Forall (λ r, Agg.matchesLost r = Agg.matchesPlayed r - Agg.matchesWon r)
            (rows (maps_agg maps_df)) ∧
     sum (Agg.matchesLost <$> rows (maps_agg maps_df)) ==
       sum (MapRow.matchesPlayed <$> rows maps_df)
       - sum (MapRow.matchesWon <$> rows maps_df)) ∧
  (∀ ops_df,
     Forall (λ r, Agg.matchesLost (OpAgg.agg r) = matchesPlayed r - matchesWon r)
            (rows (ops_agg_team ops_df)) ∧
     Forall (λ r, Agg.matchesLost (OpAgg.agg r) = matchesPlayed r - matchesWon r)
            (rows (ops_agg_player ops_df)) ∧
     sum ((λ r, Agg.matchesLost (OpAgg.agg r)) <$> rows (ops_agg_team ops_df)) ==
       sum (OperatorRow.matchesPlayed <$> rows ops_df)
       - sum (OperatorRow.matchesWon <$> rows ops_df)).
Proof.
  assert (Hagg : ∀ A K `{EqDecision K} `{Counts A} (le : relation K)
            `{!RelDecision le} (key : A → K) (df : list A),
            Forall (λ r, Agg.matchesLost r = Agg.matchesPlayed r - Agg.matchesWon r)
                   (aggregate le key df)).
  { intros. apply Forall_forall. intros r Hr.
    by apply aggregate_row in Hr as (_ & _ & _ & _ & ? & _). }
  split.
  - intros maps_df. rewrite rows_maps_agg. split; [apply Hagg|].
    rewrite (Forall_fmap_ext_1 _ _ _ (Hagg _ _ _ _ _ _ _ _)), sum_minus.
    destruct (aggregate_totals String.le MapRow.mapName (rows maps_df))
      as (Hp & Hw & _).
    apply Qplus_comp; [exact Hp|]. apply Qopp_comp. exact Hw.
  - intros ops_df. rewrite rows_ops_agg_team, rows_ops_agg_player.
    split; [apply Forall_fmap, Hagg|]. split; [apply Forall_fmap, Hagg|].
    rewrite <-list_fmap_compose.
    rewrite (Forall_fmap_ext_1 _ (λ r, Agg.matchesPlayed r - Agg.matchesWon r) _
               (Hagg _ _ _ _ _ _ team_key _)), sum_minus.
    destruct (aggregate_totals (lex_le String.le String.le) team_key (rows ops_df))
      as (Hp & Hw & _).
    apply Qplus_comp; [exact Hp|]. apply Qopp_comp. exact Hw.
Qed.

(** ** Side performance *)

Lemma side_performance_sides ops_df_agg :
  SideRow.side <$> compute_side_performance ops_df_agg ≡ₚ
  remove_dups (team_side <$> ops_df_agg).
Proof.
  unfold compute_side_performance. rewrite sort_values_Permutation.
  rewrite <-list_fmap_compose.
  change (SideRow.side ∘ side_row) with (@fst string (list (OpAgg.t (string * string)))).
  rewrite groupby_keys. apply merge_sort_Permutation.
Qed.

(** X3. [compute_side_performance] returns one row per side that occurs in
    the team aggregate, most played side first; each row has
    [matchesLost = matchesPlayed - matchesWon], and the matches played and
    won of all sides add up to those of the team aggregate. *)
Theorem side_performance_spec :
  ∀ ops_df_agg : list (OpAgg.t (string * string)),
    let sides := compute_side_performance ops_df_agg in
    NoDup (SideRow.side <$> sides) ∧
    (∀ s, s ∈ SideRow.side <$> sides ↔ s ∈ team_side <$> ops_df_agg) ∧
    StronglySorted (λ a b, SideRow.matchesPlayed b <= SideRow.matchesPlayed a) sides ∧
    Forall (λ s, SideRow.matchesLost s = SideRow.matchesPlayed s - SideRow.matchesWon s)
           sides ∧
    sum (SideRow.matchesPlayed <$> sides) == sum (matchesPlayed <$> ops_df_agg) ∧
    sum (SideRow.matchesWon <$> sides) == sum (matchesWon <$> ops_df_agg).
Proof.
  intros ops_df_agg sides. split; [|split; [|split; [|split; [|split]]]].
  - unfold sides. rewrite side_performance_sides. apply NoDup_remove_dups.
  - intros s. unfold sides. rewrite side_performance_sides.
    apply elem_of_remove_dups.
  - apply (sort_values_sorted SideRow.matchesPlayed false).
  - apply Forall_forall. intros s Hs.
    by apply side_performance_row in Hs as (_ & _ & ? & _).
  - unfold sides, compute_side_performance.
    rewrite (sum_Permutation _ _ (fmap_Permutation _ _ _ (sort_values_Permutation _ _ _))).
    rewrite <-list_fmap_compose. apply (sum_groupby String.le team_side matchesPlayed).
  - unfold sides, compute_side_performance.
    rewrite (sum_Permutation _ _ (fmap_Permutation _ _ _ (sort_values_Permutation _ _ _))).
    rewrite <-list_fmap_compose. apply (sum_groupby String.le team_side matchesWon).
Qed.

(** ** Operator rankings *)

Lemma sort_values_na_Permutation {A} (col : A → option Q) (ascending : bool) (df : list A) :
  sort_values_na col ascending df ≡ₚ df.
Proof.
  unfold sort_values_na. rewrite sort_values_Permutation. apply filter_app_complement.
Qed.

Lemma rows_most_played {K} (ops : list (OpAgg.t K)) (min_operator_matches : Q) (top_n : nat) :
  let df := filter (λ r, min_operator_matches <= matchesPlayed r) ops in
  let tops := compute_most_played_operators ops min_operator_matches top_n in
  rows tops.1.1 = take top_n (sort_values matchesPlayed false df) ∧
  rows tops.1.2 = take top_n (sort_values winPct false df) ∧
  rows tops.2 = take top_n (sort_values_na OpAgg.killsPerMatch false
                              ((λ r, with_killsPerMatch (OpAgg.agg r)) <$> df)).
Proof.
  simpl. unfold compute_most_played_operators.
  destruct (is_empty _) eqn:He; [|done].
  apply is_empty_rows in He. simpl in He. rewrite He. simpl.
  by destruct top_n.
Qed.

(** In a list sorted from best to worst, whatever lies beyond the first [n]
    rows is no better than any of the first [n]. *)
Lemma take_sorted_dominates {A} (R : relation A) (n : nat) (sorted : list A) (x y : A) :
  StronglySorted R sorted → x ∈ take n sorted → y ∈ sorted → y ∉ take n sorted → R x y.
Proof.
  intros Hs Hx Hy Hny. rewrite <-(take_drop n sorted) in Hs, Hy.
  apply StronglySorted_app in Hs as (Hxy & _ & _).
  apply elem_of_app in Hy as [?|Hy]; [done|]. by apply Hxy.
Qed.

Lemma take_sorted {A} (R : relation A) (n : nat) (sorted : list A) :
  StronglySorted R sorted → StronglySorted R (take n sorted).
Proof.
  intros Hs. rewrite <-(take_drop n sorted) in Hs.
  by apply StronglySorted_app in Hs as (_ & ? & _).
Qed.

(** X4. [compute_most_played_operators] returns three tables of
    [min top_n eligible] rows each, where the eligible rows are those with
    [matchesPlayed >= min_operator_matches]; all three are [pd.DataFrame()]
    exactly when no row is eligible.  The first two hold eligible rows in
    descending order of [matchesPlayed] (respectively [winPct]), and no
    eligible row left out has more matches (respectively a higher [winPct])
    than a row kept.  The third holds eligible rows with [killsPerMatch]
    recomputed. *)
Theorem most_played_operators_spec :
  ∀ K (ops : list (OpAgg.t K)) (min_operator_matches : Q) (top_n : nat),
    let eligible := filter (λ r, min_operator_matches <= matchesPlayed r) ops in
    let tops := compute_most_played_operators ops min_operator_matches top_n in
    let mais_jogados := rows tops.1.1 in
    let maior_win := rows tops.1.2 in
    let maior_kpm := rows tops.2 in
    (eligible = [] ↔ tops = (Bare, Bare, Bare)) ∧
    length mais_jogados = Nat.min top_n (length eligible) ∧
    length maior_win = Nat.min top_n (length eligible) ∧
    length maior_kpm = Nat.min top_n (length eligible) ∧
    Forall (λ r, r ∈ eligible) mais_jogados ∧
    Forall (λ r, r ∈ eligible) maior_win ∧
    Forall (λ r, min_operator_matches <= matchesPlayed r ∧
                 ∃ r', r' ∈ eligible ∧ r = with_killsPerMatch (OpAgg.agg r')) maior_kpm ∧
    StronglySorted (λ a b, matchesPlayed b <= matchesPlayed a) mais_jogados ∧
    StronglySorted (λ a b, winPct b <= winPct a) maior_win ∧
    (∀ r r', r ∈ mais_jogados → r' ∈ eligible → r' ∉ mais_jogados →
             matchesPlayed r' <= matchesPlayed r) ∧
    (∀ r r', r ∈ maior_win → r' ∈ eligible → r' ∉ maior_win →
             winPct r' <= winPct r).
Proof.
  intros K ops min_operator_matches top_n eligible tops mais_jogados maior_win maior_kpm.
  destruct (rows_most_played ops min_operator_matches top_n) as (H1 & H2 & H3).
  fold eligible in H1, H2, H3. fold tops in H1, H2, H3.
  fold mais_jogados in H1. fold maior_win in H2. fold maior_kpm in H3.
  pose proof (sort_values_sorted matchesPlayed false eligible) as S1.
  pose proof (sort_values_sorted winPct false eligible) as S2.
  repeat split.
  - intros He. unfold tops, compute_most_played_operators.
    fold eligible. by rewrite He.
  - unfold tops, compute_most_played_operators. fold eligible.
    destruct eligible; [done|]. simpl. discriminate.
  - rewrite H1, length_take. f_equal. apply Permutation_length, sort_values_Permutation.
  - rewrite H2, length_take. f_equal. apply Permutation_length, sort_values_Permutation.
  - rewrite H3, length_take. f_equal.
    rewrite (Permutation_length (sort_values_na_Permutation _ _ _)). apply length_fmap.
  - rewrite H1. apply Forall_forall. intros r Hr%elem_of_take_elem.
    by rewrite sort_values_Permutation in Hr.
  - rewrite H2. apply Forall_forall. intros r Hr%elem_of_take_elem.
    by rewrite sort_values_Permutation in Hr.
  - rewrite H3. apply Forall_forall. intros r Hr%elem_of_take_elem.
    rewrite sort_values_na_Permutation in Hr.
    apply list_elem_of_fmap in Hr as (r' & -> & Hr'). split; [|by exists r'].
    by apply list_elem_of_filter in Hr' as [? _].
  - rewrite H1. by apply take_sorted.
  - rewrite H2. by apply take_sorted.
  - intros r r' Hr Hr' Hn. rewrite H1 in Hr, Hn.
    apply (take_sorted_dominates _ top_n _ r r' S1 Hr); [|done].
    by rewrite sort_values_Permutation.
  - intros r r' Hr Hr' Hn. rewrite H2 in Hr, Hn.
    apply (take_sorted_dominates _ top_n _ r r' S2 Hr); [|done].
    by rewrite sort_values_Permutation.
Qed.

(** ** The report: faults, layout and the rows it praises *)

Lemma ops_agg_player_bare ops_df :
  ops_agg_player ops_df = Bare ↔ rows ops_df = [].
Proof.
  unfold ops_agg_player. destruct (is_empty ops_df) eqn:He.
  - apply is_empty_rows in He. by split.
  - split; [done|]. intros Hr. apply is_empty_rows in Hr. congruence.
Qed.

Lemma maps_agg_bare maps_df : maps_agg maps_df = Bare ↔ rows maps_df = [].
Proof.
  unfold maps_agg. destruct (is_empty maps_df) eqn:He.
  - apply is_empty_rows in He. by split.
  - split; [done|]. intros Hr. apply is_empty_rows in Hr. congruence.
Qed.

(** X5. [create_pdf_report] raises [KeyError] on [matchesPlayed], before
    any flowable is made and whatever the libraries do, when the map
    aggregate or the per-player operator aggregate is [pd.DataFrame()]; that
    is what [main] passes when no map row, or no operator row, was
    extracted.  When both tables carry their columns, no step of the
    renderer's own faults (no [iloc] is out of range): there is a list of
    flowables that the call returns exactly when the libraries accept each
    of them and the build, and any exception of the call is one that a
    library raised on a flowable of that list or on the build.  So a report
    is returned only for tables that carry their columns. *)
Theorem report_faults_exactly_on_bare_tables :
  (∀ flowable_error build_error jogadores overview_raw maps_df_agg ops_df_agg_player
     ops_df_agg_team sides_df_agg min_operator_matches min_map_matches,
     let report :=
       create_pdf_report flowable_error build_error jogadores overview_raw maps_df_agg
         ops_df_agg_player ops_df_agg_team sides_df_agg min_operator_matches
         min_map_matches in
     (maps_df_agg = Bare ∨ ops_df_agg_player = Bare →
      report = Raised (KeyError "matchesPlayed")) ∧
     (maps_df_agg ≠ Bare → ops_df_agg_player ≠ Bare →
      ∃ els,
        (report = Ok els ↔
           Forall (λ el, flowable_error el = None) els ∧ build_error els = None) ∧
        (∀ els', report = Ok els' → els' = els) ∧
        (∀ e, report = Raised e →
              (∃ el, el ∈ els ∧ flowable_error el = Some e) ∨ build_error els = Some e)) ∧
     (∀ els, report = Ok els → maps_df_agg ≠ Bare ∧ ops_df_agg_player ≠ Bare)) ∧
  (∀ flowable_error build_error loaded jogadores sides_df_agg min_operator_matches
     min_map_matches,
     let report :=
       create_pdf_report flowable_error build_error jogadores
         (overview_raw_by_player loaded) (maps_df_agg loaded) (ops_df_agg_player loaded)
         (ops_df_agg_team loaded) sides_df_agg min_operator_matches min_map_matches in
     (rows (maps_df loaded) = [] ∨ rows (ops_df loaded) = [] →
      report = Raised (KeyError "matchesPlayed")) ∧
     (∀ els, report = Ok els →
             rows (maps_df loaded) ≠ [] ∧ rows (ops_df loaded) ≠ [])).
Proof.
  assert (Hbare : ∀ fe be jogadores overview_raw maps ops team sides mo mm,
     maps = Bare ∨ ops = Bare →
     create_pdf_report fe be jogadores overview_raw maps ops team sides mo mm
     = Raised (KeyError "matchesPlayed")).
  { intros. by apply create_pdf_report_Bare. }
  assert (Hok : ∀ fe be jogadores overview_raw maps ops team sides mo mm els,
     create_pdf_report fe be jogadores overview_raw maps ops team sides mo mm = Ok els →
     maps ≠ Bare ∧ ops ≠ Bare).
  { intros fe be jogadores overview_raw maps ops team sides mo mm els Hels.
    split; intros ->.
    - rewrite Hbare in Hels; [done|by left].
    - rewrite Hbare in Hels; [done|by right]. }
  split.
  - intros fe be jogadores overview_raw maps ops team sides mo mm report.
    split; [apply Hbare|]. split; [|apply Hok].
    intros Hmaps Hops.
    destruct ops as [|ops_rows]; [done|]. destruct maps as [|maps_rows]; [done|].
    destruct (create_pdf_report_Rows jogadores overview_raw maps_rows ops_rows team
                sides mo mm)
      as (mapas & lados & operadores & grafico & tabela & gerais & _ & _ & _ & _ & _ & _ & Hr).
    eexists. split; [|split].
    + unfold report. rewrite create_pdf_report_Ok, Hr. split; [by intros [_ ?]|done].
    + intros els' [Hels' _]%create_pdf_report_Ok. rewrite Hr in Hels'.
      by injection Hels' as <-.
    + intros e [Hrep|(els' & Hrep & Hlib)]%create_pdf_report_Raised.
      * rewrite Hr in Hrep. discriminate Hrep.
      * rewrite Hr in Hrep. injection Hrep as <-. exact Hlib.
  - intros fe be loaded jogadores sides mo mm report. split.
    + intros H. apply Hbare. unfold maps_df_agg, ops_df_agg_player.
      by rewrite maps_agg_bare, ops_agg_player_bare.
    + intros els Hels. apply Hok in Hels. unfold maps_df_agg, ops_df_agg_player in Hels.
      by rewrite maps_agg_bare, ops_agg_player_bare in Hels.
Qed.

Lemma iloc_first_sorted_max {A} (col : A → Q) (l : list A) (a : A) :
  iloc_first (sort_values col false l) = Ok a →
  a ∈ l ∧ Forall (λ r, col r <= col a) l.
Proof.
  intros Ha. split; [apply iloc_first_elem in Ha; by rewrite sort_values_Permutation in Ha|].
  pose proof (sort_values_sorted col false l) as Hs.
  unfold iloc_first in Ha. destruct (head _) as [a'|] eqn:Hh; [|done].
  injection Ha as ->. apply head_Some in Hh as [rest Hrest]. rewrite Hrest in Hs.
  apply StronglySorted_cons in Hs as [Hall _].
  apply Forall_forall. intros r Hr.
  rewrite <-(sort_values_Permutation col false l), Hrest in Hr.
  apply elem_of_cons in Hr as [->|Hr]; [apply Qle_refl|].
  revert r Hr. by apply Forall_forall.
Qed.

Lemma iloc_last_sorted_min {A} (col : A → Q) (l : list A) (b : A) :
  iloc_last (sort_values col false l) = Ok b →
  b ∈ l ∧ Forall (λ r, col b <= col r) l.
Proof.
  intros Hb. split; [apply iloc_last_elem in Hb; by rewrite sort_values_Permutation in Hb|].
  pose proof (sort_values_sorted col false l) as Hs.
  unfold iloc_last in Hb. destruct (last _) as [b'|] eqn:Hl; [|done].
  injection Hb as ->. apply last_Some in Hl as [pre Hpre]. rewrite Hpre in Hs.
  apply StronglySorted_app in Hs as (Hall & _ & _).
  apply Forall_forall. intros r Hr.
  rewrite <-(sort_values_Permutation col false l), Hpre in Hr.
  apply elem_of_app in Hr as [Hr|Hr].
  - apply (Hall r b Hr). apply list_elem_of_here.
  - apply list_elem_of_singleton in Hr as ->. apply Qle_refl.
Qed.

(** Membership in a written-out list of flowables: one case per entry, the
    entries of another shape are dismissed. *)
Ltac listed H :=
  repeat match type of H with
         | _ ∈ _ :: _ => apply elem_of_cons in H as [H|H]; [try discriminate H|]
         end;
  try (by apply elem_of_nil in H).

Lemma player_sections_texto ops jogadores els top_op bot_op st :
  player_sections no_error ops jogadores = Ok els →
  Paragraph (TextoOps top_op bot_op) st ∈ els →
  ∃ p, p ∈ jogadores ∧
       iloc_first (sort_values winPct false (filter (λ r, player r = p) ops)) = Ok top_op ∧
       iloc_last (sort_values winPct false (filter (λ r, player r = p) ops)) = Ok bot_op.
Proof.
  revert els. induction jogadores as [|q rest IH]; intros els; simpl.
  - intros [= <-]. by intros ?%elem_of_nil.
  - intros (here & Hhere & (more & Hmore & [= <-])%bind_Ok)%bind_Ok.
    intros [Hin|Hin]%elem_of_app.
    + exists q. split; [apply list_elem_of_here|].
      apply player_section_shape in Hhere as [[_ ->]|(a & b & Ha & Hb & ->)].
      * unfold no_operators_section in Hin. listed Hin.
      * listed Hin. by injection Hin as -> -> ->.
    + destruct (IH more Hmore Hin) as (p & Hp & ?). exists p.
      split; [by apply list_elem_of_further|done].
Qed.

(** X6. In a report that was built, the map named best has the highest
    [winPct] and the map named worst the lowest among the maps that passed
    the filters; and the operator named top (respectively worst) of a
    player has the highest (respectively lowest) [winPct] among the rows of
    that same player that passed the filters. *)
Theorem report_names_the_extremes :
  ∀ flowable_error build_error jogadores overview_raw maps_rows ops_rows ops_df_agg_team
    sides_df_agg min_operator_matches min_map_matches els,
    create_pdf_report flowable_error build_error jogadores overview_raw (Rows maps_rows)
      (Rows ops_rows) ops_df_agg_team sides_df_agg min_operator_matches min_map_matches
    = Ok els →
    (∀ melhor pior st, Paragraph (TextoMapas melhor pior) st ∈ els →
       melhor ∈ eligible_maps maps_rows min_map_matches ∧
       pior ∈ eligible_maps maps_rows min_map_matches ∧
       Forall (λ r, Agg.winPct pior <= Agg.winPct r ∧ Agg.winPct r <= Agg.winPct melhor)
              (eligible_maps maps_rows min_map_matches)) ∧
    (∀ top_op bot_op st, Paragraph (TextoOps top_op bot_op) st ∈ els →
       top_op ∈ eligible_ops ops_rows min_operator_matches ∧
       bot_op ∈ eligible_ops ops_rows min_operator_matches ∧
       player top_op ∈ jogadores ∧ player bot_op = player top_op ∧
       Forall (λ r, player r = player top_op →
                    winPct bot_op <= winPct r ∧ winPct r <= winPct top_op)
              (eligible_ops ops_rows min_operator_matches)).
Proof.
  intros fe be jogadores overview_raw maps_rows ops_rows team sides mo mm els
    [Hels _]%create_pdf_report_Ok.
  destruct (create_pdf_report_Rows jogadores overview_raw maps_rows ops_rows team
              sides mo mm)
    as (mapas & lados & operadores & grafico & tabela & gerais
        & Hm & Hl & Ho & Hg & Ht & Hv & Hr).
  rewrite Hr in Hels. injection Hels as <-.
  apply map_summary_shape in Hm. apply side_summary_shape in Hl.
  apply map_chart_shape in Hg. apply side_table_shape in Ht.
  assert (Hgerais : ∀ el, el ∈ gerais →
            element_maps el = [] ∧ element_operators el = []).
  { clear -Hv. revert gerais Hv.
    induction overview_raw as [|p rest IH]; intros els; simpl.
    - intros [= <-] el Hin. listed Hin.
    - intros (here & Hhere & (more & Hmore & [= <-])%bind_Ok)%bind_Ok el.
      intros [Hin|Hin]%elem_of_app; [|by eapply IH].
      apply overview_section_shape in Hhere as [[_ ->]|(row & _ & ->)]; listed Hin;
        by subst el. }
  split.
  - intros melhor pior st Hin.
    assert (Hmapas : Paragraph (TextoMapas melhor pior) st ∈ mapas).
    { do 2 (apply elem_of_cons in Hin as [Hin|Hin]; [discriminate Hin|]).
      rewrite !elem_of_app in Hin. destruct Hin as [Hin|[Hin|[Hin|[Hin|[Hin|Hin]]]]].
      - done.
      - destruct Hl as [[_ ->]|(a & b & _ & _ & ->)]; listed Hin.
      - exfalso. clear -Ho Hin. revert operadores Ho Hin.
        induction jogadores as [|q rest IH]; intros els; simpl.
        + intros [= <-] Hin. listed Hin.
        + intros (here & Hhere & (more & Hmore & [= <-])%bind_Ok)%bind_Ok.
          intros [Hin|Hin]%elem_of_app; [|by eapply IH].
          apply player_section_shape in Hhere as [[_ ->]|(a & b & _ & _ & ->)];
            unfold no_operators_section in *; listed Hin.
      - destruct Hg as [[_ ->]| ->]; listed Hin.
      - destruct Ht as [[_ ->]| ->]; listed Hin.
      - apply elem_of_cons in Hin as [?|Hin]; [done|].
        by destruct (Hgerais _ Hin). }
    destruct Hm as [[_ ->]|(a & b & Ha & Hb & ->)]; [listed Hmapas|].
    listed Hmapas. injection Hmapas as -> -> ->.
    apply iloc_first_sorted_max in Ha as [Ha1 Ha2].
    apply iloc_last_sorted_min in Hb as [Hb1 Hb2]. simpl in *.
    split; [done|]. split; [done|].
    apply Forall_forall. intros r Hr'. split.
    + exact (proj1 (Forall_forall _ _) Hb2 r Hr').
    + exact (proj1 (Forall_forall _ _) Ha2 r Hr').
  - intros top_op bot_op st Hin.
    assert (Hoper : Paragraph (TextoOps top_op bot_op) st ∈ operadores).
    { do 2 (apply elem_of_cons in Hin as [Hin|Hin]; [discriminate Hin|]).
      rewrite !elem_of_app in Hin. destruct Hin as [Hin|[Hin|[Hin|[Hin|[Hin|Hin]]]]].
      - destruct Hm as [[_ ->]|(a & b & _ & _ & ->)]; listed Hin.
      - destruct Hl as [[_ ->]|(a & b & _ & _ & ->)]; listed Hin.
      - done.
      - destruct Hg as [[_ ->]| ->]; listed Hin.
      - destruct Ht as [[_ ->]| ->]; listed Hin.
      - apply elem_of_cons in Hin as [?|Hin]; [done|].
        by destruct (Hgerais _ Hin). }
    destruct (player_sections_texto _ _ _ _ _ _ Ho Hoper) as (p & Hp & Ha & Hb).
    apply iloc_first_sorted_max in Ha as [Ha1 Ha2].
    apply iloc_last_sorted_min in Hb as [Hb1 Hb2].
    apply list_elem_of_filter in Ha1 as [Hpa Ha1].
    apply list_elem_of_filter in Hb1 as [Hpb Hb1].
    split; [done|]. split; [done|]. rewrite Hpa. split; [done|]. split; [done|].
    apply Forall_forall. intros r Hr' Hpr.
    assert (Hrp : r ∈ filter (λ r, player r = p)
                      (eligible_ops ops_rows mo)) by by apply list_elem_of_filter.
    split.
    + exact (proj1 (Forall_forall _ _) Hb2 r Hrp).
    + exact (proj1 (Forall_forall _ _) Ha2 r Hrp).
Qed.

Lemma player_sections_headings ops jogadores els :
  player_sections no_error ops jogadores = Ok els →
  omap heading_player els = jogadores ∧ omap overview_player els = [].
Proof.
  revert els. induction jogadores as [|q rest IH]; intros els; simpl.
  - by intros [= <-].
  - intros (here & Hhere & (more & Hmore & [= <-])%bind_Ok)%bind_Ok.
    destruct (IH more Hmore) as [IH1 IH2]. rewrite !omap_app, IH1, IH2.
    by apply player_section_shape in Hhere as [[_ ->]|(a & b & _ & _ & ->)].
Qed.

Lemma overview_sections_players (overview_raw : list (string * overview)) els :
  overview_sections no_error overview_raw = Ok els →
  omap heading_player els = [] ∧ omap overview_player els = overview_raw.*1.
Proof.
  revert els. induction overview_raw as [|p rest IH]; intros els; simpl.
  - by intros [= <-].
  - intros (here & Hhere & (more & Hmore & [= <-])%bind_Ok)%bind_Ok.
    destruct (IH more Hmore) as [IH1 IH2]. rewrite !omap_app, IH1, IH2.
    by apply overview_section_shape in Hhere as [[_ ->]|(row & _ & ->)].
Qed.

(** X7. A report that is returned opens with the title, has exactly one
    operator heading per selected player, in the order of the selection, and
    exactly one overview line per player with an overview, in the order of
    [overview_raw_by_player]. *)
Theorem report_layout :
  ∀ flowable_error build_error jogadores overview_raw maps_df_agg ops_df_agg_player
    ops_df_agg_team sides_df_agg min_operator_matches min_map_matches els,
    create_pdf_report flowable_error build_error jogadores overview_raw maps_df_agg
      ops_df_agg_player ops_df_agg_team sides_df_agg min_operator_matches
      min_map_matches = Ok els →
    head els = Some (Paragraph TituloGeral titulo) ∧
    omap heading_player els = jogadores ∧
    omap overview_player els = overview_raw.*1.
Proof.
  intros fe be jogadores overview_raw maps ops team sides mo mm els
    [Hels _]%create_pdf_report_Ok.
  destruct ops as [|ops_rows]; [done|]. destruct maps as [|maps_rows]; [done|].
  destruct (create_pdf_report_Rows jogadores overview_raw maps_rows ops_rows team
              sides mo mm)
    as (mapas & lados & operadores & grafico & tabela & gerais
        & Hm & Hl & Ho & Hg & Ht & Hv & Hr).
  rewrite Hr in Hels. injection Hels as <-. split; [done|].
  apply player_sections_headings in Ho as [Ho1 Ho2].
  apply overview_sections_players in Hv as [Hg1 Hg2].
  assert (Hmapas : omap heading_player mapas = [] ∧ omap overview_player mapas = []).
  { by apply map_summary_shape in Hm as [[_ ->]|(a & b & _ & _ & ->)]. }
  assert (Hlados : omap heading_player lados = [] ∧ omap overview_player lados = []).
  { by apply side_summary_shape in Hl as [[_ ->]|(a & b & _ & _ & ->)]. }
  assert (Hchart : omap heading_player grafico = [] ∧ omap overview_player grafico = []).
  { by apply map_chart_shape in Hg as [[_ ->]| ->]. }
  assert (Htable : omap heading_player tabela = [] ∧ omap overview_player tabela = []).
  { by apply side_table_shape in Ht as [[_ ->]| ->]. }
  assert (Htitle : ∀ (f : element → option string) l,
            f (Paragraph TituloGeral titulo) = None → f (Spacer 1 12) = None →
            omap f (Paragraph TituloGeral titulo :: Spacer 1 12 :: l) = omap f l).
  { intros f l H1 H2. simpl. by rewrite H1, H2. }
  assert (Hgerais : ∀ (f : element → option string) l,
            f (Paragraph GeraisCabecalho subtitulo) = None →
            omap f (Paragraph GeraisCabecalho subtitulo :: l) = omap f l).
  { intros f l H1. simpl. by rewrite H1. }
  destruct Hmapas as [Hm1 Hm2], Hlados as [Hl1 Hl2], Hchart as [Hc1 Hc2],
    Htable as [Ht1 Ht2].
  rewrite !Htitle, !omap_app, !Hgerais by done.
  rewrite Hm1, Hm2, Hl1, Hl2, Ho1, Ho2, Hg1, Hg2, Hc1, Hc2, Ht1, Ht2.
  simpl. by rewrite app_nil_r.
Qed.

(** ** Playstyles *)

Lemma insert_desc_Permutation x l : insert_desc x l ≡ₚ x :: l.
Proof.
  induction l as [|y l IH]; simpl; [done|].
  destruct (decide (y.2 <= x.2)); [done|]. rewrite IH. apply Permutation_swap.
Qed.

Lemma sort_desc_Permutation l : sort_desc l ≡ₚ l.
Proof.
  induction l as [|x l IH]; simpl; [done|].
  by rewrite insert_desc_Permutation, IH.
Qed.

Lemma insert_desc_sorted x l :
  StronglySorted (λ a b : string * Q, b.2 <= a.2) l →
  StronglySorted (λ a b : string * Q, b.2 <= a.2) (insert_desc x l).
Proof.
  induction 1 as [|y l Hl IH Hy]; simpl; [by repeat constructor|].
  destruct (decide (y.2 <= x.2)) as [Hle|Hgt].
  - constructor; [by constructor|]. constructor; [done|].
    eapply Forall_impl; [exact Hy|]. intros z Hz. simpl in *. by eapply Qle_trans.
  - constructor; [done|]. rewrite insert_desc_Permutation.
    constructor; [|done]. simpl. apply Qnot_le_lt in Hgt. by apply Qlt_le_weak.
Qed.

Lemma sort_desc_sorted l : StronglySorted (λ a b : string * Q, b.2 <= a.2) (sort_desc l).
Proof.
  induction l as [|x l IH]; simpl; [constructor|]. by apply insert_desc_sorted.
Qed.

Lemma insert_desc_stable (q : Q) x l :
  filter (λ y : string * Q, y.2 == q) (insert_desc x l) =
  filter (λ y : string * Q, y.2 == q) (x :: l).
Proof.
  induction l as [|y l IH]; simpl; [done|].
  destruct (decide (y.2 <= x.2)) as [Hle|Hgt]; [done|].
  rewrite filter_cons, IH, !filter_cons.
  destruct (decide (y.2 == q)) as [Hy|Hy], (decide (x.2 == q)) as [Hx|Hx]; try done.
  exfalso. apply Hgt. rewrite Hy, Hx. apply Qle_refl.
Qed.

Lemma sort_desc_stable (q : Q) l :
  filter (λ y : string * Q, y.2 == q) (sort_desc l) = filter (λ y : string * Q, y.2 == q) l.
Proof.
  induction l as [|x l IH]; simpl; [done|].
  by rewrite insert_desc_stable, !filter_cons, IH.
Qed.

(** X8. [extract_playstyles] reads the first segment of type ["overview"]
    and returns one pair per statistic whose key starts with ["playstyle"],
    ordered by usage from highest to lowest, so that the first pair (the
    style shown as best) has the highest usage; pairs of equal usage keep
    the order they have in the record.  Without an overview segment the
    result is empty. *)
Theorem playstyles_by_descending_usage :
  ∀ segments : list playstyle_segment,
    let styles := extract_playstyles segments in
    (Forall (λ seg, ps_type seg ≠ Some "overview"%string) segments → styles = []) ∧
    (∀ pre seg post,
       segments = pre ++ seg :: post →
       Forall (λ s, ps_type s ≠ Some "overview"%string) pre →
       ps_type seg = Some "overview"%string →
       styles ≡ₚ omap playstyle_of (ps_stats seg) ∧
       ∀ q, filter (λ x, x.2 == q) styles =
            filter (λ x, x.2 == q) (omap playstyle_of (ps_stats seg))) ∧
    StronglySorted (λ a b, b.2 <= a.2) styles ∧
    (∀ melhor, head styles = Some melhor → Forall (λ x, x.2 <= melhor.2) styles).
Proof.
  intros segments styles.
  assert (Hsorted : StronglySorted (λ a b : string * Q, b.2 <= a.2) styles).
  { unfold styles, extract_playstyles.
    destruct (list_find _ _) as [[i seg]|]; [apply sort_desc_sorted|constructor]. }
  split; [|split; [|split]].
  - intros Hnone. unfold styles, extract_playstyles.
    destruct (list_find _ _) as [[i seg]|] eqn:Hf; [|done].
    apply list_find_Some in Hf as (Hi & Ht & _).
    apply list_elem_of_lookup_2 in Hi.
    by apply (proj1 (Forall_forall _ _) Hnone) in Hi.
  - intros pre seg post -> Hpre Hseg. unfold styles, extract_playstyles.
    assert (Hf : list_find (λ s, ps_type s = Some "overview"%string) (pre ++ seg :: post)
                 = Some (length pre, seg)).
    { apply list_find_Some. split; [by rewrite list_lookup_middle|]. split; [done|].
      intros j y Hj Hlt. rewrite lookup_app_l in Hj by done.
      apply list_elem_of_lookup_2 in Hj.
      by apply (proj1 (Forall_forall _ _) Hpre). }
    rewrite Hf. split; [apply sort_desc_Permutation|]. intros q. apply sort_desc_stable.
  - done.
  - intros melhor [rest Hrest]%head_Some. rewrite Hrest in Hsorted |- *.
    apply StronglySorted_cons in Hsorted as [Hall _].
    constructor; [apply Qle_refl|done].
Qed.

(** ** The tabs of the dashboard *)

Lemma side_performance_nonempty ops_df_agg :
  ops_df_agg ≠ [] → compute_side_performance ops_df_agg ≠ [].
Proof.
  intros Hne Hs. pose proof (side_performance_sides ops_df_agg) as Hp.
  rewrite Hs in Hp. simpl in Hp. symmetry in Hp. apply Permutation_nil_r in Hp.
  destruct ops_df_agg as [|r l]; [done|].
  assert (Hin : team_side r ∈ remove_dups (team_side <$> r :: l)).
  { apply elem_of_remove_dups. rewrite fmap_cons. apply list_elem_of_here. }
  rewrite Hp in Hin. by apply elem_of_nil in Hin.
Qed.

(** X9. The best-side insight of tab 5 raises [IndexError] exactly when
    there are operator rows but no side has a positive [matchesPlayed]
    (e.g. when every operator record lacks that statistic); its branch for
    an empty side table is never taken.  Otherwise the side named best has
    matches played and the highest [winPctSide] among the sides that have. *)
Theorem best_side_insight_spec :
  ∀ ops_df_agg_team : DataFrame (OpAgg.t (string * string)),
    let sides := compute_side_performance (rows ops_df_agg_team) in
    (best_side_insight ops_df_agg_team = Raised IndexError ↔
       rows ops_df_agg_team ≠ [] ∧ Forall (λ s, ¬ 0 < SideRow.matchesPlayed s) sides) ∧
    (best_side_insight ops_df_agg_team = Ok NenhumDadoDeOperador ↔
       rows ops_df_agg_team = []) ∧
    best_side_insight ops_df_agg_team ≠ Ok NenhumDadoDeLado ∧
    (∀ best l, best_side_insight ops_df_agg_team = Ok (MelhorLado best l) →
       l = sides ∧ best ∈ sides ∧ 0 < SideRow.matchesPlayed best ∧
       Forall (λ s, 0 < SideRow.matchesPlayed s →
                    SideRow.winPctSide s <= SideRow.winPctSide best) sides).
Proof.
  intros team sides. unfold best_side_insight. fold sides.
  destruct (is_empty team) eqn:He.
  { apply is_empty_rows in He. repeat split; try done. by intros [? _]. }
  assert (Hne : rows team ≠ []).
  { intros Hr. apply is_empty_rows in Hr. congruence. }
  assert (Hs : is_empty (Rows sides) = false).
  { pose proof (side_performance_nonempty _ Hne) as Hs. fold sides in Hs.
    by destruct sides. }
  rewrite Hs.
  destruct (filter (λ r, 0 < SideRow.matchesPlayed r) sides) as [|s0 pos] eqn:Hpos.
  - assert (Hall : Forall (λ s, ¬ 0 < SideRow.matchesPlayed s) sides).
    { apply Forall_forall. intros s Hin Hp.
      assert (Hf : s ∈ filter (λ r, 0 < SideRow.matchesPlayed r) sides)
        by by apply list_elem_of_filter.
      rewrite Hpos in Hf. by apply elem_of_nil in Hf. }
    repeat split; try done.
  - assert (Hnn : sort_values SideRow.winPctSide false (s0 :: pos) ≠ [])
      by by apply sort_values_nonempty.
    destruct (iloc_first_nonempty _ Hnn) as [b Hb]. rewrite Hb.
    apply iloc_first_sorted_max in Hb as [Hb1 Hb2]. rewrite <-Hpos in Hb1, Hb2.
    apply list_elem_of_filter in Hb1 as [Hb0 Hb1].
    split; [|split; [|split]]; try done.
    + split; [done|]. intros [_ Hall].
      apply (proj1 (Forall_forall _ _) Hall) in Hb1. done.
    + intros best l [= <- <-]. repeat split; try done.
      apply Forall_forall. intros s Hin Hp.
      apply (proj1 (Forall_forall _ _) Hb2). by apply list_elem_of_filter.
Qed.

(** X10. The maps tab raises [KeyError] exactly when there are map rows
    but none reaches the threshold: [compute_best_worst_maps] then returns
    [pd.DataFrame()] and the tab selects columns of it.  Otherwise the tab
    shows the five best and the five worst of the eligible maps and the ten
    most played maps. *)
Theorem maps_tab_spec :
  ∀ (maps_df_agg : DataFrame (Agg.t string)) (min_map_matches : Q),
    let eligible := filter (λ r, min_map_matches <= matchesPlayed r) (rows maps_df_agg) in
    (maps_tab maps_df_agg min_map_matches = Raised (KeyError "mapName") ↔
       rows maps_df_agg ≠ [] ∧ eligible = []) ∧
    (maps_tab maps_df_agg min_map_matches = Ok SemDadosDeMapas ↔ rows maps_df_agg = []) ∧
    (∀ v, maps_tab maps_df_agg min_map_matches = Ok (Mapas v) →
       eligible ≠ [] ∧
       todos_melhores v = sort_values Agg.winPct false eligible ∧
       top5_melhores v = take 5 (sort_values Agg.winPct false eligible) ∧
       top5_piores v = take 5 (sort_values Agg.winPct true eligible) ∧
       df_top10_mapa v = take 10 (sort_values Agg.matchesPlayed false (rows maps_df_agg))).
Proof.
  intros maps_df_agg min_map_matches eligible. unfold maps_tab.
  destruct (is_empty maps_df_agg) eqn:He.
  { apply is_empty_rows in He. repeat split; try done. by intros [? _]. }
  assert (Hne : rows maps_df_agg ≠ []).
  { intros Hr. apply is_empty_rows in Hr. congruence. }
  unfold compute_best_worst_maps.
  change (filter _ (rows maps_df_agg)) with eligible.
  destruct eligible as [|r0 rest] eqn:Hel; simpl.
  - repeat split; try done.
  - repeat split; try done; [by intros [_ ?]|..];
      match goal with H : ok _ = Ok _ |- _ => by injection H as <- end.
Qed.

Lemma most_played_not_bare {K} (ops : list (OpAgg.t K)) (min_operator_matches : Q)
    (top_n : nat) :
  filter (λ r, min_operator_matches <= matchesPlayed r) ops ≠ [] →
  compute_most_played_operators ops min_operator_matches top_n =
  (Rows (rows (compute_most_played_operators ops min_operator_matches top_n).1.1),
   Rows (rows (compute_most_played_operators ops min_operator_matches top_n).1.2),
   Rows (rows (compute_most_played_operators ops min_operator_matches top_n).2)).
Proof.
  intros Hne. unfold compute_most_played_operators.
  destruct (is_empty _) eqn:He; [|done].
  apply is_empty_rows in He. done.
Qed.

Lemma take_nonempty {A} (n : nat) (l l' : list A) :
  l ≡ₚ l' → l' ≠ [] → take (S n) l ≠ [].
Proof.
  intros Hp Hne Ht. apply Hne. apply Permutation_nil_r. rewrite <-Hp.
  by destruct l.
Qed.

(** X11. The operators tab never faults for any player: its own threshold
    test keeps [compute_most_played_operators] from returning
    [pd.DataFrame()].  It reports "no operator" exactly when the player has
    no row, "none with the minimum" exactly when the player has rows but
    none reaches the threshold, and otherwise three non-empty rankings of at
    most ten rows. *)
Theorem operators_tab_never_faults :
  ∀ (ops : list (OpAgg.t (string * string * string))) (min_operator_matches : Q)
    (p : string),
    let df_jogador := filter (λ r, player r = p) ops in
    let eligible := filter (λ r, min_operator_matches <= matchesPlayed r) df_jogador in
    ∃ v, operators_tab_player ops min_operator_matches p = Ok v ∧
         (v = NenhumOperador ↔ df_jogador = []) ∧
         (v = NenhumOperadorComMinimo ↔ df_jogador ≠ [] ∧ eligible = []) ∧
         (∀ mais_jogados maior_win maior_kpm,
            v = TopOperadores mais_jogados maior_win maior_kpm →
            mais_jogados ≠ [] ∧ maior_win ≠ [] ∧ maior_kpm ≠ [] ∧
            (length mais_jogados ≤ 10)%nat ∧ (length maior_win ≤ 10)%nat ∧
            (length maior_kpm ≤ 10)%nat ∧
            Forall (λ r, r ∈ eligible) mais_jogados ∧
            Forall (λ r, r ∈ eligible) maior_win).
Proof.
  intros ops min_operator_matches p df_jogador eligible.
  unfold operators_tab_player. fold df_jogador. fold eligible.
  destruct (is_empty (Rows df_jogador)) eqn:Hj.
  { apply is_empty_rows in Hj. simpl in Hj.
    exists NenhumOperador. repeat split; try done. by intros [? _]. }
  assert (Hjne : df_jogador ≠ []).
  { intros Hr. by rewrite Hr in Hj. }
  destruct (is_empty (Rows eligible)) eqn:He.
  { apply is_empty_rows in He. simpl in He.
    exists NenhumOperadorComMinimo. repeat split; try done. }
  assert (Hene : eligible ≠ []).
  { intros Hr. by rewrite Hr in He. }
  rewrite (most_played_not_bare df_jogador min_operator_matches 10 Hene). simpl.
  destruct (rows_most_played df_jogador min_operator_matches 10) as (H1 & H2 & H3).
  simpl in H1, H2, H3. fold eligible in H1, H2, H3.
  eexists. split; [reflexivity|]. split; [done|]. split; [by split; [|intros [_ ?]]|].
  intros a b c [= <- <- <-]. rewrite H1, H2, H3.
  split; [by eapply take_nonempty; [apply sort_values_Permutation|]|].
  split; [by eapply take_nonempty; [apply sort_values_Permutation|]|].
  split.
  { eapply take_nonempty; [apply sort_values_na_Permutation|].
    intros Hnil. apply fmap_nil_inv in Hnil. done. }
  rewrite !length_take. split; [lia|]. split; [lia|]. split; [lia|].
  split; apply Forall_forall; intros r Hr%elem_of_take_elem;
    by rewrite sort_values_Permutation in Hr.
Qed.

Lemma best_operator_on_spec (df : list (OpAgg.t (string * string * string))) (lado : string) :
  ∃ l, best_operator_on df lado = Ok l ∧
       ((filter (λ r, side r = lado) df = [] ∧ l = []) ∨
        ∃ r, l = [(lado, r)] ∧ r ∈ df ∧ side r = lado ∧
             Forall (λ r', side r' = lado → winPct r' <= winPct r) df).
Proof.
  unfold best_operator_on. destruct (filter (λ r, side r = lado) df) as [|r0 rest] eqn:Hf.
  - exists []. split; [done|]. by left.
  - change (is_empty (Rows (r0 :: rest))) with false. cbv iota.
    assert (Hnn : sort_values winPct false (r0 :: rest) ≠ [])
      by by apply sort_values_nonempty.
    destruct (iloc_first_nonempty _ Hnn) as [b Hb]. rewrite Hb.
    apply iloc_first_sorted_max in Hb as [Hb1 Hb2]. rewrite <-Hf in Hb1, Hb2.
    apply list_elem_of_filter in Hb1 as [Hs Hb1].
    eexists. split; [reflexivity|]. right. exists b. repeat split; try done.
    apply Forall_forall. intros r' Hr' Hs'.
    apply (proj1 (Forall_forall _ _) Hb2). by apply list_elem_of_filter.
Qed.

(** X12. The selection of a player's best operator per side always
    succeeds.  It names at most one operator for the attackers and one for
    the defenders, in that order; each is a row of the player that reaches
    the threshold, plays on the side it is named for, and has the highest
    [winPct] among the player's eligible rows of that side.  A row of any
    other side (the default ["all"] of a record without side) is never
    named. *)
Theorem best_operators_insight_spec :
  ∀ (ops : list (OpAgg.t (string * string * string))) (min_operator_matches : Q)
    (p : string),
    let eligible := filter (λ r, min_operator_matches <= matchesPlayed r)
                           (filter (λ r, player r = p) ops) in
    ∃ v, best_operators_insight ops min_operator_matches p = Ok v ∧
         (v = NenhumOperadorDoJogador ↔ eligible = []) ∧
         (∀ melhores_ops, v = MelhoresOps melhores_ops →
            melhores_ops ≠ [] ∧ (length melhores_ops ≤ 2)%nat ∧
            Sorted (λ a b, a.1 = "attacker"%string ∧ b.1 = "defender"%string)
                   melhores_ops ∧
            Forall (λ pick,
                (pick.1 = "attacker"%string ∨ pick.1 = "defender"%string) ∧
                side pick.2 = pick.1 ∧ player pick.2 = p ∧ pick.2 ∈ ops ∧
                min_operator_matches <= matchesPlayed pick.2 ∧
                Forall (λ r', side r' = pick.1 → winPct r' <= winPct pick.2) eligible)
              melhores_ops).
Proof.
  intros ops min_operator_matches p eligible.
  unfold best_operators_insight. fold eligible.
  destruct eligible as [|e0 erest] eqn:He.
  { exists NenhumOperadorDoJogador. by repeat split. }
  change (is_empty (Rows (e0 :: erest))) with false. cbv iota. rewrite <-He.
  assert (Hel : ∀ r, r ∈ eligible →
            player r = p ∧ r ∈ ops ∧ min_operator_matches <= matchesPlayed r).
  { intros r [Hm [Hp Hin]%list_elem_of_filter]%list_elem_of_filter. done. }
  destruct (best_operator_on_spec eligible "attacker") as (la & -> & Ha).
  destruct (best_operator_on_spec eligible "defender") as (ld & -> & Hd).
  rewrite !bind_Ok_l.
  assert (Hpick : ∀ lado r, (lado = "attacker"%string ∨ lado = "defender"%string) →
            r ∈ eligible → side r = lado →
            Forall (λ r', side r' = lado → winPct r' <= winPct r) eligible →
            (λ pick : string * OpAgg.t (string * string * string),
               (pick.1 = "attacker"%string ∨ pick.1 = "defender"%string) ∧
               side pick.2 = pick.1 ∧ player pick.2 = p ∧ pick.2 ∈ ops ∧
               min_operator_matches <= matchesPlayed pick.2 ∧
               Forall (λ r', side r' = pick.1 → winPct r' <= winPct pick.2) eligible)
              (lado, r)).
  { intros lado r Hl Hr Hs Hbest. simpl. destruct (Hel r Hr) as (? & ? & ?). done. }
  destruct Ha as [[_ ->]|(ra & -> & Hra & Hsa & Hba)],
           Hd as [[_ ->]|(rd & -> & Hrd & Hsd & Hbd)]; simpl.
  - exists NenhumOperadorNosLados. split; [done|]. split; [|done].
    split; [done|]. intros Hnil. by rewrite Hnil in He.
  - eexists. split; [reflexivity|]. split; [split; [done|by rewrite He]|].
    intros l [= <-]. split; [done|]. split; [simpl; lia|].
    split; [by repeat constructor|].
    constructor; [apply Hpick; auto|constructor].
  - eexists. split; [reflexivity|]. split; [split; [done|by rewrite He]|].
    intros l [= <-]. split; [done|]. split; [simpl; lia|].
    split; [by repeat constructor|].
    constructor; [apply Hpick; auto|constructor].
  - eexists. split; [reflexivity|]. split; [split; [done|by rewrite He]|].
    intros l [= <-]. split; [done|]. split; [simpl; lia|].
    split; [by repeat constructor|].
    constructor; [apply Hpick; auto|]. constructor; [apply Hpick; auto|constructor].
Qed.

(** ** More on extraction *)

Lemma chars_rev_app s1 s2 :
  list_ascii_of_string (String.rev_app s1 s2) =
  reverse (list_ascii_of_string s1) ++ list_ascii_of_string s2.
Proof.
  revert s2. induction s1 as [|a s1 IH]; intros s2; simpl; [done|].
  rewrite IH, reverse_cons, <-app_assoc. done.
Qed.

Lemma chars_rev s : list_ascii_of_string (String.rev s) = reverse (list_ascii_of_string s).
Proof. unfold String.rev. rewrite chars_rev_app. simpl. by rewrite app_nil_r. Qed.

Lemma chars_lstrip s : list_ascii_of_string (lstrip s) = lstrip_chars (list_ascii_of_string s).
Proof. induction s as [|c s IH]; simpl; [done|]. by destruct (is_space c). Qed.

Lemma chars_strip s :
  list_ascii_of_string (strip s) =
  reverse (lstrip_chars (reverse (lstrip_chars (list_ascii_of_string s)))).
Proof. unfold strip, rstrip. by rewrite chars_rev, chars_lstrip, chars_rev, chars_lstrip. Qed.

Lemma lstrip_chars_clean l : clean_front (lstrip_chars l).
Proof. induction l as [|c l IH]; simpl; [done|]. by destruct (is_space c) eqn:Hc. Qed.

Lemma lstrip_chars_id l : clean_front l → lstrip_chars l = l.
Proof. destruct l as [|c l]; simpl; [done|]. by intros ->. Qed.

Lemma lstrip_chars_suffix l : ∃ pre, l = pre ++ lstrip_chars l.
Proof.
  induction l as [|c l [pre IH]]; simpl; [by exists []|].
  destruct (is_space c); [|by exists []]. exists (c :: pre). simpl. by f_equal.
Qed.

Lemma rstrip_chars_clean l :
  clean_front l → clean_front (reverse (lstrip_chars (reverse l))).
Proof.
  intros Hl. destruct (lstrip_chars_suffix (reverse l)) as [pre Hpre].
  apply (f_equal reverse) in Hpre. rewrite reverse_involutive, reverse_app in Hpre.
  destruct (reverse (lstrip_chars (reverse l))) as [|c w]; [done|].
  rewrite Hpre in Hl. done.
Qed.

Lemma chars_inj s t : list_ascii_of_string s = list_ascii_of_string t → s = t.
Proof.
  intros H. rewrite <-(string_of_list_ascii_of_string s),
                    <-(string_of_list_ascii_of_string t). by rewrite H.
Qed.

Lemma strip_idempotent s : strip (strip s) = strip s.
Proof.
  apply chars_inj. rewrite (chars_strip (strip s)), (chars_strip s).
  set (u := lstrip_chars (reverse (lstrip_chars (list_ascii_of_string s)))).
  assert (Hfront : clean_front (reverse u)).
  { apply rstrip_chars_clean, lstrip_chars_clean. }
  rewrite (lstrip_chars_id _ Hfront), reverse_involutive.
  by rewrite (lstrip_chars_id u) by apply lstrip_chars_clean.
Qed.

Lemma omap_filter_fmap {A B C} (f : A → option B) (g : A → C) (h : B → C)
    (P : C → Prop) `{∀ c, Decision (P c)} (l : list A) :
  (∀ a, match f a with Some b => P (g a) ∧ h b = g a | None => ¬ P (g a) end) →
  h <$> omap f l = filter P (g <$> l).
Proof.
  intros Hf. induction l as [|a l IH]; [done|].
  rewrite fmap_cons, filter_cons. csimpl. specialize (Hf a).
  destruct (f a) as [b|].
  - destruct Hf as [HP Hh]. rewrite decide_True by done. csimpl. by rewrite Hh, IH.
  - by rewrite decide_False.
Qed.

(** X13. Operator extraction keeps, in the order of the file, exactly the
    records whose stripped name is neither empty nor ["unknown"] in any
    case, so the rows kept and the records discarded add up to the records
    read.  Every row carries the player it was extracted for and a name
    without white space around it (stripping it again changes nothing). *)
Theorem operator_extraction_keeps_known_names :
  ∀ (ops_json : list entry) (player_name : string),
    let df := rows (parse_operators_to_df ops_json player_name) in
    OperatorRow.operatorName <$> df =
      filter (λ n, ¬ unknown_name n) (op_name_of <$> ops_json) ∧
    (length df + length (filter unknown_name (op_name_of <$> ops_json)) =
       length ops_json)%nat ∧
    Forall (λ r, OperatorRow.player r = player_name ∧
                 strip (OperatorRow.operatorName r) = OperatorRow.operatorName r) df.
Proof.
  intros ops_json player_name df.
  assert (Hnames : OperatorRow.operatorName <$> df =
                   filter (λ n, ¬ unknown_name n) (op_name_of <$> ops_json)).
  { unfold df, parse_operators_to_df. rewrite rows_mkDataFrame.
    apply omap_filter_fmap. intros e. unfold parse_operator_entry.
    fold (op_name_of e). destruct (discarded (op_name_of e)) eqn:Hd.
    - intros Hk. apply discarded_false in Hk. congruence.
    - split; [by apply discarded_false|done]. }
  split; [done|]. split.
  - assert (H1 : length df =
                 length (filter (λ n, ¬ unknown_name n) (op_name_of <$> ops_json))).
    { rewrite <-Hnames. symmetry. apply length_fmap. }
    assert (H2 : length ops_json = length (op_name_of <$> ops_json)).
    { symmetry. apply length_fmap. }
    pose proof (Permutation_length (filter_app_complement unknown_name
                                      (op_name_of <$> ops_json))) as H3.
    rewrite length_app in H3. lia.
  - unfold df, parse_operators_to_df. rewrite rows_mkDataFrame.
    apply Forall_forall. intros r (e & _ & Hr)%list_elem_of_omap.
    unfold parse_operator_entry in Hr. fold (op_name_of e) in Hr.
    destruct (discarded (op_name_of e)); [done|]. injection Hr as <-. simpl.
    split; [done|]. apply strip_idempotent.
Qed.

Lemma find_overview_first pre seg post :
  Forall (λ s, type s ≠ Some "overview"%string) pre →
  type seg = Some "overview"%string →
  find_overview {| segments := pre ++ seg :: post |} = Some seg.
Proof.
  intros Hpre Hseg. unfold find_overview. simpl.
  assert (Hf : list_find (λ s, type s = Some "overview"%string) (pre ++ seg :: post)
               = Some (length pre, seg)).
  { apply list_find_Some. split; [by rewrite list_lookup_middle|]. split; [done|].
    intros j y Hj Hlt. rewrite lookup_app_l in Hj by done.
    apply list_elem_of_lookup_2 in Hj. by apply (proj1 (Forall_forall _ _) Hpre). }
  by rewrite Hf.
Qed.

(** X14. Overview extraction yields at most one row; it yields
    [pd.DataFrame()] exactly when no segment has type ["overview"]; and when
    several segments have that type, the row is read from the first of
    them, whatever follows. *)
Theorem overview_first_segment_wins :
  ∀ (overview_json : overview) (player_name : string),
    (length (rows (parse_overview_to_df overview_json player_name)) ≤ 1)%nat ∧
    (parse_overview_to_df overview_json player_name = Bare ↔
       Forall (λ s, type s ≠ Some "overview"%string) (segments overview_json)) ∧
    (∀ pre seg post,
       segments overview_json = pre ++ seg :: post →
       Forall (λ s, type s ≠ Some "overview"%string) pre →
       type seg = Some "overview"%string →
       ∃ row, parse_overview_to_df overview_json player_name = Rows [row] ∧
              OverviewRow.player row = player_name ∧
              Forall (λ c, c.2 row = get_stat (seg_stats seg) c.1) overview_columns).
Proof.
  intros overview_json player_name. split; [|split].
  - rewrite parse_overview_rows. destruct (find_overview overview_json); simpl; lia.
  - unfold parse_overview_to_df.
    destruct (find_overview overview_json) as [seg|] eqn:Hf.
    + split; [done|]. intros Hall. apply find_overview_Some in Hf as [Hin Ht].
      by apply (proj1 (Forall_forall _ _) Hall) in Hin.
    + split; [|done]. intros _. apply Forall_forall. intros s Hs Ht.
      unfold find_overview in Hf.
      destruct (list_find _ _) as [[i s']|] eqn:Hl; [done|].
      apply list_find_None in Hl. by apply (proj1 (Forall_forall _ _) Hl) in Hs.
  - intros pre seg post Hsegs Hpre Hseg. unfold parse_overview_to_df.
    destruct overview_json as [segs]. simpl in Hsegs. subst segs.
    rewrite (find_overview_first pre seg post Hpre Hseg).
    eexists. split; [reflexivity|]. split; [done|]. by repeat constructor.
Qed.

(** ** The roster *)

Lemma rows_of_files {J A} (parse : J → string → DataFrame A)
    (file : player_files → option J) (loaded : list (string * player_files)) :
  omap (λ p, (λ j, parse j p.1) <$> file p.2) loaded ≫= rows =
  loaded ≫= rows_of_file parse file.
Proof.
  induction loaded as [|p rest IH]; [done|].
  change ((p :: rest) ≫= rows_of_file parse file)
    with (rows_of_file parse file p ++ (rest ≫= rows_of_file parse file)).
  rewrite <-IH. unfold rows_of_file. csimpl. by destruct (file p.2).
Qed.

Lemma omap_skip {A B} (f : A → option B) (l1 l2 : list A) (x : A) :
  f x = None → omap f (l1 ++ x :: l2) = omap f (l1 ++ l2).
Proof. intros Hx. rewrite !omap_app. csimpl. by rewrite Hx. Qed.

(** X15. The three tables that [main] concatenates hold the rows of each
    selected player's file in the order of the selection.  A player whose
    file is missing contributes no row, and the table is the same as if that
    player had not been selected; the three files are independent of each
    other in this. *)
Theorem tables_follow_the_roster :
  (∀ loaded,
     rows (overview_df loaded) = loaded ≫= rows_of_file parse_overview_to_df overview_json ∧
     rows (maps_df loaded) = loaded ≫= rows_of_file parse_maps_to_df maps_json ∧
     rows (ops_df loaded) = loaded ≫= rows_of_file parse_operators_to_df ops_json) ∧
  (∀ l1 l2 p files,
     (overview_json files = None →
        overview_df (l1 ++ (p, files) :: l2) = overview_df (l1 ++ l2) ∧
        overview_raw_by_player (l1 ++ (p, files) :: l2) = overview_raw_by_player (l1 ++ l2)) ∧
     (maps_json files = None →
        maps_df (l1 ++ (p, files) :: l2) = maps_df (l1 ++ l2) ∧
        maps_df_agg (l1 ++ (p, files) :: l2) = maps_df_agg (l1 ++ l2)) ∧
     (ops_json files = None →
        ops_df (l1 ++ (p, files) :: l2) = ops_df (l1 ++ l2) ∧
        ops_df_agg_team (l1 ++ (p, files) :: l2) = ops_df_agg_team (l1 ++ l2) ∧
        ops_df_agg_player (l1 ++ (p, files) :: l2) = ops_df_agg_player (l1 ++ l2))).
Proof.
  split.
  - intros loaded. unfold overview_df, maps_df, ops_df. rewrite !rows_concat.
    unfold overview_list, maps_list, ops_list. by rewrite !rows_of_files.
  - intros l1 l2 p files. split; [|split].
    + intros Hnone. unfold overview_df, overview_list, overview_raw_by_player.
      rewrite !(omap_skip _ l1 l2 (p, files)); [done| |]; simpl; by rewrite Hnone.
    + intros Hnone.
      assert (Hdf : maps_df (l1 ++ (p, files) :: l2) = maps_df (l1 ++ l2)).
      { unfold maps_df, maps_list.
        rewrite (omap_skip _ l1 l2 (p, files)); [done|]. simpl. by rewrite Hnone. }
      split; [done|]. unfold maps_df_agg. by rewrite Hdf.
    + intros Hnone.
      assert (Hdf : ops_df (l1 ++ (p, files) :: l2) = ops_df (l1 ++ l2)).
      { unfold ops_df, ops_list.
        rewrite (omap_skip _ l1 l2 (p, files)); [done|]. simpl. by rewrite Hnone. }
      split; [done|]. unfold ops_df_agg_team, ops_df_agg_player. by rewrite Hdf.
Qed.

(** X16. Map extraction drops no record: a map record with neither
    [metadata.mapName] nor [attributes.map] becomes a row named
    ["Unknown"], and that name is a row of the map aggregate of [main]
    (which the dashboard tables show); the report, however, never shows a
    map of that name. *)
Theorem nameless_map_reaches_aggregate_not_report :
  ∀ loaded p files maps e,
    (p, files) ∈ loaded → maps_json files = Some maps → e ∈ maps →
    metadata e !! "mapName"%string = None → attributes e !! "map"%string = None →
    length (rows (parse_maps_to_df maps p)) = length maps ∧
    "Unknown"%string ∈ mapName <$> rows (maps_df_agg loaded) ∧
    ∀ flowable_error build_error jogadores overview_raw ops_df_agg_player
      ops_df_agg_team sides_df_agg min_operator_matches min_map_matches els,
      create_pdf_report flowable_error build_error jogadores overview_raw
        (maps_df_agg loaded) ops_df_agg_player ops_df_agg_team sides_df_agg
        min_operator_matches min_map_matches = Ok els →
      Forall (λ el, "Unknown"%string ∉ mapName <$> element_maps el) els.
Proof.
  intros loaded p files maps e Hp Hmaps He Hmeta Hattr. split; [|split].
  - unfold parse_maps_to_df. rewrite rows_mkDataFrame. apply length_fmap.
  - unfold maps_df_agg. rewrite rows_maps_agg.
    change mapName with (@Agg.key string). rewrite aggregate_keys.
    rewrite merge_sort_Permutation. apply elem_of_remove_dups.
    apply list_elem_of_fmap. exists (parse_map_entry p e). split.
    + unfold parse_map_entry. simpl. by rewrite Hmeta, Hattr.
    + unfold maps_df. rewrite rows_concat. apply list_elem_of_bind.
      exists (parse_maps_to_df maps p). split.
      * unfold parse_maps_to_df. rewrite rows_mkDataFrame.
        by apply list_elem_of_fmap_2.
      * unfold maps_list. apply list_elem_of_omap. exists (p, files).
        split; [done|]. simpl. by rewrite Hmaps.
  - intros fe be jogadores overview_raw ops team sides mo mm els Hels.
    apply create_pdf_report_shows in Hels as (ops' & maps' & _ & Hm & Hshows).
    apply report_maps_Ok in Hm as (l & _ & ->).
    eapply Forall_impl; [exact Hshows|]. intros el [_ Hel].
    intros (r & Hname & Hr)%list_elem_of_fmap.
    apply (proj1 (Forall_forall _ _) Hel) in Hr. simpl in Hr.
    apply list_elem_of_filter in Hr as [_ Hr].
    apply list_elem_of_filter in Hr as [Hr _].
    unfold not_unknown in Hr. rewrite <-Hname in Hr. by apply Hr.
Qed.

Lemma maps_tab_KeyError (maps_df_agg : DataFrame (Agg.t string)) (min_map_matches : Q) :
  maps_tab maps_df_agg min_map_matches = Raised (KeyError "mapName") ↔
  rows maps_df_agg ≠ [] ∧
  filter (λ r, min_map_matches <= matchesPlayed r) (rows maps_df_agg) = [].
Proof.
  unfold maps_tab. destruct (is_empty maps_df_agg) eqn:He.
  { apply is_empty_rows in He. split; [done|]. by intros [? _]. }
  assert (Hne : rows maps_df_agg ≠ []).
  { intros Hr. apply is_empty_rows in Hr. congruence. }
  unfold compute_best_worst_maps.
  destruct (filter _ _) as [|r0 rest]; simpl; [done|].
  split; [done|]. by intros [_ ?].
Qed.

(** X17. The best-map insight of tab 5 never faults: without map rows it
    says so, with map rows of which none reaches the threshold it says so
    (the case in which the maps tab raises [KeyError]), and otherwise it
    names a map with the highest [winPct] among the eligible ones and lists
    the first five of them by descending [winPct]. *)
Theorem best_map_insight_spec :
  ∀ (maps_df_agg : DataFrame (Agg.t string)) (min_map_matches : Q),
    let eligible := filter (λ r, min_map_matches <= matchesPlayed r) (rows maps_df_agg) in
    ∃ v, best_map_insight maps_df_agg min_map_matches = Ok v ∧
         (v = NenhumDadoDeMapa ↔ rows maps_df_agg = []) ∧
         (v = NenhumMapaComMinimo ↔
            maps_tab maps_df_agg min_map_matches = Raised (KeyError "mapName")) ∧
         (∀ melhor top5 scatter, v = MelhorMapa melhor top5 scatter →
            melhor ∈ eligible ∧ scatter = eligible ∧
            Forall (λ r, Agg.winPct r <= Agg.winPct melhor) eligible ∧
            top5 = take 5 (sort_values Agg.winPct false eligible) ∧
            head top5 = Some melhor).
Proof.
  intros maps_df_agg min_map_matches eligible.
  setoid_rewrite (maps_tab_KeyError maps_df_agg min_map_matches). fold eligible.
  unfold best_map_insight. destruct (is_empty maps_df_agg) eqn:He.
  { apply is_empty_rows in He. exists NenhumDadoDeMapa.
    repeat split; try done. by intros [? _]. }
  assert (Hne : rows maps_df_agg ≠ []).
  { intros Hr. apply is_empty_rows in Hr. congruence. }
  destruct maps_df_agg as [|l]; [done|].
  change (select "matchesPlayed" (λ r, min_map_matches <= matchesPlayed r) (Rows l))
    with (Ok (Rows eligible)).
  rewrite bind_Ok_l.
  destruct (is_empty (Rows eligible)) eqn:Hel.
  { apply is_empty_rows in Hel. simpl in Hel. exists NenhumMapaComMinimo.
    repeat split; try done. }
  assert (Hene : eligible ≠ []).
  { intros Hr. by rewrite Hr in Hel. }
  assert (Hnn : sort_values Agg.winPct false eligible ≠ [])
    by by apply sort_values_nonempty.
  destruct (iloc_first_nonempty _ Hnn) as [b Hb].
  change (rows (Rows eligible)) with eligible. rewrite Hb, bind_Ok_l.
  eexists. split; [reflexivity|]. split; [done|].
  split; [by split; [|intros [_ ?]]|].
  intros melhor top5 scatter [= <- <- <-].
  pose proof Hb as Hhead. apply iloc_first_sorted_max in Hb as [Hb1 Hb2].
  repeat split; try done.
  unfold iloc_first in Hhead.
  destruct (sort_values Agg.winPct false eligible) as [|x rest]; [done|].
  simpl in Hhead |- *. by injection Hhead as ->.
Qed.

(** ** The further statements at concrete inputs *)

(** Bank (50 %) and Oregon (75 %): the report names Oregon best and Bank
    worst. *)
Lemma report_names_the_extremes_witness :
  ∃ els melhor pior,
    create_pdf_report no_error no_error ["A"%string] []
      (Rows (rows (maps_df_agg loaded_two_maps))) (Rows [ash_60]) Bare Bare 50 10
    = Ok els ∧
    Paragraph (TextoMapas melhor pior) normal ∈ els ∧
    mapName melhor = "Oregon"%string ∧ mapName pior = "Bank"%string ∧
    Forall (λ r, Agg.winPct pior <= Agg.winPct r ∧ Agg.winPct r <= Agg.winPct melhor)
           (eligible_maps (rows (maps_df_agg loaded_two_maps)) 10).
Proof.
  destruct (create_pdf_report no_error no_error ["A"%string] []
              (Rows (rows (maps_df_agg loaded_two_maps))) (Rows [ash_60]) Bare Bare 50 10)
    as [e|els] eqn:Hr; [by vm_compute in Hr|].
  destruct (report_names_the_extremes _ _ _ _ _ _ _ _ _ _ els Hr) as [Hmaps _].
  vm_compute in Hr. injection Hr as <-.
  eexists _, _, _. split; [reflexivity|].
  split; [do 3 apply list_elem_of_further; apply list_elem_of_here|].
  split; [reflexivity|]. split; [reflexivity|].
  eapply Hmaps. do 3 apply list_elem_of_further. apply list_elem_of_here.
Defined.

(** Two selected players, of whom one has an overview; the libraries raise
    nothing. *)
Lemma report_layout_witness :
  ∃ els,
    create_pdf_report no_error no_error ["A"; "B"]%string
      [("A"%string, overview_10_6_4)] (Rows []) (Rows [ash_60]) Bare Bare 50 10
    = Ok els ∧
    head els = Some (Paragraph TituloGeral titulo) ∧
    omap heading_player els = ["A"; "B"]%string ∧
    omap overview_player els = ["A"%string].
Proof.
  destruct (create_pdf_report no_error no_error ["A"; "B"]%string
              [("A"%string, overview_10_6_4)] (Rows []) (Rows [ash_60]) Bare Bare 50 10)
    as [e|els] eqn:Hr; [by vm_compute in Hr|].
  exists els. split; [reflexivity|].
  exact (report_layout _ _ _ _ _ _ _ _ _ _ els Hr).
Defined.

(** A map record without a name shows up as "Unknown" in the map aggregate. *)
Lemma nameless_map_witness :
  "Unknown"%string ∈ mapName <$> rows (maps_df_agg loaded_nameless).
Proof.
  eapply (nameless_map_reaches_aggregate_not_report loaded_nameless "A"%string).
  - apply list_elem_of_here.
  - reflexivity.
  - apply list_elem_of_here.
  - reflexivity.
  - reflexivity.
Defined.

(** An operator record without statistics makes the best-side insight fail. *)
Lemma best_side_insight_witness :
  best_side_insight (ops_agg_team (parse_operators_to_df [ash_without_stats] "A"))
  = Raised IndexError.
Proof.
  apply best_side_insight_spec. split; [by vm_compute|compute_done].
Defined.

(** With a threshold of 1000 matches the maps tab fails on the sample. *)
Lemma maps_tab_witness :
  maps_tab (maps_df_agg loaded_40_60) 1000 = Raised (KeyError "mapName").
Proof.
  apply maps_tab_spec. split; [by vm_compute|vm_compute; reflexivity].
Defined.

(** Styles of equal usage keep their order; a style without name or usage
    reads as the empty name with usage 0. *)
Example playstyles_sample :
  extract_playstyles sample_playstyles =
  [("Entry Fragger", 30); ("Breacher", 12); ("Anchor", 12); ("", 0)]%string.
Proof. vm_compute. reflexivity. Qed.
